(** * Hebbian memory system: the memory engine

    A shallow embedding of the database layer (lib/db.mjs, shipped in
    src/extractors/session-extractor.mjs after the extractor), of the
    ID-level deduplication of the two ingesters, and of the helpers they
    call in cli/manager.mjs.

    Conventions of the embedding.
    - A JavaScript Number is a binary64 float: activations, weights,
      scores and similarities are Rocq primitive floats, with the
      operations of IEEE 754 that JavaScript uses.
    - Counts (string lengths, [limit], [tokenBudget]) are natural
      numbers and [retrieval_count] is an integer; they are exact as
      doubles below 2^53.
    - A JavaScript string is a [string] whose characters are its UTF-16
      code units (code units below 256).
    - A table with a rowid is the list of its rows in rowid order; the
      co-occurrence table, whose primary key is the pair of its ends, is a
      finite map from pairs to weights.
    - A JavaScript exception is the [Threw] outcome. *)

From Stdlib Require Import ZArith List Bool Ascii String Floats Uint63 Lia.
From Stdlib Require Import Strings.Byte HexadecimalString.
From stdpp Require Import base option list strings gmap.
Import ListNotations.

Set Warnings "-inexact-float".

(** ** Outcomes of JavaScript calls *)

Inductive exn : Type := RangeError | TypeError.

Inductive outcome (A : Type) : Type :=
  | Returned (a : A)
  | Threw (e : exn).
Arguments Returned {A} a.
Arguments Threw {A} e.

#[export] Instance outcome_ret : MRet outcome := fun A a => Returned a.
#[export] Instance outcome_bind : MBind outcome := fun A B f c =>
  match c with
  | Returned a => f a
  | Threw e => Threw e
  end.
#[export] Instance outcome_fmap : FMap outcome := fun A B f c =>
  match c with
  | Returned a => Returned (f a)
  | Threw e => Threw e
  end.

(** ** The JavaScript operations the engine uses *)

Module JS.

(** [x || d] on a Number: [0], [-0] and [NaN] are falsy. *)
Definition num_or (x d : float) : float :=
  if (PrimFloat.is_zero x || PrimFloat.is_nan x)%bool then d else x.

(** [x || d] where [x] is a nullable REAL column. *)
Definition opt_num_or (x : option float) (d : float) : float :=
  match x with
  | Some v => num_or v d
  | None => d
  end.

(** [s || d] on a nullable string: [null] and the empty string are falsy. *)
Definition str_or (s : option string) (d : string) : string :=
  match s with
  | Some EmptyString | None => d
  | Some v => v
  end.

(** Truthiness of a nullable string. *)
Definition truthy_str (s : option string) : bool :=
  match s with
  | Some EmptyString | None => false
  | Some _ => true
  end.

(** [Math.max(a, b)] and [Math.min(a, b)]: [NaN] is contagious and
    [+0] is larger than [-0]. *)
Definition Math_max (a b : float) : float :=
  if (PrimFloat.is_nan a || PrimFloat.is_nan b)%bool then PrimFloat.nan
  else if (a <? b)%float then b
  else if (b <? a)%float then a
  else if PrimFloat.get_sign a then b else a.

Definition Math_min (a b : float) : float :=
  if (PrimFloat.is_nan a || PrimFloat.is_nan b)%bool then PrimFloat.nan
  else if (a <? b)%float then a
  else if (b <? a)%float then b
  else if PrimFloat.get_sign a then a else b.

(** A non-negative integer as a Number. *)
Definition of_nat (n : nat) : float :=
  PrimFloat.of_uint63 (Uint63.of_Z (Z.of_nat n)).

(** [a[Math.floor(x)]]: the index that [Math.floor(x)] denotes, when
    it is one; reading an array at any other key gives [undefined]. *)
Definition floor_index (x : float) : option nat :=
  match Prim2SF x with
  | S754_zero _ => Some 0%nat
  | S754_finite false m e =>
      Some (Z.to_nat (if (0 <=? e)%Z then Z.shiftl (Zpos m) e
                      else Z.shiftr (Zpos m) (- e)))
  | _ => None
  end.

(** [Array.prototype.sort(cmp)]: the sort is stable, [cmp a b > 0]
    puts [b] first, and a comparator result of [NaN] counts as [0]. For
    a comparator that is not a consistent order (one that returns
    [NaN] for some pairs) the standard leaves the result to the
    implementation: the insertion order below is then one of the
    permitted results, and it need not be the one that Node gives. The
    properties below that go through a sort do not depend on the order
    of its result. *)
Fixpoint sort_insert {A} (cmp : A -> A -> float) (x : A) (l : list A)
  : list A :=
  match l with
  | [] => [x]
  | y :: l' =>
      if (0 <? cmp x y)%float then y :: sort_insert cmp x l' else x :: l
  end.

Definition Array_sort {A} (cmp : A -> A -> float) (l : list A) : list A :=
  fold_right (sort_insert cmp) [] l.

(** [String.prototype.toLowerCase] on code units below 256. *)
Definition lower_unit (c : ascii) : ascii :=
  let n := nat_of_ascii c in
  if ((65 <=? n) && (n <=? 90))%nat then ascii_of_nat (n + 32)
  else if ((192 <=? n) && (n <=? 222) && negb (n =? 215))%nat
       then ascii_of_nat (n + 32)
  else c.

Fixpoint toLowerCase (s : string) : string :=
  match s with
  | EmptyString => EmptyString
  | String c s' => String (lower_unit c) (toLowerCase s')
  end.

(** [s.includes(sub)]. *)
Fixpoint includes (s sub : string) : bool :=
  String.prefix sub s
  || match s with
     | EmptyString => false
     | String _ s' => includes s' sub
     end.

(** [s.slice(0, n)]. *)
Fixpoint slice0 (n : nat) (s : string) : string :=
  match n, s with
  | S n', String c s' => String c (slice0 n' s')
  | _, _ => EmptyString
  end.

End JS.

(** ** Vector math: embedding blobs and cosine similarity *)

Module Vec.

(** A Node [Buffer]: a view of [byteLength] bytes, starting at
    [byteOffset], of the bytes of its underlying [ArrayBuffer]. *)
Record Buffer : Type := {
  buffer : list byte;
  byteOffset : nat;
  byteLength : nat;
}.

(** The blob of a row as the database driver hands it over: a fresh
    copy of the column's bytes, a view of a buffer of its own from
    offset 0. *)
Definition column_blob (bytes : list byte) : Buffer :=
  {| buffer := bytes; byteOffset := 0; byteLength := length bytes |}.

(** A [Float32Array] is the list of its elements, each read as a Number. *)
Definition Float32Array : Type := list float.

(** The Number that a little-endian binary32 word denotes. *)
Definition f32_of_bits (w : Z) : float :=
  let e := Z.land (Z.shiftr w 23) 255 in
  let m := Z.land w 8388607 in
  let mag :=
    if (e =? 255)%Z then
      (if (m =? 0)%Z then PrimFloat.infinity else PrimFloat.nan)
    else if (e =? 0)%Z then
      Z.ldexp (PrimFloat.of_uint63 (Uint63.of_Z m)) (-149)
    else
      Z.ldexp (PrimFloat.of_uint63 (Uint63.of_Z (m + 8388608))) (e - 150)
  in
  if Z.testbit w 31 then (- mag)%float else mag.

Definition le_word (b0 b1 b2 b3 : byte) : Z :=
  Z.of_N (Byte.to_N b0) + 256 * Z.of_N (Byte.to_N b1)
  + 65536 * Z.of_N (Byte.to_N b2) + 16777216 * Z.of_N (Byte.to_N b3).

Fixpoint decode_f32 (bs : list byte) : Float32Array :=
  match bs with
  | b0 :: b1 :: b2 :: b3 :: rest =>
      f32_of_bits (le_word b0 b1 b2 b3) :: decode_f32 rest
  | _ => []
  end.

(** [new Float32Array(ab, byteOffset, length)], where [length] is the
    Number [n / 4] for a byte count [n]. The constructor throws a
    RangeError when the offset is not a multiple of the element size,
    takes the length through ToIndex, which drops the fraction of
    [n / 4], and throws a RangeError when the view so described runs
    past the end of the buffer. The test that a byte length is a
    multiple of 4 belongs to the other case of the constructor, the one
    without a length argument. *)
Definition new_Float32Array (ab : list byte) (off n : nat)
  : outcome Float32Array :=
  let len := (n / 4)%nat in
  if negb (off mod 4 =? 0)%nat then Threw RangeError
  else if (length ab <? off + 4 * len)%nat then Threw RangeError
  else Returned (decode_f32 (take (4 * len) (drop off ab))).

(** [blobToEmbedding(blob)], on [null] or a [Buffer]. *)
Definition blobToEmbedding (blob : option Buffer)
  : outcome (option Float32Array) :=
  match blob with
  | None => Returned None
  | Some buf =>
      v ← new_Float32Array (buffer buf) (byteOffset buf) (byteLength buf);
      mret (Some v)
  end.

(** The three accumulators of the loop of [cosineSimilarity]. *)
Fixpoint dot_norms (a b : Float32Array) (acc : float * float * float)
  : float * float * float :=
  match a, b with
  | x :: a', y :: b' =>
      let '(dot, normA, normB) := acc in
      dot_norms a' b' ((dot + x * y)%float,
                       (normA + x * x)%float,
                       (normB + y * y)%float)
  | _, _ => acc
  end.

(** [cosineSimilarity(a, b)]. *)
Definition cosineSimilarity (a b : option Float32Array) : float :=
  match a, b with
  | Some a, Some b =>
      if negb (length a =? length b)%nat then 0%float
      else
        let '(dot, normA, normB) := dot_norms a b (0, 0, 0)%float in
        let denom := (PrimFloat.sqrt normA * PrimFloat.sqrt normB)%float in
        if (denom =? 0)%float then 0%float else (dot / denom)%float
  | _, _ => 0%float
  end.

End Vec.
(** ** The store *)

Module Db.

(** A row of [memories]. The columns kept are the ones that the
    functions below read or write. [last_retrieved] holds the instant,
    in milliseconds, that [new Date(text).getTime()] reads in the text
    of the column ([None] when the column is null or empty), and
    [embedding] the bytes of the blob. *)
Record memory : Type := {
  id : string;
  title : option string;
  detail : option string;
  domain : option string;
  pattern_type : option string;
  activation : option float;
  retrieval_count : Z;
  last_retrieved : option float;
  embedding : option (list byte);
  status : option string;
  superseded_by : option string;
}.

(** The database: the rows of [memories] in rowid order, and
    [co_occurrences], keyed by [(memory_a, memory_b)]. *)
Record db : Type := {
  memories : list memory;
  co_occurrences : gmap (string * string) float;
}.

(** [status = 'active' OR status IS NULL] *)
Definition is_active (m : memory) : bool :=
  match status m with
  | None => true
  | Some s => String.eqb s "active"
  end.

Definition is_deprecated (m : memory) : bool :=
  match status m with
  | Some s => String.eqb s "deprecated"
  | None => false
  end.

(** [embedding IS NOT NULL] *)
Definition has_embedding (m : memory) : bool :=
  match embedding m with
  | Some _ => true
  | None => false
  end.

(** [domain = ?] *)
Definition domain_is (d : string) (m : memory) : bool :=
  match domain m with
  | Some s => String.eqb s d
  | None => false
  end.

(** [stmts.getMemory]: [SELECT * FROM memories WHERE id = ?] *)
Definition getMemory (rows : list memory) (i : string) : option memory :=
  List.find (fun m => String.eqb (id m) i) rows.

(** [SELECT 1 FROM memories WHERE id = ?], as a condition. *)
Definition id_exists (rows : list memory) (i : string) : bool :=
  match getMemory rows i with
  | Some _ => true
  | None => false
  end.

(** The order of SQLite on a nullable REAL: NULL is below every number. *)
Definition sql_lt (x y : option float) : bool :=
  match x, y with
  | None, Some _ => true
  | Some a, Some b => (a <? b)%float
  | _, None => false
  end.

(** [ORDER BY activation DESC]; rows of equal activation stay in rowid
    order, the order the table scan and its indexes give them. *)
Fixpoint insert_desc (x : memory) (l : list memory) : list memory :=
  match l with
  | [] => [x]
  | y :: l' =>
      if sql_lt (activation x) (activation y) then y :: insert_desc x l'
      else x :: l
  end.

Definition order_by_activation_desc (rows : list memory) : list memory :=
  fold_right insert_desc [] rows.

(** The row that [stmts.bumpActivation] writes in place of [m]; in SQL
    [NULL + ?] is [NULL]. *)
Definition bump_row (amount now : float) (m : memory) : memory :=
  {| id := id m;
     title := title m;
     detail := detail m;
     domain := domain m;
     pattern_type := pattern_type m;
     activation := (fun a => (a + amount)%float) <$> activation m;
     retrieval_count := retrieval_count m + 1;
     last_retrieved := Some now;
     embedding := embedding m;
     status := status m;
     superseded_by := superseded_by m |}.

(** [stmts.bumpActivation.run(amount, now, id)]: the table after the
    UPDATE, and [info.changes], the number of rows it changed. *)
Definition run_bumpActivation (amount now : float) (i : string)
    (rows : list memory) : list memory * nat :=
  (List.map (fun m => if String.eqb (id m) i then bump_row amount now m
                      else m) rows,
   length (List.filter (fun m => String.eqb (id m) i) rows)).

(** [stmts.insertCoOcc.run(a, b, w)]: insert, or on conflict of the
    primary key [weight = weight + excluded.weight]. *)
Definition insertCoOcc (a b : string) (w : float)
    (g : gmap (string * string) float) : gmap (string * string) float :=
  <[(a, b) := match g !! (a, b) with
              | Some w0 => (w0 + w)%float
              | None => w
              end]> g.

(** Descending order of the number of a pair: [ORDER BY weight DESC] on
    the rows [(related_id, weight)], and the comparators
    [(a, b) => b[1] - a[1]] and [(a, b) => b.similarity - a.similarity]. *)
Definition by_snd_desc (x y : string * float) : float :=
  (snd y - snd x)%float.

(** [stmts.getCoOccurrences.all(a, n)]:
    [SELECT memory_b AS related_id, weight FROM co_occurrences
     WHERE memory_a = ? ORDER BY weight DESC LIMIT ?]. SQL leaves the
    order of neighbours of equal weight open; here they come in the
    order of the keys of the map, which need not be the order that the
    database gives them. The properties below hold for either order. *)
Definition getCoOccurrences (g : gmap (string * string) float)
    (a : string) (n : nat) : list (string * float) :=
  take n
    (JS.Array_sort by_snd_desc
       (List.map (fun kv => (snd (fst kv), snd kv))
          (List.filter (fun kv => String.eqb (fst (fst kv)) a)
             (map_to_list g)))).

End Db.

(** ** Activation engine and co-occurrence engine *)

Module Engine.
Import Db.

(** [bumpActivations(db, ids, amount)] at the instant [now]: the table
    after the transaction and the count [bumped] it returns. *)
Definition bump_step (amount now : float) (st : list memory * nat)
    (i : string) : list memory * nat :=
  let '(rows, changes) := run_bumpActivation amount now i (fst st) in
  (rows, if (0 <? changes)%nat then S (snd st) else snd st).

Definition bumpActivations (rows : list memory) (ids : list string)
    (amount now : float) : list memory * nat :=
  fold_left (bump_step amount now) ids (rows, 0%nat).

(** The names that every object inherits from [Object.prototype]:
    [byDomain[d]] is truthy for them although [byDomain] is empty. *)
Definition inherited_names : list string :=
  ["constructor"; "__defineGetter__"; "__defineSetter__"; "hasOwnProperty";
   "__lookupGetter__"; "__lookupSetter__"; "isPrototypeOf";
   "propertyIsEnumerable"; "toString"; "valueOf"; "__proto__";
   "toLocaleString"]%string.

Definition is_inherited (d : string) : bool :=
  existsb (String.eqb d) inherited_names.

(** [byDomain[d].push(id)] on the groups, in the order of their first
    insertion. *)
Fixpoint group_push (d i : string) (groups : list (string * list string))
  : list (string * list string) :=
  match groups with
  | [] => [(d, [i])]
  | (d', l) :: rest =>
      if String.eqb d' d then (d', l ++ [i]) :: rest
      else (d', l) :: group_push d i rest
  end.

(** The first loop of [wireCoOccurrences]. For a domain with an
    inherited name, [byDomain[d]] is the inherited value, which has no
    [push]: the call throws a TypeError. *)
Fixpoint groupByDomain (rows : list memory) (ids : list string)
    (groups : list (string * list string))
  : outcome (list (string * list string)) :=
  match ids with
  | [] => Returned groups
  | i :: ids' =>
      match getMemory rows i with
      | None => groupByDomain rows ids' groups
      | Some mem =>
          let d := JS.str_or (domain mem) "general" in
          if is_inherited d then Threw TypeError
          else groupByDomain rows ids' (group_push d i groups)
      end
  end.

(** The inner loop over [j], for [a = domainIds[i]] and the ids after it. *)
Definition wire_from (a : string) (rest : list string)
    (g : gmap (string * string) float) : gmap (string * string) float :=
  fold_left (fun g b => insertCoOcc b a 1 (insertCoOcc a b 1 g)) rest g.

(** The loop over [i]. *)
Fixpoint wire_pairs (domainIds : list string)
    (g : gmap (string * string) float) : gmap (string * string) float :=
  match domainIds with
  | [] => g
  | a :: rest => wire_pairs rest (wire_from a rest g)
  end.

(** The body of [wireTx], over [Object.values(byDomain)]. (The groups
    are taken in insertion order; JavaScript puts the keys that are
    array indices first, which changes nothing here, every step adding
    1 to its two edges.) *)
Definition wire_groups (groups : list (string * list string))
    (g : gmap (string * string) float) : gmap (string * string) float :=
  fold_left (fun g grp =>
               if (length (snd grp) <? 2)%nat then g
               else wire_pairs (snd grp) g)
            groups g.

(** [wireCoOccurrences(db, ids)]: the co-occurrence table afterwards. *)
Definition wireCoOccurrences (d : db) (ids : list string)
  : outcome (gmap (string * string) float) :=
  groups ← groupByDomain (memories d) ids [];
  mret (wire_groups groups (co_occurrences d)).

End Engine.
(** ** Retrieval pipeline *)

Module Retrieval.
Import Db.

(** The options of [retrieve]. [limit] and [tokenBudget] are counts,
    of entries and of tokens. *)
Record options : Type := {
  queryEmbedding : option Vec.Float32Array;
  domains : list string;
  limit : nat;
  tokenBudget : nat;
  semanticWeight : float;
  activationWeight : float;
  domainWeight : float;
}.

(** The defaults of the destructuring in [retrieve]. *)
Definition default_options : options :=
  {| queryEmbedding := None;
     domains := [];
     limit := 20;
     tokenBudget := 800;
     semanticWeight := 0.6;
     activationWeight := 0.3;
     domainWeight := 0.1 |}.

(** An element of the list that [retrieve] returns: the row, spread
    into the object, with [score], and either [semanticSim] (a scored
    candidate) or [spreadBoost] and [spreadingActivation: true] (a
    neighbour from the fill pass). *)
Record retrieved : Type := {
  entry : memory;
  score : float;
  semanticSim : option float;
  spreadBoost : option float;
  spreadingActivation : bool;
}.

(** [getSpreadingActivation]: [boosts[k] = (boosts[k] || 0) + w * 0.3];
    [boosts] is kept in the order in which its keys were first set,
    which is the order of [Object.entries] for keys that are not array
    indices, as the ids built by the ingesters are. *)
Fixpoint boost_add (boosts : list (string * float)) (k : string) (w : float)
  : list (string * float) :=
  match boosts with
  | [] => [(k, (0 + w * 0.3)%float)]
  | (k', b) :: rest =>
      if String.eqb k' k then (k', (JS.num_or b 0 + w * 0.3)%float) :: rest
      else (k', b) :: boost_add rest k w
  end.

Definition boost_related (activeIds : list string)
    (boosts : list (string * float)) (rel : string * float)
  : list (string * float) :=
  if existsb (String.eqb (fst rel)) activeIds then boosts
  else boost_add boosts (fst rel) (snd rel).

Definition collect_boosts (g : gmap (string * string) float)
    (activeIds : list string) : list (string * float) :=
  fold_left (fun boosts i =>
               fold_left (boost_related activeIds)
                         (getCoOccurrences g i 20) boosts)
            activeIds [].

Definition getSpreadingActivation (d : db) (activeIds : list string)
    (n : nat) : list (memory * float) :=
  omap (fun kb => (fun mem => (mem, snd kb)) <$> getMemory (memories d) (fst kb))
       (take n (JS.Array_sort by_snd_desc
                  (collect_boosts (co_occurrences d) activeIds))).

(** [semanticSearch(db, queryEmbedding, limit)] *)
Fixpoint similarities (q : option Vec.Float32Array) (rows : list memory)
  : outcome (list (string * float)) :=
  match rows with
  | [] => Returned []
  | row :: rows' =>
      emb ← Vec.blobToEmbedding (Vec.column_blob <$> embedding row);
      rest ← similarities q rows';
      mret ((id row, Vec.cosineSimilarity q emb) :: rest)
  end.

Definition semanticSearch (d : db) (q : option Vec.Float32Array) (n : nat)
  : outcome (list (string * float)) :=
  scored ← similarities q (List.filter has_embedding (memories d));
  mret (take n (JS.Array_sort by_snd_desc scored)).

(** The three ways of getting candidates. *)
Definition domainQuery (rows : list memory) (d : string) : list memory :=
  order_by_activation_desc
    (List.filter (fun m => domain_is d m && is_active m) rows).

Definition selectCandidates (rows : list memory) (o : options)
  : list memory :=
  match queryEmbedding o with
  | Some _ => List.filter (fun m => has_embedding m && is_active m) rows
  | None =>
      if (0 <? length (domains o))%nat
      then flat_map (domainQuery rows) (domains o)
      else take 100 (order_by_activation_desc (List.filter is_active rows))
  end.

(** [p95] and [maxActivation] *)
Definition sorted_activations (candidates : list memory) : list float :=
  JS.Array_sort (fun a b => (a - b)%float)
    (List.map (fun c => JS.opt_num_or (activation c) 0) candidates).

Definition p95 (candidates : list memory) : float :=
  let activations := sorted_activations candidates in
  let at_p95 :=
    i ← JS.floor_index (JS.of_nat (length activations) * 0.95)%float;
    activations !! i in
  JS.opt_num_or at_p95 1.

Definition maxActivation (candidates : list memory) : float :=
  JS.Math_max (p95 candidates) 1.

(** [normAct] of the scoring loop *)
Definition normAct (maxAct : float) (e : memory) : float :=
  JS.Math_min (JS.opt_num_or (activation e) 0 / maxAct)%float 1.

Definition pattern_type_is (e : memory) (t : string) : bool :=
  match pattern_type e with
  | Some s => String.eqb s t
  | None => false
  end.

(** [entry.detail || entry.title || ""] *)
Definition detail_text (e : memory) : string :=
  JS.str_or (detail e) (JS.str_or (title e) "").

(** The part of the loop body after the hard floor. *)
Definition score_rest (o : options) (now maxAct : float) (e : memory)
    (score0 : float) : float :=
  let score := (score0 + normAct maxAct e * activationWeight o)%float in
  let score :=
    match last_retrieved e with
    | Some t =>
        let hoursSince := ((now - t) / 3600000)%float in
        if (hoursSince <? 24)%float then (score + 0.03)%float else score
    | None => score
    end in
  let score :=
    if ((0 <? length (domains o))%nat && JS.truthy_str (domain e))%bool then
      let dom := JS.toLowerCase (JS.str_or (domain e) "") in
      let matched :=
        existsb (fun d => JS.includes dom (JS.toLowerCase d)) (domains o) in
      (score + (if matched then domainWeight o else 0))%float
    else score in
  let score :=
    if (pattern_type_is e "rule" || pattern_type_is e "directive")%bool
    then (score + 0.08)%float else score in
  let score :=
    if (pattern_type_is e "correction" || pattern_type_is e "bug-insight")%bool
    then (score + 0.05)%float else score in
  let score :=
    if pattern_type_is e "command" then (score + 0.04)%float else score in
  let score :=
    if pattern_type_is e "solution" then (score + 0.03)%float else score in
  let isGeneral := String.eqb (JS.str_or (domain e) "general") "general" in
  let isDailyLog :=
    JS.includes (JS.toLowerCase (JS.str_or (title e) "")) "daily log" in
  let isLegacyFile := negb (JS.truthy_str (pattern_type e)) in
  let score := if isGeneral then (score - 0.2)%float else score in
  let score := if isDailyLog then (score - 0.25)%float else score in
  let score := if isLegacyFile then (score - 0.1)%float else score in
  let score :=
    if (String.length (detail_text e) <? 20)%nat then (score - 0.15)%float
    else score in
  score.

(** Truthiness of [queryEmbedding]: any typed array is truthy. *)
Definition has_query (o : options) : bool :=
  match queryEmbedding o with
  | Some _ => true
  | None => false
  end.

(** The body of the scoring loop: [None] is [continue]. *)
Definition scoreEntry (o : options) (now maxAct : float) (e : memory)
  : outcome (option retrieved) :=
  sems ←
    match queryEmbedding o, embedding e with
    | Some q, Some blob =>
        emb ← Vec.blobToEmbedding (Some (Vec.column_blob blob));
        let sim := Vec.cosineSimilarity (Some q) emb in
        mret ((0 + sim * semanticWeight o)%float, sim)
    | _, _ => mret (0%float, 0%float)
    end;
  let '(score0, sim) := sems in
  if (has_query o && (sim <? 0.3)%float)%bool then mret None
  else mret (Some {| entry := e;
                     score := score_rest o now maxAct e score0;
                     semanticSim := Some sim;
                     spreadBoost := None;
                     spreadingActivation := false |}).

Fixpoint scoreCandidates (o : options) (now maxAct : float)
    (candidates : list memory) : outcome (list retrieved) :=
  match candidates with
  | [] => Returned []
  | e :: rest =>
      r ← scoreEntry o now maxAct e;
      scored ← scoreCandidates o now maxAct rest;
      mret (match r with
            | Some x => x :: scored
            | None => scored
            end)
  end.

(** [(a, b) => b.score - a.score] *)
Definition by_score_desc (a b : retrieved) : float :=
  (score b - score a)%float.

(** [entryChars] *)
Definition entryChars (e : memory) : nat :=
  String.length (detail_text e) + 20.

(** The state of the selection loops. *)
Record selection : Type := {
  selected : list retrieved;
  charsUsed : nat;
  seenDomains : gmap string nat;
}.

(** The token-budgeted selection loop over [scored]. *)
Fixpoint select_loop (o : options) (charBudget : nat)
    (scored : list retrieved) (st : selection) : selection :=
  match scored with
  | [] => st
  | e :: rest =>
      let chars := entryChars (entry e) in
      if ((charBudget <? charsUsed st + chars)
          && (0 <? length (selected st)))%nat
      then st
      else
        let dom := JS.str_or (domain (entry e)) "general" in
        let domCount := default 0%nat (seenDomains st !! dom) in
        if (3 <=? domCount)%nat then select_loop o charBudget rest st
        else
          let st' := {| selected := selected st ++ [e];
                        charsUsed := charsUsed st + chars;
                        seenDomains :=
                          <[dom := S domCount]> (seenDomains st) |} in
          if (limit o <=? length (selected st'))%nat then st'
          else select_loop o charBudget rest st'
  end.

(** The loop over [related] of the fill pass. *)
Fixpoint fill_loop (charBudget : nat) (related : list (memory * float))
    (sel : list retrieved) (used : nat) : list retrieved :=
  match related with
  | [] => sel
  | (mem, boost) :: rest =>
      let chars := entryChars mem in
      if (charBudget <? used + chars)%nat then sel
      else fill_loop charBudget rest
             (sel ++ [{| entry := mem;
                         score := (boost * 0.01)%float;
                         semanticSim := None;
                         spreadBoost := Some boost;
                         spreadingActivation := true |}])
             (used + chars)
  end.

(** The fill pass: [charsUsed < charBudget * 0.9 && selected.length > 0] *)
Definition spread_fill (d : db) (charBudget : nat) (st : selection)
  : list retrieved :=
  if ((JS.of_nat (charsUsed st) <? JS.of_nat charBudget * 0.9)%float
      && (0 <? length (selected st))%nat)%bool
  then
    let activeIds := List.map (fun s => id (entry s)) (selected st) in
    fill_loop charBudget (getSpreadingActivation d activeIds 8)
              (selected st) (charsUsed st)
  else selected st.

(** [retrieve(db, options)], run at the instant [now]. *)
Definition retrieve (d : db) (now : float) (o : options)
  : outcome (list retrieved) :=
  let candidates := selectCandidates (memories d) o in
  if (length candidates =? 0)%nat then Returned []
  else
    let maxAct := maxActivation candidates in
    scored ← scoreCandidates o now maxAct candidates;
    let ranked := JS.Array_sort by_score_desc scored in
    let charBudget := (tokenBudget o * 4)%nat in
    let st := select_loop o charBudget ranked
                {| selected := []; charsUsed := 0; seenDomains := ∅ |} in
    mret (spread_fill d charBudget st).

End Retrieval.

(** ** ID-level deduplication of the ingesters *)

Module Ingest.

(** [hashContent] of cli/manager.mjs: [hash << 5] and [hash & hash] are
    32-bit integer operations. *)
Definition toInt32 (z : Z) : Z := (z + 2147483648) mod 4294967296 - 2147483648.

Definition hash_step (hash : Z) (c : ascii) : Z :=
  toInt32 (toInt32 (hash * 32) - hash + Z.of_nat (nat_of_ascii c)).

Fixpoint hash_loop (content : string) (hash : Z) : Z :=
  match content with
  | EmptyString => hash
  | String c rest => hash_loop rest (hash_step hash c)
  end.

(** [n.toString(16)] on an integer. *)
Definition toString16 (n : Z) : string :=
  match n with
  | Zneg p => "-" ++ NilZero.string_of_uint (N.to_hex_uint (Npos p))
  | _ => NilZero.string_of_uint (N.to_hex_uint (Z.to_N n))
  end.

Definition hashContent (content : string) : string :=
  toString16 (hash_loop content 0).

(** [upsertMemory(db, entry)] on the table [memories]: INSERT OR
    REPLACE removes the row that has the id and adds the new row, with
    the defaults that the function fills in. *)
Definition nonempty (s : option string) : option string :=
  if JS.truthy_str s then s else None.

Definition upsert_row (e : Db.memory) : Db.memory :=
  {| Db.id := Db.id e;
     Db.title := nonempty (Db.title e);
     Db.detail := nonempty (Db.detail e);
     Db.domain := nonempty (Db.domain e);
     Db.pattern_type := nonempty (Db.pattern_type e);
     Db.activation := Some (JS.opt_num_or (Db.activation e) 0);
     Db.retrieval_count := Db.retrieval_count e;
     Db.last_retrieved := Db.last_retrieved e;
     Db.embedding := Db.embedding e;
     Db.status := Some (JS.str_or (Db.status e) "active");
     Db.superseded_by := nonempty (Db.superseded_by e) |}.

Definition upsertMemory (rows : list Db.memory) (e : Db.memory)
  : list Db.memory :=
  List.filter (fun m => negb (String.eqb (Db.id m) (Db.id e))) rows
  ++ [upsert_row e].

(** The entry object that both ingesters build for a new pattern. *)
Definition new_entry (now : float) (i summary detail domain type : string)
  : Db.memory :=
  {| Db.id := i;
     Db.title := Some summary;
     Db.detail := Some detail;
     Db.domain := Some domain;
     Db.pattern_type := Some type;
     Db.activation := Some 0.5%float;
     Db.retrieval_count := 1;
     Db.last_retrieved := Some now;
     Db.embedding := None;
     Db.status := None;
     Db.superseded_by := None |}.

(** The session extractor (src/extractors/session-extractor.mjs). *)
Module Session.

Record atomic : Type := {
  summary : string;
  detail : string;
  type : string;
}.

(** The keyword map of [inferDomain], in the order of
    [Object.entries]: a key written twice keeps its first place and
    its last value. *)
Definition domain_map : list (string * string) :=
  [("peekaboo", "peekaboo-web"); ("safari", "peekaboo-web");
   ("browser", "peekaboo-web"); ("comfyui", "comfyui");
   ("dreamshaper", "comfyui"); ("animatediff", "comfyui");
   ("tiktok", "tiktok"); ("ffmpeg", "video-pipeline"); ("qwen", "tts");
   ("voice", "tts"); ("podcast", "podcast"); ("fiverr", "business");
   ("etsy", "business"); ("telegram", "telegram");
   ("openclaw", "openclaw"); ("hebbian", "hebbian");
   ("memory", "hebbian"); ("ollama", "ollama");
   ("deepseek", "deepseek"); ("n8n", "n8n"); ("applescript", "macos");
   ("keychain", "macos"); ("sqlite", "infrastructure");
   ("esrgan", "video-pipeline"); ("ken burns", "video-pipeline");
   ("alpaca", "trading"); ("trading", "trading"); ("stock", "trading");
   ("patreon", "business")]%string.

Definition inferDomain (text : string) : string :=
  let lower := JS.toLowerCase text in
  match List.find (fun kd => JS.includes lower (fst kd)) domain_map with
  | Some kd => snd kd
  | None => "general"
  end.

(** The id of a candidate:
    [`${domain}:session:${hashContent(atomic.summary)}`] *)
Definition entry_id (a : atomic) : string :=
  inferDomain (detail a) ++ ":session:" ++ hashContent (summary a).

(** The loop "Build entries and check DB duplicates" of [main]:
    [newEntries] and [skippedById]. *)
Fixpoint id_dedup (rows : list Db.memory) (now : float)
    (allAtomics : list atomic) : list Db.memory * nat :=
  match allAtomics with
  | [] => ([], 0%nat)
  | a :: rest =>
      let '(newEntries, skippedById) := id_dedup rows now rest in
      let i := entry_id a in
      if Db.id_exists rows i then (newEntries, S skippedById)
      else (new_entry now i (summary a) (detail a)
                      (inferDomain (detail a)) (type a) :: newEntries,
            skippedById)
  end.

End Session.

(** The atomizer (src/unnamed/part_003). *)
Module Atomize.

Record atomic : Type := {
  domain : string;
  summary : string;
  detail : string;
  type : string;
}.

(** [\s] on code units below 256 *)
Definition is_space (c : ascii) : bool :=
  let n := nat_of_ascii c in
  (((9 <=? n) && (n <=? 13)) || (n =? 32) || (n =? 160))%nat.

(** A character that [/[^a-z0-9\s-]/g] leaves in place. *)
Definition kept (c : ascii) : bool :=
  let n := nat_of_ascii c in
  (((97 <=? n) && (n <=? 122)) || ((48 <=? n) && (n <=? 57))
   || (n =? 45))%nat || is_space c.

Fixpoint strip (s : string) : string :=
  match s with
  | EmptyString => EmptyString
  | String c rest => if kept c then String c (strip rest) else strip rest
  end.

(** [.replace(/\s+/g, "-")]: [in_run] says that the character before
    was a space, already replaced. *)
Fixpoint dash_spaces (in_run : bool) (s : string) : string :=
  match s with
  | EmptyString => EmptyString
  | String c rest =>
      if is_space c then
        (if in_run then dash_spaces true rest
         else String "-" (dash_spaces true rest))
      else String c (dash_spaces false rest)
  end.

Definition atomicId (domain summary : string) : string :=
  let clean :=
    JS.slice0 50 (dash_spaces false (strip (JS.toLowerCase summary))) in
  domain ++ ":" ++ clean.

(** The loop of the [extract] command of [main]: the table afterwards,
    [added] and [skipped]. *)
Fixpoint extract_loop (now : float) (allAtomics : list atomic)
    (st : list Db.memory * nat * nat) : list Db.memory * nat * nat :=
  match allAtomics with
  | [] => st
  | a :: rest =>
      let '(rows, added, skipped) := st in
      let i := atomicId (domain a) (summary a) in
      if Db.id_exists rows i then extract_loop now rest (rows, added, S skipped)
      else
        let e := new_entry now i (summary a) (detail a) (domain a) (type a) in
        extract_loop now rest (upsertMemory rows e, S added, skipped)
  end.

End Atomize.

End Ingest.

(** * Specification vocabulary *)

Import Db Engine Retrieval.

(** The cosine similarity of the embedding of a row to a query
    embedding, as [semanticSearch] and [retrieve] compute it. *)
Definition similarity_to (q : Vec.Float32Array) (m : memory) : float :=
  match Vec.blobToEmbedding (Vec.column_blob <$> embedding m) with
  | Returned emb => Vec.cosineSimilarity (Some q) emb
  | Threw _ => 0%float
  end.

(** What the scoring loop guarantees of a scored candidate. *)
Definition scored_ok (o : options) (candidates : list memory) (r : retrieved)
  : Prop :=
  In (entry r) candidates
  /\ spreadingActivation r = false
  /\ forall q, queryEmbedding o = Some q ->
       semanticSim r = Some (similarity_to q (entry r))
       /\ (similarity_to q (entry r) <? 0.3)%float = false.

(** The characters charged for a returned list. *)
Definition total_chars (sel : list retrieved) : nat :=
  fold_right (fun r acc => entryChars (entry r) + acc)%nat 0%nat sel.

(** The budget invariant of the two loops: the list is charged what it
    holds, and it is empty, or within the budget, or the single entry that
    was taken first and is over the budget by itself. *)
Definition within_budget (B : nat) (sel : list retrieved) (used : nat) : Prop :=
  used = total_chars sel
  /\ (sel = [] \/ (used <= B)%nat
      \/ exists x, sel = [x] /\ (B < entryChars (entry x))%nat).

(** The co-occurrence table holds every edge in both directions, with
    one weight. *)
Definition symmetric (g : gmap (string * string) float) : Prop :=
  forall a b, g !! (a, b) = g !! (b, a).

(** The co-occurrence tables that calls of [wireCoOccurrences] make of
    the empty table, whatever the rows of [memories] at each call. A call
    that throws leaves the table as it was. *)
Inductive reachable : gmap (string * string) float -> Prop :=
  | reachable_empty : reachable ∅
  | reachable_wire (rows : list memory) (ids : list string)
      (g g' : gmap (string * string) float) :
      reachable g ->
      wireCoOccurrences {| memories := rows; co_occurrences := g |} ids
      = Returned g' ->
      reachable g'.

(** A list of rows in which no row is followed by a row of larger
    activation, in the order of SQLite. *)
Fixpoint descending (l : list memory) : Prop :=
  match l with
  | x :: (y :: _) as rest =>
      sql_lt (activation x) (activation y) = false /\ descending rest
  | _ => True
  end.

(** ** Statements that the code does not satisfy

    Each is a sentence of the specification read on one call; the
    properties section gives the call on which it fails and the statement
    that holds in its place. *)

(** No returned item is below the semantic floor. *)
Definition floor_holds (d : db) (now : float) (o : options) : Prop :=
  forall q sel r,
    queryEmbedding o = Some q ->
    retrieve d now o = Returned sel ->
    In r sel ->
    (similarity_to q (entry r) <? 0.3)%float = false.

(** Every listed row is bumped once, and the count returned is the
    number of rows that were changed. *)
Definition bumped_once (rows : list memory) (ids : list string)
    (amount now : float) : Prop :=
  fst (bumpActivations rows ids amount now)
  = List.map (fun m => if existsb (String.eqb (id m)) ids
                       then bump_row amount now m else m) rows
  /\ snd (bumpActivations rows ids amount now)
     = length (List.filter (fun m => existsb (String.eqb (id m)) ids) rows).

(** With domain hints, the candidates are those of the domain-hint path. *)
Definition domain_path_used (rows : list memory) (o : options) : Prop :=
  selectCandidates rows o = flat_map (domainQuery rows) (domains o).

(** The session extractor skips a candidate exactly when an active row
    has its id. *)
Definition skipped_iff_active_twin (rows : list memory) (now : float)
    (a : Ingest.Session.atomic) : Prop :=
  Ingest.Session.id_dedup rows now [a] = ([], 1%nat)
  <-> exists m, In m rows /\ id m = Ingest.Session.entry_id a
                /\ is_active m = true.

(** A blob whose length is not a multiple of 4 makes [semanticSearch] and
    [retrieve] throw. *)
Definition has_malformed_blob (rows : list memory) : Prop :=
  exists m bytes, In m rows /\ embedding m = Some bytes
                  /\ (length bytes mod 4 <> 0)%nat.

Definition malformed_blob_throws (d : db) (now : float) (o : options)
    (n : nat) : Prop :=
  has_malformed_blob (memories d) ->
  (exists e, semanticSearch d (queryEmbedding o) n = Threw e)
  /\ (exists e, retrieve d now o = Threw e).

(** ** Example stores *)

Module Examples.

(** An atomic pattern of domain [tts]. *)
Definition row (i type text : string) (act : float)
    (emb : option (list byte)) (st : option string) : memory :=
  {| id := i;
     title := None;
     detail := Some text;
     domain := Some "tts"%string;
     pattern_type := Some type;
     activation := Some act;
     retrieval_count := 1;
     last_retrieved := None;
     embedding := emb;
     status := st;
     superseded_by := None |}.

(** The blobs of the vectors (1, 0) and (0, 1), and a blob of five bytes. *)
Definition blob_10 : list byte :=
  [x00; x00; x80; x3f; x00; x00; x00; x00]%byte.
Definition blob_01 : list byte :=
  [x00; x00; x00; x00; x00; x00; x80; x3f]%byte.
Definition blob_5 : list byte := [x00; x00; x80; x3f; x00]%byte.

Definition current : memory :=
  row "tts:atomic:a" "rule"
      "Set the sample rate to 24 kHz before cloning a voice."
      1 (Some blob_10) (Some "active"%string).

(** A row that was deprecated in favour of [current]. *)
Definition outdated : memory :=
  {| id := "tts:atomic:b";
     title := None;
     detail := Some "Set the sample rate to 16 kHz before cloning a voice."%string;
     domain := Some "tts"%string;
     pattern_type := Some "rule"%string;
     activation := Some 1000%float;
     retrieval_count := 12;
     last_retrieved := None;
     embedding := Some blob_01;
     status := Some "deprecated"%string;
     superseded_by := Some "tts:atomic:a"%string |}.

(** An active row that is close to the query, and one that is
    orthogonal to it and has the highest activation. *)
Definition close : memory :=
  row "tts:atomic:b" "fact"
      "The voice clone needs ten seconds of clean reference audio."
      1 (Some blob_10) (Some "active"%string).
Definition unrelated : memory :=
  row "tts:atomic:b" "fact"
      "The podcast feed is rebuilt every night at two in the morning."
      1000 (Some blob_01) (Some "active"%string).

(** Rows without an embedding, of activation -1 and 1, and a row whose
    blob has five bytes. *)
Definition negative : memory :=
  row "tts:atomic:n" "fact"
      "The first take of the voice sample was recorded too quietly."
      (-1) None (Some "active"%string).
Definition plain : memory :=
  row "tts:atomic:p" "fact"
      "The voice clone needs ten seconds of clean reference audio."
      1 None (Some "active"%string).
Definition malformed : memory :=
  row "tts:atomic:m" "fact"
      "The voice clone needs ten seconds of clean reference audio."
      1 (Some blob_5) (Some "active"%string).

(** The two rows were retrieved together once. *)
Definition wired : gmap (string * string) float :=
  <[("tts:atomic:a", "tts:atomic:b")%string := 1%float]>
    (<[("tts:atomic:b", "tts:atomic:a")%string := 1%float]> ∅).

Definition store (rows : list memory) : db :=
  {| memories := rows; co_occurrences := wired |}.

(** A query whose embedding is (1, 0), with the hint [tts]. *)
Definition query (n : nat) : options :=
  {| queryEmbedding := Some [1; 0]%float;
     domains := ["tts"%string];
     limit := n;
     tokenBudget := 800;
     semanticWeight := 0.6;
     activationWeight := 0.3;
     domainWeight := 0.1 |}.

(** The same query when the embedding service failed. *)
Definition hints_only : options :=
  {| queryEmbedding := None;
     domains := ["tts"%string];
     limit := 20;
     tokenBudget := 800;
     semanticWeight := 0.6;
     activationWeight := 0.3;
     domainWeight := 0.1 |}.

(** What the examples show of a returned item. *)
Definition shown (r : retrieved) : string * option string * bool :=
  (id (entry r), status (entry r), spreadingActivation r).

(** A candidate of the session extractor whose id is that of a row. *)
Definition candidate : Ingest.Session.atomic :=
  {| Ingest.Session.summary := "x";
     Ingest.Session.detail :=
       "I found that the SQLite journal was locked by another writer.";
     Ingest.Session.type := "discovery" |}.

Definition deprecated_twin : memory :=
  {| id := "infrastructure:session:78";
     title := Some "x"%string;
     detail := Some "The SQLite journal is never locked."%string;
     domain := Some "infrastructure"%string;
     pattern_type := Some "discovery"%string;
     activation := Some 0.5%float;
     retrieval_count := 1;
     last_retrieved := None;
     embedding := None;
     status := Some "deprecated"%string;
     superseded_by := Some "infrastructure:session:9"%string |}.

End Examples.

(** * Supervision and decay (lib/db.mjs) *)

Module Supervision.

(** The outcome of a write on the database that [openDb] opened, with
    [foreign_keys = ON]: done, or refused by a foreign key. *)
Inductive write (A : Type) : Type :=
  | Done (a : A)
  | ForeignKeyFailed.
Arguments Done {A} a.
Arguments ForeignKeyFailed {A}.

(** The row that [deprecateMemory] writes in place of [m]. *)
Definition deprecate_row (newId : string) (m : Db.memory) : Db.memory :=
  {| Db.id := Db.id m;
     Db.title := Db.title m;
     Db.detail := Db.detail m;
     Db.domain := Db.domain m;
     Db.pattern_type := Db.pattern_type m;
     Db.activation := Db.activation m;
     Db.retrieval_count := Db.retrieval_count m;
     Db.last_retrieved := Db.last_retrieved m;
     Db.embedding := Db.embedding m;
     Db.status := Some "deprecated"%string;
     Db.superseded_by := Some newId |}.

(** [deprecateMemory(db, oldId, newId)]:
    [UPDATE memories SET status = 'deprecated', superseded_by = ?
     WHERE id = ?], the table afterwards and [changes]. The column
    [superseded_by] references [memories(id)]: the statement is refused,
    and nothing is written, when it would make a row point to an id that
    no row has. *)
Definition deprecateMemory (rows : list Db.memory) (oldId newId : string)
  : write (list Db.memory * nat) :=
  if Db.id_exists rows oldId && negb (Db.id_exists rows newId)
  then ForeignKeyFailed
  else Done (List.map (fun m => if String.eqb (Db.id m) oldId
                                then deprecate_row newId m else m) rows,
             length (List.filter (fun m => String.eqb (Db.id m) oldId) rows)).

(** The row that [decayAll] writes in place of [m]. *)
Definition decay_row (factor : float) (m : Db.memory) : Db.memory :=
  {| Db.id := Db.id m;
     Db.title := Db.title m;
     Db.detail := Db.detail m;
     Db.domain := Db.domain m;
     Db.pattern_type := Db.pattern_type m;
     Db.activation := (fun a => (a * factor)%float) <$> Db.activation m;
     Db.retrieval_count := Db.retrieval_count m;
     Db.last_retrieved := Db.last_retrieved m;
     Db.embedding := Db.embedding m;
     Db.status := Db.status m;
     Db.superseded_by := Db.superseded_by m |}.

(** [decayAll(db, factor)]: [UPDATE memories SET activation =
    activation * ?], the table afterwards and [changes]. *)
Definition decayAll (rows : list Db.memory) (factor : float)
  : list Db.memory * nat :=
  (List.map (decay_row factor) rows, length rows).

(** The row that [UPDATE memories SET embedding = ? WHERE id = ?]
    writes in place of [m]. *)
Definition embed_row (blob : list byte) (m : Db.memory) : Db.memory :=
  {| Db.id := Db.id m;
     Db.title := Db.title m;
     Db.detail := Db.detail m;
     Db.domain := Db.domain m;
     Db.pattern_type := Db.pattern_type m;
     Db.activation := Db.activation m;
     Db.retrieval_count := Db.retrieval_count m;
     Db.last_retrieved := Db.last_retrieved m;
     Db.embedding := Some blob;
     Db.status := Db.status m;
     Db.superseded_by := Db.superseded_by m |}.

(** [stmts.setEmbedding], and the same statement as the ingesters
    prepare it. *)
Definition setEmbedding (rows : list Db.memory) (i : string)
    (blob : list byte) : list Db.memory :=
  List.map (fun m => if String.eqb (Db.id m) i then embed_row blob m else m)
           rows.

(** One write of the engine on [memories]: a bump, a decay, a
    deprecation, the extract loop of the atomizer, an embedding update,
    or an [upsertMemory] under an id none of whose rows is deprecated
    (a new id, as the ingesters insert it, in particular). *)
Inductive engine_write : list Db.memory -> list Db.memory -> Prop :=
  | write_bump (rows : list Db.memory) (ids : list string)
      (amount now : float) :
      engine_write rows (fst (Engine.bumpActivations rows ids amount now))
  | write_decay (rows : list Db.memory) (factor : float) :
      engine_write rows (fst (decayAll rows factor))
  | write_deprecate (rows rows' : list Db.memory) (oldId newId : string)
      (changes : nat) :
      deprecateMemory rows oldId newId = Done (rows', changes) ->
      engine_write rows rows'
  | write_extract (rows : list Db.memory) (now : float)
      (atomics : list Ingest.Atomize.atomic) :
      engine_write rows
        (fst (fst (Ingest.Atomize.extract_loop now atomics
                     (rows, 0%nat, 0%nat))))
  | write_embedding (rows : list Db.memory) (i : string) (blob : list byte) :
      engine_write rows (setEmbedding rows i blob)
  | write_upsert (rows : list Db.memory) (e : Db.memory) :
      (forall m, In m rows -> Db.id m = Db.id e ->
                 Db.is_deprecated m = false) ->
      engine_write rows (Ingest.upsertMemory rows e).

(** [INSERT OR IGNORE INTO memories] of the reasoning extractor: the row
    is added when no row has its id, and the statement does nothing
    otherwise. *)
Definition insertIgnore (rows : list Db.memory) (m : Db.memory)
  : list Db.memory :=
  if Db.id_exists rows (Db.id m) then rows else rows ++ [m].

(** The deprecation of the correction tool (src/unnamed/part_001), on a
    database opened without the foreign-key pragma: the UPDATE is never
    refused. *)
Definition deprecate_unchecked (rows : list Db.memory) (oldId newId : string)
  : list Db.memory :=
  List.map (fun m => if String.eqb (Db.id m) oldId
                     then deprecate_row newId m else m) rows.

(** One run of any statement of the repository that writes [memories]:
    a write of the engine, [upsertMemory] of any entry (INSERT OR
    REPLACE), the deprecation of the correction tool, or INSERT OR
    IGNORE. [UPDATE memories SET corrects = ?] writes a column that the
    rows of this development do not carry. No statement of the
    repository deletes from [memories]. *)
Inductive table_write : list Db.memory -> list Db.memory -> Prop :=
  | by_engine (rows rows' : list Db.memory) :
      engine_write rows rows' -> table_write rows rows'
  | by_upsert (rows : list Db.memory) (e : Db.memory) :
      table_write rows (Ingest.upsertMemory rows e)
  | by_tool (rows : list Db.memory) (oldId newId : string) :
      table_write rows (deprecate_unchecked rows oldId newId)
  | by_insert (rows : list Db.memory) (m : Db.memory) :
      table_write rows (insertIgnore rows m).

End Supervision.

(** * The host plugin (src/plugin/index.mjs) *)

Module Plugin.

(** [DOMAIN_KEYWORDS], in the order of [Object.entries]. *)
Definition DOMAIN_KEYWORDS : list (string * list string) :=
  [("peekaboo-web",
    ["peekaboo"; "safari"; "browser"; "webpage"; "website"; "click"; "form";
     "login"; "signup"; "checkbox"]);
   ("form-handling-patterns",
    ["form"; "signup"; "register"; "login"; "submit"; "checkbox"; "dropdown"]);
   ("comfyui",
    ["comfyui"; "dreamshaper"; "animatediff"; "stable diffusion"; "sd 1.5";
     "image gen"]);
   ("tiktok", ["tiktok"; "video"; "content"; "upload"; "viral"; "hook"]);
   ("tiktok-automation-workflow",
    ["tiktok pipeline"; "video pipeline"; "automation"; "n8n"]);
   ("tiktok-growth-patterns",
    ["growth"; "followers"; "algorithm"; "engagement"; "analytics"]);
   ("video-pipeline",
    ["ffmpeg"; "esrgan"; "upscale"; "ken burns"; "encode"; "mux"]);
   ("tts",
    ["qwen"; "tts"; "voice"; "speech"; "audio"; "voice clone"; "edge-tts"]);
   ("podcast", ["podcast"; "episode"; "spotify"; "rss"]);
   ("hebbian",
    ["hebbian"; "memory"; "activation"; "decay"; "co-occurrence"; "atomic";
     "pattern"]);
   ("openclaw",
    ["openclaw"; "gateway"; "session"; "spawn"; "sub-agent"; "config"]);
   ("inter-agent-communication",
    ["sub-agent"; "spawn"; "worker"; "captain"; "orchestrat"]);
   ("ollama", ["ollama"; "qwen2.5"; "local model"; "vision"]);
   ("deepseek", ["deepseek"; "research"; "reasoning"]);
   ("business",
    ["revenue"; "fiverr"; "etsy"; "listing"; "customer"; "pricing"; "monetiz";
     "patreon"]);
   ("infrastructure", ["n8n"; "cron"; "task"; "alert"; "database"; "sqlite"]);
   ("macos", ["applescript"; "keychain"; "finder"; "mail.app"; "cliclick"]);
   ("security",
    ["security"; "injection"; "permission"; "access"; "credential"]);
   ("model-routing",
    ["model"; "routing"; "sonnet"; "opus"; "claude"; "budget"]);
   ("trading", ["trading"; "alpaca"; "stock"; "portfolio"; "market"])]%string.

(** [TOOL_DOMAIN_MAP] *)
Definition TOOL_DOMAIN_MAP : list (string * list string) :=
  [("browser", ["peekaboo-web"]);
   ("web_fetch", ["peekaboo-web"]);
   ("web_search", ["tools"]);
   ("exec", ["infrastructure"; "macos"]);
   ("tts", ["tts"]);
   ("canvas", ["comfyui"; "video-pipeline"]);
   ("sessions_spawn", ["inter-agent-communication"]);
   ("subagents", ["inter-agent-communication"]);
   ("cron", ["infrastructure"]);
   ("message", ["openclaw"]);
   ("gateway", ["openclaw"])]%string.

(** The inner loop of [extractDomainHints] for one domain:
    [scored[domain] = (scored[domain] || 0) + (kw.includes(" ") ? 3 : 2)]
    for each keyword that the text includes; [None] while [scored] has
    no such key. *)
Definition keyword_step (lower : string) (acc : option float) (kw : string)
  : option float :=
  if JS.includes lower kw
  then Some (JS.opt_num_or acc 0
             + (if JS.includes kw " " then 3 else 2))%float
  else acc.

Definition domain_score (lower : string) (keywords : list string)
  : option float :=
  fold_left (keyword_step lower) keywords None.

(** [Object.entries(scored)]: the domains that scored, in table order. *)
Definition scored_domains (lower : string) : list (string * float) :=
  omap (fun dk => (fun sc => (fst dk, sc)) <$> domain_score lower (snd dk))
       DOMAIN_KEYWORDS.

(** [extractDomainHints(text)] *)
Definition extractDomainHints (text : string) : list string :=
  match text with
  | EmptyString => []
  | _ =>
      List.map fst
        (take 3 (JS.Array_sort Db.by_snd_desc
                   (scored_domains (JS.toLowerCase text))))
  end.

(** The part of the configuration that [before_agent_start] reads. *)
Record config : Type := {
  maxContextTokens : nat;
  maxEntries : nat;
  semanticWeight : float;
  activationWeight : float;
  domainWeight : float;
}.

(** The options that the handler passes to [retrieve]; [embedded] is
    what [getEmbedding] gave for the prompt, [None] when it failed. *)
Definition retrieve_options (cfg : config) (prompt : string)
    (embedded : option Vec.Float32Array) : Retrieval.options :=
  {| Retrieval.queryEmbedding := embedded;
     Retrieval.domains := extractDomainHints prompt;
     Retrieval.limit := maxEntries cfg;
     Retrieval.tokenBudget := maxContextTokens cfg;
     Retrieval.semanticWeight := semanticWeight cfg;
     Retrieval.activationWeight := activationWeight cfg;
     Retrieval.domainWeight := domainWeight cfg |}.

(** Step 4 of the handler: the ids that are bumped and wired. *)
Definition bump_ids (patterns : list Retrieval.retrieved) : list string :=
  take 20
    (List.map (fun e => Db.id (Retrieval.entry e))
       (List.filter
          (fun e => JS.truthy_str (Db.domain (Retrieval.entry e))
                    && JS.truthy_str (Db.pattern_type (Retrieval.entry e)))
          patterns)).

(** The writes of the handler after [retrieve] returned [patterns]:
    [bumpActivations(db, ids, 0.5)] then [wireCoOccurrences(db, ids)].
    An exception of the second is caught by the handler, after the
    first has been committed. *)
Definition record_retrieval (d : Db.db) (now : float)
    (patterns : list Retrieval.retrieved) : Db.db :=
  let ids := bump_ids patterns in
  if (0 <? length ids)%nat then
    let rows := fst (Engine.bumpActivations (Db.memories d) ids 0.5 now) in
    let bumped := {| Db.memories := rows;
                     Db.co_occurrences := Db.co_occurrences d |} in
    match Engine.wireCoOccurrences bumped ids with
    | Returned g => {| Db.memories := rows; Db.co_occurrences := g |}
    | Threw _ => bumped
    end
  else d.

(** [prompt.trim()] is empty. *)
Fixpoint blank (s : string) : bool :=
  match s with
  | EmptyString => true
  | String c rest => Ingest.Atomize.is_space c && blank rest
  end.

(** The handler of [before_agent_start] on an open database: the list
    it formats for the host and the database afterwards. [now] is the
    clock of [retrieve] and [later] the clock of the bump. *)
Definition before_agent_start (cfg : config) (d : Db.db) (now later : float)
    (prompt : string) (embedded : option Vec.Float32Array)
  : list Retrieval.retrieved * Db.db :=
  if blank prompt then ([], d)
  else
    match Retrieval.retrieve d now (retrieve_options cfg prompt embedded) with
    | Returned patterns =>
        if (length patterns =? 0)%nat then ([], d)
        else (patterns, record_retrieval d later patterns)
    | Threw _ => ([], d)
    end.

(** [SELECT id FROM memories WHERE domain = ? ORDER BY activation DESC
    LIMIT 5] *)
Definition top_of_domain (rows : list Db.memory) (dname : string)
  : list string :=
  List.map Db.id
    (take 5 (Db.order_by_activation_desc
               (List.filter (Db.domain_is dname) rows))).

(** The handler of [after_tool_call]: the table [memories] afterwards. *)
Definition after_tool_call (rows : list Db.memory) (now : float)
    (toolName : string) : list Db.memory :=
  match List.find (fun td => String.eqb (fst td) toolName) TOOL_DOMAIN_MAP with
  | Some td =>
      let ids := flat_map (top_of_domain rows) (snd td) in
      if (0 <? length ids)%nat
      then fst (Engine.bumpActivations rows ids 0.3 now)
      else rows
  | None => rows
  end.

End Plugin.

(** * Candidate deduplication and embedding requests *)

Module Extractor.
Import Ingest.Session.

(** [dedup(atomics)] of the session extractor: the key of a candidate
    is [a.summary.toLowerCase().slice(0, 50)], and the filter keeps a
    candidate when its key is not yet in the set [seen]. *)
Definition dedup_key (a : atomic) : string :=
  JS.slice0 50 (JS.toLowerCase (summary a)).

Fixpoint dedup_filter (seen : gset string) (atomics : list atomic)
  : list atomic :=
  match atomics with
  | [] => []
  | a :: rest =>
      let key := dedup_key a in
      if bool_decide (key ∈ seen) then dedup_filter seen rest
      else a :: dedup_filter ({[ key ]} ∪ seen) rest
  end.

Definition dedup (atomics : list atomic) : list atomic :=
  dedup_filter ∅ atomics.

(** The transaction [insertTx] of [main], on the table: for each kept
    entry, [upsertMemory], then the embedding that the semantic
    deduplication computed for it, when there is one. *)
Definition insert_entry (rows : list Db.memory)
    (e : Db.memory * option (list byte)) : list Db.memory :=
  let rows' := Ingest.upsertMemory rows (fst e) in
  match snd e with
  | Some blob => Supervision.setEmbedding rows' (Db.id (fst e)) blob
  | None => rows'
  end.

Definition insertTx (rows : list Db.memory)
    (entries : list (Db.memory * option (list byte))) : list Db.memory :=
  fold_left insert_entry entries rows.

End Extractor.

Module Embedding.

Definition batchSize : nat := 25.

(** The values of [i] in [for (let i = 0; i < n; i += batchSize)]. *)
Definition batch_starts (n : nat) : list nat :=
  List.map (fun k => (k * batchSize)%nat)
           (seq 0 ((n + (batchSize - 1)) / batchSize)).

(** [texts.slice(i, i + batchSize)] for each of them. *)
Definition batches (texts : list string) : list (list string) :=
  List.map (fun i => take batchSize (drop i texts))
           (batch_starts (length texts)).

(** [generateEmbeddings(texts)]. [httpPost batch] stands for the
    request to the embedding service and the conversion of each array
    of the answer; [None] is a request that is rejected, which rejects
    the whole call. *)
Definition generateEmbeddings
    (httpPost : list string -> option (list Vec.Float32Array))
    (texts : list string) : option (list Vec.Float32Array) :=
  fold_left (fun acc batch =>
               results ← acc;
               data ← httpPost batch;
               Some (results ++ data))
            (batches texts) (Some []).

End Embedding.

(** ** Vocabulary of the further properties *)

(** The domain under which the selection loop counts an item. *)
Definition dom_key (r : retrieved) : string :=
  JS.str_or (domain (entry r)) "general".

(** The items of a returned list that came from the ranked candidates
    and the items that the fill pass appended. *)
Definition scored_items (sel : list retrieved) : list retrieved :=
  List.filter (fun r => negb (spreadingActivation r)) sel.

Definition fill_items (sel : list retrieved) : list retrieved :=
  List.filter spreadingActivation sel.

(** The number of items of a list that are counted under a domain. *)
Definition domain_count (dom : string) (sel : list retrieved) : nat :=
  length (List.filter (fun r => String.eqb (dom_key r) dom) sel).

(** The object that the fill pass makes of a neighbour and its boost. *)
Definition as_fill_item (mb : memory * float) : retrieved :=
  {| entry := fst mb;
     score := (snd mb * 0.01)%float;
     semanticSim := None;
     spreadBoost := Some (snd mb);
     spreadingActivation := true |}.

(** The keys of [boosts]: distinct, and none of them an active id. *)
Definition boosts_ok (activeIds : list string) (boosts : list (string * float))
  : Prop :=
  NoDup (List.map fst boosts)
  /\ forall k, In k (List.map fst boosts) -> ~ In k activeIds.

(** The weight of an edge after one more joint retrieval. *)
Definition incr (w : option float) : option float :=
  Some match w with
       | Some w0 => (w0 + 1)%float
       | None => 1%float
       end.

(** Membership of an id in a list of ids. *)
Definition listed (i : string) (ids : list string) : bool :=
  existsb (String.eqb i) ids.

(** The domain under which [wireCoOccurrences] groups a listed id. *)
Definition group_key (rows : list memory) (i : string) : option string :=
  (fun mem => JS.str_or (domain mem) "general") <$> getMemory rows i.

(** The pairs that [wireCoOccurrences] wires: two different listed ids
    of rows of the same domain. *)
Definition wired_pair (rows : list memory) (ids : list string)
    (a b : string) : bool :=
  negb (String.eqb a b) && listed a ids && listed b ids
  && match group_key rows a, group_key rows b with
     | Some ka, Some kb => String.eqb ka kb
     | _, _ => false
     end.

(** Two ids stand in one of the groups. *)
Definition same_group (groups : list (string * list string)) (a b : string)
  : bool :=
  existsb (fun grp => listed a (snd grp) && listed b (snd grp)) groups.

(** The groups that the first loop of [wireCoOccurrences] has built
    from the ids [seen]: distinct domains, each group holding ids of
    rows of its domain, and all the groups together holding the ids of
    [seen] that have a row, each as often as it is listed. *)
Definition groups_of (rows : list memory) (seen : list string)
    (groups : list (string * list string)) : Prop :=
  NoDup (List.map fst groups)
  /\ (forall grp i, In grp groups -> In i (snd grp) ->
        group_key rows i = Some (fst grp))
  /\ Permutation (concat (List.map snd groups))
                 (List.filter (id_exists rows) seen).

(** An id that is hidden from retrieval: it has a row, and every row
    that has it is deprecated. *)
Definition hidden (rows : list memory) (i : string) : Prop :=
  id_exists rows i = true
  /\ forall m, In m rows -> id m = i -> is_deprecated m = true.

(** A bump, as the specification words it: [activation += amount] (a
    null activation stays null, as in SQL), [retrieval_count += 1],
    [last_retrieved = now], and no other column changes. *)
Definition bumped (amount now : float) (m m' : memory) : Prop :=
  activation m' = (fun a => (a + amount)%float) <$> activation m
  /\ retrieval_count m' = (retrieval_count m + 1)%Z
  /\ last_retrieved m' = Some now
  /\ id m' = id m
  /\ title m' = title m
  /\ detail m' = detail m
  /\ domain m' = domain m
  /\ pattern_type m' = pattern_type m
  /\ embedding m' = embedding m
  /\ status m' = status m
  /\ superseded_by m' = superseded_by m.

(** [k] bumps in a row: the amount is added [k] times, one addition
    after the other, the count grows by [k], and [last_retrieved] is
    set when [k] is not 0. *)
Definition bumped_times (k : nat) (amount now : float) (m m' : memory)
  : Prop :=
  activation m'
  = (fun a => Nat.iter k (fun x => (x + amount)%float) a) <$> activation m
  /\ retrieval_count m' = (retrieval_count m + Z.of_nat k)%Z
  /\ last_retrieved m' = (if (0 <? k)%nat then Some now else last_retrieved m)
  /\ id m' = id m
  /\ title m' = title m
  /\ detail m' = detail m
  /\ domain m' = domain m
  /\ pattern_type m' = pattern_type m
  /\ embedding m' = embedding m
  /\ status m' = status m
  /\ superseded_by m' = superseded_by m.

(** No activation of the table is NaN: SQLite stores a NaN as NULL. *)
Definition no_nan_activation (rows : list memory) : Prop :=
  forall m a, In m rows -> activation m = Some a -> PrimFloat.is_nan a = false.

(** [top] is a choice of the [n] rows of highest activation of [pool]
    (all of them when there are fewer): no row of [pool] that is left
    out has a larger activation than a row of [top], in the order of
    SQLite, where NULL is below every number. *)
Definition highest (n : nat) (pool top : list memory) : Prop :=
  exists rest,
    Permutation (top ++ rest) pool
    /\ length top = Nat.min n (length pool)
    /\ forall m m', In m top -> In m' rest ->
          sql_lt (activation m) (activation m') = false.

(** The place of a number in the order of [SFcompare]. *)
Definition sf_key (x : spec_float) : Z * Z * Z :=
  match x with
  | S754_zero _ => (0, 0, 0)%Z
  | S754_infinity s => (if s then (-2) else 2, 0, 0)%Z
  | S754_nan => (0, 0, 0)%Z
  | S754_finite s m e => if s then (-1, - e, - Z.pos m)%Z else (1, e, Z.pos m)%Z
  end.

Definition key_lt (k k' : Z * Z * Z) : Prop :=
  let '(a, b, c) := k in
  let '(a', b', c') := k' in
  (a < a' \/ (a = a' /\ (b < b' \/ (b = b' /\ c < c'))))%Z.

(** The characters of the slug of an atomizer id: [a-z], [0-9], [-]. *)
Definition slug_char (c : ascii) : bool :=
  let n := nat_of_ascii c in
  (((97 <=? n) && (n <=? 122)) || ((48 <=? n) && (n <=? 57))
   || (n =? 45))%nat.

Fixpoint all_chars (p : ascii -> bool) (s : string) : bool :=
  match s with
  | EmptyString => true
  | String c rest => p c && all_chars p rest
  end.

(** The polynomial of base 31 over the code units of a text, computed
    in the integers, without any wrap-around. *)
Fixpoint poly31 (content : string) (h : Z) : Z :=
  match content with
  | EmptyString => h
  | String c rest => poly31 rest (31 * h + Z.of_nat (nat_of_ascii c))
  end.

(** The number of floats that the blob of a row holds. *)
Definition stored_dimension (m : memory) : option nat :=
  (fun bytes => (length bytes / 4)%nat) <$> embedding m.

(** * Properties *)

(** ** Decoding a blob read from the store never throws *)

Lemma decode_f32_length (bs : list byte) :
  length (Vec.decode_f32 bs) = (length bs / 4)%nat.
Proof.
  revert bs. fix IH 1. intros bs.
  destruct bs as [|b0 [|b1 [|b2 [|b3 rest]]]]; try reflexivity.
  cbn [Vec.decode_f32 length]. rewrite IH.
  replace (S (S (S (S (length rest))))) with (1 * 4 + length rest)%nat by lia.
  rewrite Nat.div_add_l by lia. reflexivity.
Qed.

Lemma new_Float32Array_column (bytes : list byte) :
  Vec.new_Float32Array bytes 0 (length bytes)
  = Returned (Vec.decode_f32 (take (4 * (length bytes / 4)) bytes)).
Proof.
  unfold Vec.new_Float32Array.
  change (0 mod 4 =? 0)%nat with true. cbn [negb].
  assert (H : (4 * (length bytes / 4) <= length bytes)%nat)
    by (apply Nat.Div0.mul_div_le).
  destruct (Nat.ltb_spec (length bytes) (0 + 4 * (length bytes / 4))) as [Hlt|_].
  - lia.
  - rewrite drop_0. reflexivity.
Qed.

Lemma blobToEmbedding_column (bytes : list byte) :
  Vec.blobToEmbedding (Some (Vec.column_blob bytes))
  = Returned (Some (Vec.decode_f32 (take (4 * (length bytes / 4)) bytes))).
Proof.
  unfold Vec.blobToEmbedding, Vec.column_blob. cbn [Vec.buffer Vec.byteOffset Vec.byteLength].
  rewrite new_Float32Array_column. reflexivity.
Qed.

(** ** The scoring loop *)

Lemma scoreEntry_returns (o : options) (now maxAct : float) (e : memory) :
  exists r, scoreEntry o now maxAct e = Returned r
    /\ forall x, r = Some x -> scored_ok o [e] x.
Proof.
  unfold scoreEntry.
  destruct (queryEmbedding o) as [q|] eqn:Hq.
  - destruct (embedding e) as [bytes|] eqn:He.
    + rewrite blobToEmbedding_column. unfold has_query. rewrite Hq. cbn.
      destruct (_ <? 0.3)%float eqn:Hfloor.
      * eexists; split; [reflexivity|]. discriminate.
      * eexists; split; [reflexivity|].
        intros x [= <-]. split; [left; reflexivity|]. split; [reflexivity|].
        cbn [entry semanticSim].
        intros q' Hq'. rewrite Hq in Hq'. injection Hq' as <-.
        unfold similarity_to. rewrite He. cbn [fmap option_fmap option_map].
        rewrite blobToEmbedding_column. split; [reflexivity|exact Hfloor].
    + unfold has_query. rewrite Hq. cbn.
      eexists; split; [reflexivity|]. discriminate.
  - unfold has_query. rewrite Hq. cbn.
    eexists; split; [reflexivity|].
    intros x [= <-]. split; [left; reflexivity|]. split; [reflexivity|].
    intros q' Hq'. rewrite Hq in Hq'. discriminate.
Qed.

Lemma scored_ok_weaken (o : options) (l1 l2 : list memory) (r : retrieved) :
  (forall m, In m l1 -> In m l2) -> scored_ok o l1 r -> scored_ok o l2 r.
Proof. intros Hsub (Hin & Hs & Hq). split; [|split]; auto. Qed.

Lemma scoreCandidates_returns (o : options) (now maxAct : float)
    (candidates : list memory) :
  exists scored, scoreCandidates o now maxAct candidates = Returned scored
    /\ Forall (scored_ok o candidates) scored.
Proof.
  induction candidates as [|e rest IH].
  - exists []. split; [reflexivity|constructor].
  - destruct IH as (scored & Hs & Hall).
    destruct (scoreEntry_returns o now maxAct e) as (r & Hr & Hok).
    cbn [scoreCandidates]. rewrite Hr. cbn. rewrite Hs. cbn.
    eexists; split; [reflexivity|].
    assert (Hrest : Forall (scored_ok o (e :: rest)) scored).
    { eapply List.Forall_impl; [|exact Hall]. intros r0.
      apply scored_ok_weaken. intros m Hm; right; exact Hm. }
    destruct r as [x|]; [|exact Hrest].
    constructor; [|exact Hrest].
    eapply scored_ok_weaken; [|apply Hok; reflexivity].
    intros m [<-|[]]; left; reflexivity.
Qed.

(** ** Sorting keeps the elements *)

Lemma sort_insert_In {A} (cmp : A -> A -> float) (x y : A) (l : list A) :
  In y (JS.sort_insert cmp x l) <-> y = x \/ In y l.
Proof.
  induction l as [|z l IH]; cbn.
  - intuition congruence.
  - destruct (0 <? cmp x z)%float; cbn; rewrite ?IH; intuition congruence.
Qed.

Lemma Array_sort_In {A} (cmp : A -> A -> float) (y : A) (l : list A) :
  In y (JS.Array_sort cmp l) <-> In y l.
Proof.
  unfold JS.Array_sort. induction l as [|x l IH]; cbn; [tauto|].
  rewrite sort_insert_In, IH. intuition congruence.
Qed.

Lemma Array_sort_Forall {A} (P : A -> Prop) (cmp : A -> A -> float) (l : list A) :
  Forall P l -> Forall P (JS.Array_sort cmp l).
Proof.
  rewrite !List.Forall_forall. intros H x Hx. apply H.
  apply Array_sort_In in Hx. exact Hx.
Qed.

(** ** The selection loop and the fill pass *)

Lemma total_chars_snoc (sel : list retrieved) (x : retrieved) :
  total_chars (sel ++ [x]) = (total_chars sel + entryChars (entry x))%nat.
Proof.
  induction sel as [|y sel IH]; cbn; [lia|].
  fold (total_chars (sel ++ [x])). fold (total_chars sel). lia.
Qed.

Lemma entryChars_ge_20 (e : memory) : (20 <= entryChars e)%nat.
Proof. unfold entryChars. lia. Qed.

Lemma select_loop_budget (o : options) (B : nat) (scored : list retrieved) :
  forall st,
    within_budget B (selected st) (charsUsed st) ->
    within_budget B (selected (select_loop o B scored st))
                    (charsUsed (select_loop o B scored st)).
Proof.
  induction scored as [|e rest IH]; intros st Hst; cbn [select_loop]; [exact Hst|].
  destruct ((B <? charsUsed st + entryChars (entry e))%nat
            && (0 <? length (selected st))%nat) eqn:Hbreak; [exact Hst|].
  destruct (3 <=? default 0%nat (seenDomains st !! _))%nat; [apply IH; exact Hst|].
  set (st' := {| selected := selected st ++ [e];
                 charsUsed := (charsUsed st + entryChars (entry e))%nat;
                 seenDomains := _ |}).
  assert (Hst' : within_budget B (selected st') (charsUsed st')).
  { destruct Hst as (Hsum & Hcase). subst st'. cbn [selected charsUsed]. split.
    - rewrite total_chars_snoc. lia.
    - apply andb_false_iff in Hbreak.
      destruct (selected st) as [|y sel] eqn:Hsel.
      + cbn in Hsum. rewrite Hsum. cbn [app].
        destruct (Nat.le_gt_cases (0 + entryChars (entry e)) B) as [Hle|Hgt].
        * right; left. exact Hle.
        * right; right. exists e. split; [reflexivity|lia].
      + destruct Hbreak as [Hb|Hb]; [|cbn in Hb; discriminate].
        apply Nat.ltb_ge in Hb. right; left. exact Hb. }
  destruct (limit o <=? length (selected st'))%nat; [exact Hst'|].
  apply IH. exact Hst'.
Qed.

Lemma fill_loop_budget (B : nat) (related : list (memory * float)) :
  forall sel used,
    used = total_chars sel ->
    ((used <= B)%nat \/ exists x, sel = [x] /\ (B < entryChars (entry x))%nat) ->
    (total_chars (fill_loop B related sel used) <= B)%nat
    \/ exists x, fill_loop B related sel used = [x]
                 /\ (B < entryChars (entry x))%nat.
Proof.
  induction related as [|[mem boost] rest IH]; intros sel used Hsum Hcase;
    cbn [fill_loop].
  - destruct Hcase as [Hle|Hx]; [left; lia|right; exact Hx].
  - destruct (Nat.ltb_spec B (used + entryChars mem)) as [Hover|Hfits].
    + destruct Hcase as [Hle|Hx]; [left; lia|right; exact Hx].
    + apply IH.
      * rewrite total_chars_snoc. cbn [entry]. lia.
      * left. exact Hfits.
Qed.

Lemma spread_fill_budget (d : db) (B : nat) (st : selection) :
  within_budget B (selected st) (charsUsed st) ->
  (total_chars (spread_fill d B st) <= B)%nat
  \/ exists x, spread_fill d B st = [x] /\ (B < entryChars (entry x))%nat.
Proof.
  intros (Hsum & Hcase). unfold spread_fill.
  destruct (selected st) as [|y sel] eqn:Hsel.
  - rewrite andb_false_r. left. cbn. lia.
  - destruct (_ && _).
    + apply fill_loop_budget; [exact Hsum|].
      destruct Hcase as [Hnil|[Hle|Hx]]; [discriminate|left; exact Hle|right; exact Hx].
    + destruct Hcase as [Hnil|[Hle|Hx]]; [discriminate|left; lia|right; exact Hx].
Qed.

(** Every entry that the selection loop adds comes from the ranked list. *)
Lemma select_loop_Forall (P : retrieved -> Prop) (o : options) (B : nat)
    (scored : list retrieved) :
  Forall P scored ->
  forall st, Forall P (selected st) ->
             Forall P (selected (select_loop o B scored st)).
Proof.
  induction 1 as [|e rest He Hrest IH]; intros st Hst; cbn [select_loop];
    [exact Hst|].
  destruct (_ && _); [exact Hst|].
  destruct (3 <=? _)%nat; [apply IH; exact Hst|].
  match goal with
  | |- context [if ?c then ?a else _] =>
      assert (Hst' : Forall P (selected a))
        by (cbn [selected]; apply Forall_app; split; [exact Hst|repeat constructor; exact He]);
      destruct c; [exact Hst'|apply IH; exact Hst']
  end.
Qed.

(** Every entry that the fill pass adds is marked as spread. *)
Lemma fill_loop_Forall (P : retrieved -> Prop) (B : nat)
    (related : list (memory * float)) :
  (forall r, spreadingActivation r = true -> P r) ->
  forall sel used, Forall P sel -> Forall P (fill_loop B related sel used).
Proof.
  intros Hspread.
  induction related as [|[mem boost] rest IH]; intros sel used Hsel;
    cbn [fill_loop]; [exact Hsel|].
  destruct (_ <? _)%nat; [exact Hsel|].
  apply IH. apply Forall_app; split; [exact Hsel|].
  repeat constructor. apply Hspread. reflexivity.
Qed.

(** [retrieve] returns, and its result is the list that the fill pass
    makes of a selection from the scored candidates. *)
Lemma retrieve_returns (d : db) (now : float) (o : options) :
  retrieve d now o = Returned []
  \/ exists scored,
       Forall (scored_ok o (selectCandidates (memories d) o)) scored
       /\ retrieve d now o
          = Returned (spread_fill d (tokenBudget o * 4)
                        (select_loop o (tokenBudget o * 4) scored
                           {| selected := []; charsUsed := 0;
                              seenDomains := ∅ |})).
Proof.
  unfold retrieve.
  destruct (length (selectCandidates (memories d) o) =? 0)%nat; [left; reflexivity|].
  right.
  destruct (scoreCandidates_returns o now
              (maxActivation (selectCandidates (memories d) o))
              (selectCandidates (memories d) o)) as (scored & Hs & Hall).
  rewrite Hs. cbn.
  exists (JS.Array_sort by_score_desc scored). split; [|reflexivity].
  apply Array_sort_Forall. exact Hall.
Qed.

(** C3. For every store and every invocation of [retrieve] with token
    budget [T], the call returns a list whose charge, the sum over its
    items of the length of [detail || title || ""] plus 20, is at most
    [T * 4], unless the list is the single item that was selected first
    and that item alone is charged more than [T * 4]. The items of the
    spreading-activation fill are counted. *)
Theorem retrieve_within_char_budget (d : db) (now : float) (o : options) :
  exists sel,
    retrieve d now o = Returned sel
    /\ ((total_chars sel <= tokenBudget o * 4)%nat
        \/ exists x, sel = [x]
                     /\ (tokenBudget o * 4 < entryChars (entry x))%nat).
Proof.
  destruct (retrieve_returns d now o) as [Hnil|(scored & _ & Hret)].
  - exists []. split; [exact Hnil|]. left. cbn. lia.
  - eexists. split; [exact Hret|].
    apply spread_fill_budget, select_loop_budget.
    split; [reflexivity|left; reflexivity].
Qed.

(** C4, as the code has it. When a query embedding is present, [retrieve]
    returns a list in which every item that is not marked as spread is a
    row of the store whose cosine similarity to the query, stored in
    [semanticSim], is not below 0.30, whatever the activation of the row.
    The items that the spreading-activation fill appends are not
    compared with the query. *)
Theorem retrieve_floor_on_scored_items (d : db) (now : float) (o : options)
    (q : Vec.Float32Array) :
  queryEmbedding o = Some q ->
  exists sel,
    retrieve d now o = Returned sel
    /\ forall r, In r sel -> spreadingActivation r = false ->
         In (entry r) (memories d)
         /\ semanticSim r = Some (similarity_to q (entry r))
         /\ (similarity_to q (entry r) <? 0.3)%float = false.
Proof.
  intros Hq.
  destruct (retrieve_returns d now o) as [Hnil|(scored & Hall & Hret)].
  - exists []. split; [exact Hnil|]. intros r [].
  - eexists. split; [exact Hret|].
    set (P := fun r : retrieved =>
                spreadingActivation r = false ->
                scored_ok o (selectCandidates (memories d) o) r).
    assert (Hsel : Forall P (spread_fill d (tokenBudget o * 4)
                      (select_loop o (tokenBudget o * 4) scored
                         {| selected := []; charsUsed := 0; seenDomains := ∅ |}))).
    { assert (Hloop : Forall P (selected (select_loop o (tokenBudget o * 4) scored
                         {| selected := []; charsUsed := 0; seenDomains := ∅ |}))).
      { apply select_loop_Forall; [|constructor].
        eapply List.Forall_impl; [|exact Hall]. intros r Hr _. exact Hr. }
      unfold spread_fill. destruct (_ && _); [|exact Hloop].
      apply fill_loop_Forall; [|exact Hloop].
      intros r Hr. unfold P. rewrite Hr. discriminate. }
    intros r Hin Hns. rewrite List.Forall_forall in Hsel.
    destruct (Hsel r Hin Hns) as (Hcand & _ & Hfloor).
    split; [|apply Hfloor; exact Hq].
    unfold selectCandidates in Hcand. rewrite Hq in Hcand.
    apply List.filter_In in Hcand. apply Hcand.
Qed.

(** ** The co-occurrence table stays symmetric *)

Lemma insertCoOcc_both_symmetric (g : gmap (string * string) float)
    (a b : string) :
  symmetric g -> symmetric (insertCoOcc b a 1 (insertCoOcc a b 1 g)).
Proof.
  intros Hs x y. unfold insertCoOcc. rewrite !lookup_insert.
  repeat case_decide; simplify_eq;
    try reflexivity; try (rewrite (Hs _ _); reflexivity);
    try apply Hs; congruence.
Qed.

Lemma wire_from_symmetric (a : string) (rest : list string) :
  forall g, symmetric g -> symmetric (wire_from a rest g).
Proof.
  unfold wire_from. induction rest as [|b rest IH]; intros g Hs; cbn [fold_left].
  - exact Hs.
  - apply IH, insertCoOcc_both_symmetric, Hs.
Qed.

Lemma wire_pairs_symmetric (domainIds : list string) :
  forall g, symmetric g -> symmetric (wire_pairs domainIds g).
Proof.
  induction domainIds as [|a rest IH]; intros g Hs; cbn [wire_pairs].
  - exact Hs.
  - apply IH, wire_from_symmetric, Hs.
Qed.

Lemma wire_groups_symmetric (groups : list (string * list string)) :
  forall g, symmetric g -> symmetric (wire_groups groups g).
Proof.
  unfold wire_groups.
  induction groups as [|grp groups IH]; intros g Hs; cbn [fold_left].
  - exact Hs.
  - apply IH. destruct (length (snd grp) <? 2)%nat; [exact Hs|].
    apply wire_pairs_symmetric, Hs.
Qed.

Lemma wireCoOccurrences_symmetric (d : db) (ids : list string)
    (g' : gmap (string * string) float) :
  symmetric (co_occurrences d) ->
  wireCoOccurrences d ids = Returned g' ->
  symmetric g'.
Proof.
  intros Hs. unfold wireCoOccurrences.
  destruct (groupByDomain (memories d) ids []) as [groups|e]; cbn.
  - intros [= <-]. apply wire_groups_symmetric, Hs.
  - discriminate.
Qed.

Lemma reachable_symmetric (g : gmap (string * string) float) :
  reachable g -> symmetric g.
Proof.
  induction 1 as [|rows ids g g' _ IH Hwire].
  - intros a b. rewrite !lookup_empty. reflexivity.
  - eapply wireCoOccurrences_symmetric; [|exact Hwire]. exact IH.
Qed.

(** C6. In every co-occurrence table that calls of [wireCoOccurrences]
    make of the empty table, an edge [(a, b)] of weight [w] has its
    reverse [(b, a)], of the same weight [w]. *)
Theorem co_occurrence_edges_come_in_pairs
    (g : gmap (string * string) float) (a b : string) (w : float) :
  reachable g ->
  g !! (a, b) = Some w ->
  g !! (b, a) = Some w.
Proof.
  intros Hreach Hab. rewrite <- (reachable_symmetric g Hreach a b). exact Hab.
Qed.

Lemma co_occurrence_edges_come_in_pairs_witness :
  reachable Examples.wired
  /\ Examples.wired !! ("tts:atomic:a", "tts:atomic:b")%string = Some 1%float
  /\ Examples.wired !! ("tts:atomic:b", "tts:atomic:a")%string = Some 1%float.
Proof.
  assert (Hreach : reachable Examples.wired).
  { apply (reachable_wire [Examples.current; Examples.close]
             ["tts:atomic:a"; "tts:atomic:b"]%string ∅).
    - apply reachable_empty.
    - vm_compute. reflexivity. }
  assert (Hab : Examples.wired !! ("tts:atomic:a", "tts:atomic:b")%string
                = Some 1%float) by (vm_compute; reflexivity).
  split; [exact Hreach|]. split; [exact Hab|].
  apply (co_occurrence_edges_come_in_pairs Examples.wired
           "tts:atomic:a" "tts:atomic:b" 1%float Hreach Hab).
Defined.

(** ** Bumping activations *)

Lemma iter_bump_row_id (amount now : float) (k : nat) (m : memory) :
  id (Nat.iter k (bump_row amount now) m) = id m.
Proof. induction k as [|k IH]; cbn; [reflexivity|exact IH]. Qed.

Lemma id_exists_In (rows : list memory) (i : string) :
  id_exists rows i = true <-> exists m, In m rows /\ id m = i.
Proof.
  unfold id_exists, getMemory. split.
  - destruct (List.find _ rows) as [m|] eqn:Hfind; [|discriminate].
    intros _. apply List.find_some in Hfind. destruct Hfind as [Hin Heq].
    apply String.eqb_eq in Heq. exists m. split; assumption.
  - intros (m & Hin & Heq).
    destruct (List.find _ rows) as [m'|] eqn:Hfind; [reflexivity|].
    apply (List.find_none _ _ Hfind) in Hin.
    apply String.eqb_neq in Hin. contradiction.
Qed.

Lemma changes_positive (rows : list memory) (i : string) :
  (0 <? length (List.filter (fun m => String.eqb (id m) i) rows))%nat
  = id_exists rows i.
Proof.
  unfold id_exists, getMemory.
  induction rows as [|m rows IH]; [reflexivity|].
  cbn [List.filter List.find]. destruct (String.eqb (id m) i); [reflexivity|exact IH].
Qed.

Lemma id_exists_map (f : memory -> memory) (rows : list memory) (i : string) :
  (forall m, id (f m) = id m) ->
  id_exists (List.map f rows) i = id_exists rows i.
Proof.
  intros Hf. unfold id_exists, getMemory.
  induction rows as [|m rows IH]; [reflexivity|].
  cbn [List.map List.find]. rewrite Hf.
  destruct (String.eqb (id m) i); [reflexivity|exact IH].
Qed.

Lemma bump_fold (amount now : float) (ids : list string) :
  forall rows n,
    fold_left (bump_step amount now) ids (rows, n)
    = (List.map (fun m => Nat.iter (count_occ String.string_dec ids (id m))
                                   (bump_row amount now) m) rows,
       (n + length (List.filter (id_exists rows) ids))%nat).
Proof.
  induction ids as [|i ids IH]; intros rows n.
  - cbn. rewrite List.map_id. f_equal. lia.
  - cbn [fold_left]. unfold bump_step at 2, run_bumpActivation. cbn [fst snd].
    rewrite IH. f_equal.
    + rewrite List.map_map. apply List.map_ext. intros m.
      destruct (String.eqb_spec (id m) i) as [Heq|Hne].
      * cbn [id bump_row]. rewrite count_occ_cons_eq by (symmetry; exact Heq).
        rewrite Nat.iter_succ_r. reflexivity.
      * rewrite count_occ_cons_neq by (intros Heq; apply Hne; symmetry; exact Heq).
        reflexivity.
    + rewrite changes_positive. cbn [List.filter].
      rewrite (List.filter_ext (id_exists (List.map _ rows)) (id_exists rows)).
      * destruct (id_exists rows i); cbn [length]; lia.
      * intros j. apply id_exists_map. intros m.
        destruct (String.eqb (id m) i); reflexivity.
Qed.

Lemma count_occ_NoDup_existsb (ids : list string) (i : string) :
  NoDup ids ->
  count_occ String.string_dec ids i
  = if existsb (String.eqb i) ids then 1%nat else 0%nat.
Proof.
  induction 1 as [|j ids Hnotin _ IH]; [reflexivity|].
  cbn [existsb]. destruct (String.eqb_spec i j) as [->|Hne].
  - rewrite count_occ_cons_eq by reflexivity. cbn [orb].
    f_equal. apply count_occ_not_In. rewrite <- list_elem_of_In. exact Hnotin.
  - rewrite count_occ_cons_neq by congruence. cbn [orb]. exact IH.
Qed.

(** The effect of bumps, column by column. *)
Lemma iter_bump_row_effect (amount now : float) (k : nat) (m : memory) :
  bumped_times k amount now m (Nat.iter k (bump_row amount now) m).
Proof.
  unfold bumped_times. induction k as [|k IH].
  - cbn. destruct (activation m); repeat split; try reflexivity; lia.
  - destruct IH as (Ha & Hc & _ & Hrest).
    rewrite !Nat.iter_succ.
    cbn [bump_row activation retrieval_count last_retrieved id title detail
         domain pattern_type embedding status superseded_by].
    split; [|split; [|split; [reflexivity|exact Hrest]]].
    + rewrite Ha. destruct (activation m); reflexivity.
    + rewrite Hc. lia.
Qed.

Lemma bump_row_bumped (amount now : float) (m : memory) :
  bumped amount now m (bump_row amount now m).
Proof. unfold bumped. cbn. repeat split. Qed.

Lemma Forall2_map_self {A B} (P : A -> B -> Prop) (f : A -> B) (l : list A) :
  (forall x, In x l -> P x (f x)) -> Forall2 P l (List.map f l).
Proof.
  induction l as [|x l IH]; intros H; cbn; constructor.
  - apply H. left. reflexivity.
  - apply IH. intros y Hy. apply H. right. exact Hy.
Qed.

Lemma Forall2_same {A} (P : A -> A -> Prop) (l : list A) :
  (forall x, In x l -> P x x) -> Forall2 P l l.
Proof.
  induction l as [|x l IH]; intros H; constructor.
  - apply H. left. reflexivity.
  - apply IH. intros y Hy. apply H. right. exact Hy.
Qed.

(** C5, as the code has it. [bumpActivations] runs the UPDATE once for
    each element of the list, in one transaction. A row whose id occurs
    [k] times in the list ends with the amount added to its activation
    [k] times (a null activation stays null), its retrieval_count
    increased by [k], and, when [k] is not 0, last_retrieved = now; no
    other column changes, and a row whose id is not listed is unchanged.
    The count returned is the number of elements of the list whose id
    is the id of a row. When no id is listed twice, every listed row
    ends with activation + amount, retrieval_count + 1 and
    last_retrieved = now. *)
Theorem bumpActivations_once_per_occurrence (rows : list memory)
    (ids : list string) (amount now : float) :
  Forall2 (fun m m' =>
             bumped_times (count_occ String.string_dec ids (id m))
                          amount now m m'
             /\ (~ In (id m) ids -> m' = m))
          rows (fst (bumpActivations rows ids amount now))
  /\ snd (bumpActivations rows ids amount now)
     = length (List.filter (id_exists rows) ids)
  /\ (NoDup ids ->
      Forall2 (fun m m' => if existsb (String.eqb (id m)) ids
                           then bumped amount now m m' else m' = m)
              rows (fst (bumpActivations rows ids amount now))).
Proof.
  unfold bumpActivations. rewrite bump_fold. cbn [fst snd].
  split; [|split; [reflexivity|]].
  - apply Forall2_map_self. intros m _. split.
    + apply iter_bump_row_effect.
    + intros Hout. rewrite (proj1 (count_occ_not_In _ _ _) Hout). reflexivity.
  - intros Hnodup. apply Forall2_map_self. intros m _.
    rewrite (count_occ_NoDup_existsb ids (id m) Hnodup).
    destruct (existsb _ ids); [apply bump_row_bumped|reflexivity].
Qed.

Lemma bumpActivations_once_per_occurrence_witness :
  NoDup ["tts:atomic:a"; "tts:atomic:zz"]%string
  /\ Forall2 (fun m m' => if existsb (String.eqb (id m))
                               ["tts:atomic:a"; "tts:atomic:zz"]%string
                          then bumped 0.5 1000 m m' else m' = m)
       [Examples.current; Examples.plain]
       (fst (bumpActivations [Examples.current; Examples.plain]
               ["tts:atomic:a"; "tts:atomic:zz"]%string 0.5 1000))
  /\ activation <$> fst (bumpActivations [Examples.current; Examples.plain]
                           ["tts:atomic:a"; "tts:atomic:zz"]%string 0.5 1000)
     = [Some 1.5%float; Some 1%float]
  /\ retrieval_count <$> fst (bumpActivations [Examples.current; Examples.plain]
                           ["tts:atomic:a"; "tts:atomic:zz"]%string 0.5 1000)
     = [2%Z; 1%Z]
  /\ last_retrieved <$> fst (bumpActivations [Examples.current; Examples.plain]
                           ["tts:atomic:a"; "tts:atomic:zz"]%string 0.5 1000)
     = [Some 1000%float; None]
  /\ snd (bumpActivations [Examples.current; Examples.plain]
            ["tts:atomic:a"; "tts:atomic:zz"]%string 0.5 1000) = 1%nat.
Proof.
  assert (Hnodup : NoDup ["tts:atomic:a"; "tts:atomic:zz"]%string).
  { apply NoDup_cons_2; [|apply NoDup_singleton].
    rewrite list_elem_of_In. intros [Heq|[]]. discriminate Heq. }
  split; [exact Hnodup|].
  destruct (bumpActivations_once_per_occurrence
              [Examples.current; Examples.plain]
              ["tts:atomic:a"; "tts:atomic:zz"]%string 0.5 1000)
    as (_ & Hcount & Honce).
  split; [exact (Honce Hnodup)|].
  split; [vm_compute; reflexivity|]. split; [vm_compute; reflexivity|].
  split; [vm_compute; reflexivity|]. rewrite Hcount. reflexivity.
Defined.

(** C5 fails on a list that names a row twice: the row is bumped twice
    and counted twice. *)
Lemma bumpActivations_listed_twice :
  let result := bumpActivations [Examples.current]
                  ["tts:atomic:a"; "tts:atomic:a"]%string 0.5 1000 in
  (activation <$> fst result) = [Some 2%float]
  /\ (retrieval_count <$> fst result) = [3%Z]
  /\ snd result = 2%nat
  /\ ~ bumped_once [Examples.current]
         ["tts:atomic:a"; "tts:atomic:a"]%string 0.5 1000.
Proof.
  split; [vm_compute; reflexivity|].
  split; [vm_compute; reflexivity|].
  split; [vm_compute; reflexivity|].
  intros [_ Hcount]. vm_compute in Hcount. discriminate Hcount.
Qed.

(** ** Normalised activation *)

(** C7 at a failing input: for the single candidate of activation -1,
    [p95] is -1, [maxActivation] is [max(-1, 1) = 1], and the normalised
    activation is [min(-1 / 1, 1) = -1], below 0: [Math.min] clips at 1
    only. *)
Theorem normAct_below_zero :
  p95 [Examples.negative] = (-1)%float
  /\ maxActivation [Examples.negative] = 1%float
  /\ normAct (maxActivation [Examples.negative]) Examples.negative = (-1)%float
  /\ (normAct (maxActivation [Examples.negative]) Examples.negative <? 0)%float
     = true.
Proof. repeat split; vm_compute; reflexivity. Qed.

(** ** Candidate selection *)

Lemma SFcompare_Lt_Gt (x y : spec_float) :
  SFcompare x y = Some Lt -> SFcompare y x = Some Gt.
Proof.
  destruct x as [sx|sx| |sx mx ex], y as [sy|sy| |sy my ey]; cbn;
    try discriminate;
    try (destruct sx; (discriminate || reflexivity));
    try (destruct sy; (discriminate || reflexivity)).
  - destruct sx, sy; (discriminate || reflexivity).
  - change (PosDef.Pos.compare_cont Eq mx my) with (mx ?= my)%positive.
    change (PosDef.Pos.compare_cont Eq my mx) with (my ?= mx)%positive.
    rewrite (Z.compare_antisym ex ey), (Pos.compare_antisym mx my).
    destruct sx, sy; try (discriminate || reflexivity);
      destruct (ex ?= ey)%Z; cbn; try (discriminate || reflexivity);
      destruct (mx ?= my)%positive; cbn; (discriminate || reflexivity).
Qed.

Lemma float_ltb_asym (a b : float) :
  (a <? b)%float = true -> (b <? a)%float = false.
Proof.
  rewrite !FloatAxioms.ltb_spec. unfold SFltb.
  destruct (SFcompare (Prim2SF a) (Prim2SF b)) as [[]|] eqn:E; try discriminate.
  intros _. rewrite (SFcompare_Lt_Gt _ _ E). reflexivity.
Qed.

Lemma sql_lt_asym (x y : option float) :
  sql_lt x y = true -> sql_lt y x = false.
Proof.
  destruct x as [a|], y as [b|]; cbn; try (discriminate || reflexivity).
  apply float_ltb_asym.
Qed.

Lemma insert_desc_In (x y : memory) (l : list memory) :
  In y (insert_desc x l) <-> y = x \/ In y l.
Proof.
  induction l as [|z l IH]; cbn.
  - intuition congruence.
  - destruct (sql_lt _ _); cbn; rewrite ?IH; intuition congruence.
Qed.

Lemma order_by_activation_desc_In (y : memory) (l : list memory) :
  In y (order_by_activation_desc l) <-> In y l.
Proof.
  unfold order_by_activation_desc. induction l as [|x l IH]; cbn; [tauto|].
  rewrite insert_desc_In, IH. intuition congruence.
Qed.

Lemma insert_desc_descending (x : memory) (l : list memory) :
  descending l -> descending (insert_desc x l).
Proof.
  induction l as [|y l IH]; intros Hl; cbn [insert_desc]; [exact I|].
  destruct (sql_lt (activation x) (activation y)) eqn:Hxy.
  - specialize (IH (match l return descending (y :: l) -> descending l with
                    | [] => fun _ => I
                    | _ :: _ => fun H => proj2 H
                    end Hl)).
    destruct l as [|z l]; cbn [insert_desc] in *.
    + split; [apply sql_lt_asym, Hxy|exact I].
    + destruct Hl as [Hyz Hl].
      destruct (sql_lt (activation x) (activation z)).
      * split; [exact Hyz|exact IH].
      * split; [apply sql_lt_asym, Hxy|exact IH].
  - split; [exact Hxy|exact Hl].
Qed.

Lemma order_by_activation_desc_descending (l : list memory) :
  descending (order_by_activation_desc l).
Proof.
  unfold order_by_activation_desc.
  induction l as [|x l IH]; [exact I|]. cbn [fold_right].
  apply insert_desc_descending, IH.
Qed.

Lemma domainQuery_In (rows : list memory) (d : string) (m : memory) :
  In m (domainQuery rows d)
  <-> In m rows /\ is_active m = true /\ domain m = Some d.
Proof.
  unfold domainQuery. rewrite order_by_activation_desc_In, List.filter_In.
  rewrite andb_true_iff. unfold domain_is.
  split.
  - intros (Hin & Hdom & Hact). repeat split; try assumption.
    destruct (domain m) as [s|]; [|discriminate].
    apply String.eqb_eq in Hdom. congruence.
  - intros (Hin & Hact & Hdom). rewrite Hdom, String.eqb_refl. auto.
Qed.

Lemma scoreCandidates_without_query (o : options) (now maxAct : float)
    (candidates : list memory) :
  queryEmbedding o = None ->
  exists scored,
    scoreCandidates o now maxAct candidates = Returned scored
    /\ List.map entry scored = candidates.
Proof.
  intros Hq. induction candidates as [|e rest (scored & Hs & Hmap)].
  - exists []. split; reflexivity.
  - cbn [scoreCandidates]. unfold scoreEntry, has_query. rewrite Hq. cbn.
    rewrite Hs. cbn. eexists. split; [reflexivity|].
    cbn [List.map entry]. rewrite Hmap. reflexivity.
Qed.

(** C8, as the code has it. With domain hints and no query embedding
    (the embedding service failed), the candidates are the domain-hint
    path: for each hint in turn, the active rows of that domain in
    descending order of activation; the semantic floor excludes none of
    them, each one is scored. With a query embedding, the candidates are
    the active rows that have an embedding: when no row has one, there is
    no candidate and [retrieve] returns the empty list, hints or not. *)
Theorem domain_hints_used_without_query_embedding :
  (forall rows o,
     queryEmbedding o = None ->
     domains o <> [] ->
     selectCandidates rows o = flat_map (domainQuery rows) (domains o)
     /\ (forall m, In m (selectCandidates rows o)
                   <-> In m rows /\ is_active m = true
                       /\ exists d, In d (domains o) /\ domain m = Some d)
     /\ (forall d, descending (domainQuery rows d))
     /\ (forall now maxAct,
           exists scored,
             scoreCandidates o now maxAct (selectCandidates rows o)
             = Returned scored
             /\ List.map entry scored = selectCandidates rows o))
  /\ (forall d now o q,
        Forall (fun m => embedding m = None) (memories d) ->
        queryEmbedding o = Some q ->
        selectCandidates (memories d) o = []
        /\ retrieve d now o = Returned []).
Proof.
  split.
  - intros rows o Hq Hdom.
    assert (Hsel : selectCandidates rows o
                   = flat_map (domainQuery rows) (domains o)).
    { unfold selectCandidates. rewrite Hq.
      destruct (domains o) as [|d ds]; [contradiction|reflexivity]. }
    split; [exact Hsel|]. split; [|split].
    + intros m. rewrite Hsel, List.in_flat_map. split.
      * intros (d & Hd & Hm). apply domainQuery_In in Hm.
        destruct Hm as (Hin & Hact & Hdm). eauto 6.
      * intros (Hin & Hact & d & Hd & Hdm). exists d. split; [exact Hd|].
        apply domainQuery_In. auto.
    + intros d. apply order_by_activation_desc_descending.
    + intros now maxAct. apply scoreCandidates_without_query, Hq.
  - intros d now o q Hnone Hq.
    assert (Hsel : selectCandidates (memories d) o = []).
    { unfold selectCandidates. rewrite Hq.
      induction Hnone as [|m rows Hm _ IH]; [reflexivity|].
      cbn [List.filter]. unfold has_embedding at 1. rewrite Hm. exact IH. }
    split; [exact Hsel|]. unfold retrieve. rewrite Hsel. reflexivity.
Qed.

Lemma domain_hints_used_without_query_embedding_witness :
  (queryEmbedding Examples.hints_only = None
   /\ domains Examples.hints_only <> []
   /\ selectCandidates [Examples.plain] Examples.hints_only
      = flat_map (domainQuery [Examples.plain]) (domains Examples.hints_only))
  /\ (Forall (fun m => embedding m = None)
             (memories (Examples.store [Examples.plain]))
      /\ queryEmbedding (Examples.query 20) = Some [1; 0]%float
      /\ retrieve (Examples.store [Examples.plain]) 0 (Examples.query 20)
         = Returned []).
Proof.
  destruct domain_hints_used_without_query_embedding as [Hhints Hquery].
  assert (Hq : queryEmbedding Examples.hints_only = None) by reflexivity.
  assert (Hd : domains Examples.hints_only <> []) by discriminate.
  assert (Hn : Forall (fun m => embedding m = None)
                 (memories (Examples.store [Examples.plain])))
    by (repeat constructor).
  assert (Hs : queryEmbedding (Examples.query 20) = Some [1; 0]%float)
    by reflexivity.
  split.
  - split; [exact Hq|]. split; [exact Hd|].
    apply (Hhints [Examples.plain] Examples.hints_only Hq Hd).
  - split; [exact Hn|]. split; [exact Hs|].
    apply (Hquery (Examples.store [Examples.plain]) 0%float
             (Examples.query 20) [1; 0]%float Hn Hs).
Defined.

(** C8 fails when a query embedding was obtained: no row has an
    embedding, the hint [tts] matches an active row, and yet there is no
    candidate and nothing is returned; without the query embedding the
    same call returns the row. *)
Lemma query_embedding_disables_domain_path :
  Forall (fun m => embedding m = None) [Examples.plain]
  /\ flat_map (domainQuery [Examples.plain]) (domains (Examples.query 20))
     = [Examples.plain]
  /\ selectCandidates [Examples.plain] (Examples.query 20) = []
  /\ retrieve (Examples.store [Examples.plain]) 0 (Examples.query 20)
     = Returned []
  /\ (List.map Examples.shown
        <$> retrieve (Examples.store [Examples.plain]) 0 Examples.hints_only)
     = Returned [("tts:atomic:p"%string, Some "active"%string, false)]
  /\ ~ domain_path_used [Examples.plain] (Examples.query 20).
Proof.
  split; [repeat constructor|].
  split; [vm_compute; reflexivity|].
  split; [vm_compute; reflexivity|].
  split; [vm_compute; reflexivity|].
  split; [vm_compute; reflexivity|].
  unfold domain_path_used. intros H. vm_compute in H. discriminate H.
Qed.

(** ** ID-level deduplication *)

Lemma session_id_dedup_filter (rows : list memory) (now : float)
    (atomics : list Ingest.Session.atomic) :
  List.map id (fst (Ingest.Session.id_dedup rows now atomics))
  = List.map Ingest.Session.entry_id
      (List.filter (fun a => negb (id_exists rows (Ingest.Session.entry_id a)))
                   atomics)
  /\ snd (Ingest.Session.id_dedup rows now atomics)
     = length (List.filter (fun a => id_exists rows (Ingest.Session.entry_id a))
                           atomics).
Proof.
  induction atomics as [|a rest [IHnew IHskip]]; [split; reflexivity|].
  cbn [Ingest.Session.id_dedup List.filter].
  destruct (Ingest.Session.id_dedup rows now rest) as [newEntries skipped].
  cbn [fst snd] in *.
  destruct (id_exists rows (Ingest.Session.entry_id a)); cbn [negb fst snd].
  - split; [exact IHnew|]. cbn [length]. rewrite IHskip. reflexivity.
  - split; [|exact IHskip]. cbn [List.map]. rewrite IHnew. reflexivity.
Qed.

(** C9, as the code has it. Both ingesters skip a candidate exactly
    when a row with the candidate's computed id exists in the store,
    whatever the status of that row: the test is
    [SELECT 1 FROM memories WHERE id = ?]. The session extractor keeps
    the candidates whose id is new and counts the others; the atomizer
    steps over a candidate whose id exists and inserts the others, so
    that a later candidate with the same id is skipped too. *)
Theorem id_dedup_skips_any_existing_id :
  (forall rows now atomics,
     List.map id (fst (Ingest.Session.id_dedup rows now atomics))
     = List.map Ingest.Session.entry_id
         (List.filter
            (fun a => negb (id_exists rows (Ingest.Session.entry_id a)))
            atomics)
     /\ snd (Ingest.Session.id_dedup rows now atomics)
        = length
            (List.filter
               (fun a => id_exists rows (Ingest.Session.entry_id a))
               atomics))
  /\ (forall rows now a,
        Ingest.Session.id_dedup rows now [a] = ([], 1%nat)
        <-> exists m, In m rows /\ id m = Ingest.Session.entry_id a)
  /\ (forall rows now a rest added skipped,
        let i := Ingest.Atomize.atomicId (Ingest.Atomize.domain a)
                                         (Ingest.Atomize.summary a) in
        ((exists m, In m rows /\ id m = i) ->
         Ingest.Atomize.extract_loop now (a :: rest) (rows, added, skipped)
         = Ingest.Atomize.extract_loop now rest (rows, added, S skipped))
        /\ (~ (exists m, In m rows /\ id m = i) ->
            Ingest.Atomize.extract_loop now (a :: rest) (rows, added, skipped)
            = Ingest.Atomize.extract_loop now rest
                (Ingest.upsertMemory rows
                   (Ingest.new_entry now i (Ingest.Atomize.summary a)
                      (Ingest.Atomize.detail a) (Ingest.Atomize.domain a)
                      (Ingest.Atomize.type a)),
                 S added, skipped))).
Proof.
  split; [apply session_id_dedup_filter|]. split.
  - intros rows now a. rewrite <- id_exists_In.
    cbn [Ingest.Session.id_dedup].
    destruct (id_exists rows (Ingest.Session.entry_id a)).
    + split; reflexivity.
    + split; discriminate.
  - intros rows now a rest added skipped i. subst i.
    rewrite <- id_exists_In. cbn [Ingest.Atomize.extract_loop].
    destruct (id_exists rows _).
    + split; [reflexivity|]. intros H. exfalso. apply H. reflexivity.
    + split; [discriminate|]. reflexivity.
Qed.

Lemma id_dedup_skips_any_existing_id_witness :
  (exists m, In m [Examples.deprecated_twin]
             /\ id m = Ingest.Session.entry_id Examples.candidate)
  /\ Ingest.Session.id_dedup [Examples.deprecated_twin] 0 [Examples.candidate]
     = ([], 1%nat).
Proof.
  assert (H : exists m, In m [Examples.deprecated_twin]
                        /\ id m = Ingest.Session.entry_id Examples.candidate).
  { exists Examples.deprecated_twin. split; [left; reflexivity|].
    vm_compute. reflexivity. }
  split; [exact H|].
  destruct id_dedup_skips_any_existing_id as (_ & Hone & _).
  apply (Hone [Examples.deprecated_twin] 0%float Examples.candidate). exact H.
Defined.

(** C9 fails on a store whose only row with the candidate's id is
    deprecated: the candidate is skipped. *)
Lemma deprecated_twin_blocks_candidate :
  Ingest.Session.entry_id Examples.candidate = id Examples.deprecated_twin
  /\ is_active Examples.deprecated_twin = false
  /\ Ingest.Session.id_dedup [Examples.deprecated_twin] 0 [Examples.candidate]
     = ([], 1%nat)
  /\ ~ skipped_iff_active_twin [Examples.deprecated_twin] 0 Examples.candidate.
Proof.
  split; [vm_compute; reflexivity|].
  split; [reflexivity|].
  assert (Hskip : Ingest.Session.id_dedup [Examples.deprecated_twin] 0
                    [Examples.candidate] = ([], 1%nat))
    by (vm_compute; reflexivity).
  split; [exact Hskip|].
  intros [Hactive _]. destruct (Hactive Hskip) as (m & [<-|[]] & _ & Hact).
  discriminate Hact.
Qed.

(** ** Malformed embedding blobs *)

Lemma similarities_returns (q : option Vec.Float32Array) (rows : list memory) :
  exists l, similarities q rows = Returned l.
Proof.
  induction rows as [|row rows [l Hl]]; [exists []; reflexivity|].
  cbn [similarities].
  destruct (embedding row) as [bytes|]; cbn [fmap option_fmap option_map].
  - rewrite blobToEmbedding_column. cbn. rewrite Hl. cbn. eauto.
  - cbn. rewrite Hl. cbn. eauto.
Qed.

Lemma blobToEmbedding_throws_iff (buf : Vec.Buffer) :
  (Vec.byteOffset buf + Vec.byteLength buf <= length (Vec.buffer buf))%nat ->
  (exists e, Vec.blobToEmbedding (Some buf) = Threw e)
  <-> (Vec.byteOffset buf mod 4 <> 0)%nat.
Proof.
  intros Hwf. unfold Vec.blobToEmbedding, Vec.new_Float32Array.
  destruct (Nat.eqb_spec (Vec.byteOffset buf mod 4) 0) as [Hal|Hmis]; cbn [negb].
  - assert (H4 : (4 * (Vec.byteLength buf / 4) <= Vec.byteLength buf)%nat)
      by (apply Nat.Div0.mul_div_le).
    destruct (Nat.ltb_spec (length (Vec.buffer buf))
                (Vec.byteOffset buf + 4 * (Vec.byteLength buf / 4)))
      as [Hlt|_]; [lia|].
    cbn. split; [intros [e He]; discriminate|intros Hne; contradiction].
  - cbn. split; [intros _; exact Hmis|intros _; eauto].
Qed.

(** C10, as the code has it. [blobToEmbedding] returns null for a null
    blob. For a blob read from the store it never throws: it returns the
    array of the first [floor(byteLength / 4)] floats of the blob, so that
    the one to three bytes after the last whole float are ignored. It
    throws only when the offset of the buffer is not a multiple of 4,
    whatever the length. Hence [semanticSearch] and [retrieve] return on
    every store: a row whose blob is malformed is compared through its
    truncated vector. *)
Theorem malformed_blob_is_truncated :
  Vec.blobToEmbedding None = Returned None
  /\ (forall bytes,
        exists v,
          Vec.blobToEmbedding (Some (Vec.column_blob bytes))
          = Returned (Some v)
          /\ length v = (length bytes / 4)%nat
          /\ v = Vec.decode_f32 (take (4 * (length bytes / 4)) bytes))
  /\ (forall buf,
        (Vec.byteOffset buf + Vec.byteLength buf
         <= length (Vec.buffer buf))%nat ->
        (exists e, Vec.blobToEmbedding (Some buf) = Threw e)
        <-> (Vec.byteOffset buf mod 4 <> 0)%nat)
  /\ (forall d q n, exists l, semanticSearch d q n = Returned l)
  /\ (forall d now o, exists l, retrieve d now o = Returned l).
Proof.
  split; [reflexivity|]. split; [|split; [|split]].
  - intros bytes. eexists. split; [apply blobToEmbedding_column|].
    split; [|reflexivity].
    rewrite decode_f32_length, length_take.
    rewrite Nat.min_l by (apply Nat.Div0.mul_div_le).
    rewrite Nat.mul_comm. apply Nat.div_mul. discriminate.
  - apply blobToEmbedding_throws_iff.
  - intros d q n. unfold semanticSearch.
    destruct (similarities_returns q (List.filter has_embedding (memories d)))
      as [l Hl].
    rewrite Hl. cbn. eauto.
  - intros d now o.
    destruct (retrieve_returns d now o) as [Hnil|(scored & _ & Hret)]; eauto.
Qed.

Lemma malformed_blob_is_truncated_witness :
  (1 + 4 <= length [x07; x00; x00; x80; x3f]%byte)%nat
  /\ (1 mod 4 <> 0)%nat
  /\ exists e,
       Vec.blobToEmbedding
         (Some {| Vec.buffer := [x07; x00; x00; x80; x3f]%byte;
                  Vec.byteOffset := 1;
                  Vec.byteLength := 4 |})
       = Threw e.
Proof.
  assert (Hwf : (1 + 4 <= length [x07; x00; x00; x80; x3f]%byte)%nat)
    by (cbn; lia).
  assert (Hmis : (1 mod 4 <> 0)%nat) by (cbn; lia).
  split; [exact Hwf|]. split; [exact Hmis|].
  destruct malformed_blob_is_truncated as (_ & _ & Hthrows & _).
  apply (Hthrows {| Vec.buffer := [x07; x00; x00; x80; x3f]%byte;
                    Vec.byteOffset := 1;
                    Vec.byteLength := 4 |} Hwf).
  exact Hmis.
Defined.

(** C10 fails on a store with a blob of five bytes: the blob decodes to
    the one float of its first four bytes, [semanticSearch] gives the
    row the similarity 0 (its vector and the query differ in length),
    and [retrieve] returns the empty list; neither throws. *)
Lemma blob_of_five_bytes_does_not_throw :
  has_malformed_blob (memories (Examples.store [Examples.malformed]))
  /\ Vec.blobToEmbedding (Some (Vec.column_blob Examples.blob_5))
     = Returned (Some [1%float])
  /\ semanticSearch (Examples.store [Examples.malformed])
       (Some [1; 0]%float) 20
     = Returned [("tts:atomic:m"%string, 0%float)]
  /\ retrieve (Examples.store [Examples.malformed]) 0 (Examples.query 20)
     = Returned []
  /\ ~ malformed_blob_throws (Examples.store [Examples.malformed]) 0
         (Examples.query 20) 20.
Proof.
  assert (Hbad : has_malformed_blob
                   (memories (Examples.store [Examples.malformed]))).
  { exists Examples.malformed, Examples.blob_5.
    split; [left; reflexivity|]. split; [reflexivity|]. cbn. lia. }
  split; [exact Hbad|].
  split; [vm_compute; reflexivity|].
  split; [vm_compute; reflexivity|].
  split; [vm_compute; reflexivity|].
  intros Hclaim. destruct (Hclaim Hbad) as [[e He] _].
  vm_compute in He. discriminate He.
Qed.

(** ** The fill pass is not filtered *)

(** C1 at a failing input. The store holds an active row and a row that
    was deprecated in its favour, wired to each other by an earlier
    retrieval. The deprecated row is not a candidate, and the fill pass
    returns it as a neighbour of the selected row: [getMemory] reads it
    without looking at its status. *)
Theorem retrieve_returns_deprecated_neighbour :
  is_deprecated Examples.outdated = true
  /\ selectCandidates [Examples.current; Examples.outdated] (Examples.query 20)
     = [Examples.current]
  /\ (List.map Examples.shown
        <$> retrieve (Examples.store [Examples.current; Examples.outdated]) 0
              (Examples.query 20))
     = Returned [("tts:atomic:a"%string, Some "active"%string, false);
                 ("tts:atomic:b"%string, Some "deprecated"%string, true)].
Proof. repeat split; vm_compute; reflexivity. Qed.

(** C2 at a failing input. With [limit = 1] the selection loop stops at
    one entry, and the fill pass, which does not look at [limit], adds a
    second. *)
Theorem retrieve_exceeds_limit :
  limit (Examples.query 1) = 1%nat
  /\ (List.map Examples.shown
        <$> retrieve (Examples.store [Examples.current; Examples.close]) 0
              (Examples.query 1))
     = Returned [("tts:atomic:a"%string, Some "active"%string, false);
                 ("tts:atomic:b"%string, Some "active"%string, true)]
  /\ (length <$> retrieve (Examples.store [Examples.current; Examples.close]) 0
                   (Examples.query 1))
     = Returned 2%nat.
Proof. repeat split; vm_compute; reflexivity. Qed.

(** C4 fails on a store in which the row of highest activation is
    orthogonal to the query and wired to the selected row: the floor
    keeps it out of the candidates that are scored, and the fill pass
    returns it. *)
Lemma fill_pass_returns_row_below_floor :
  similarity_to [1; 0]%float Examples.unrelated = 0%float
  /\ activation Examples.unrelated = Some 1000%float
  /\ activation Examples.current = Some 1%float
  /\ (List.map Examples.shown
        <$> retrieve (Examples.store [Examples.current; Examples.unrelated]) 0
              (Examples.query 20))
     = Returned [("tts:atomic:a"%string, Some "active"%string, false);
                 ("tts:atomic:b"%string, Some "active"%string, true)]
  /\ ~ floor_holds (Examples.store [Examples.current; Examples.unrelated]) 0
         (Examples.query 20).
Proof.
  split; [vm_compute; reflexivity|].
  split; [reflexivity|]. split; [reflexivity|].
  split; [vm_compute; reflexivity|].
  intros Hfloor.
  destruct (retrieve (Examples.store [Examples.current; Examples.unrelated]) 0
              (Examples.query 20)) as [sel|e] eqn:Hret;
    vm_compute in Hret; [|discriminate Hret].
  injection Hret as <-.
  specialize (Hfloor [1; 0]%float _ _ eq_refl eq_refl
                (or_intror (or_introl eq_refl))).
  vm_compute in Hfloor. discriminate Hfloor.
Qed.

Lemma retrieve_floor_on_scored_items_witness :
  queryEmbedding (Examples.query 20) = Some [1; 0]%float
  /\ exists sel,
       retrieve (Examples.store [Examples.current; Examples.unrelated]) 0
         (Examples.query 20) = Returned sel
       /\ forall r, In r sel -> spreadingActivation r = false ->
            In (entry r)
               (memories (Examples.store [Examples.current; Examples.unrelated]))
            /\ semanticSim r = Some (similarity_to [1; 0]%float (entry r))
            /\ (similarity_to [1; 0]%float (entry r) <? 0.3)%float = false.
Proof.
  assert (Hq : queryEmbedding (Examples.query 20) = Some [1; 0]%float)
    by reflexivity.
  split; [exact Hq|].
  apply (retrieve_floor_on_scored_items
           (Examples.store [Examples.current; Examples.unrelated]) 0%float
           (Examples.query 20) [1; 0]%float Hq).
Defined.

(** * Further properties of the engine *)

(** ** What [retrieve] returns from its candidates *)

Lemma In_take_In {A} (n : nat) (l : list A) (x : A) :
  In x (take n l) -> In x l.
Proof.
  revert n. induction l as [|y l IH]; intros [|n]; cbn; try tauto.
  intros [->|H]; [left; reflexivity|right; exact (IH n H)].
Qed.

Lemma selectCandidates_active (rows : list memory) (o : options) (m : memory) :
  In m (selectCandidates rows o) -> In m rows /\ is_active m = true.
Proof.
  unfold selectCandidates. destruct (queryEmbedding o) as [q|].
  - rewrite List.filter_In, andb_true_iff. tauto.
  - destruct (0 <? length (domains o))%nat.
    + rewrite List.in_flat_map. intros (d & _ & Hm).
      apply domainQuery_In in Hm. tauto.
    + intros Hm. apply In_take_In in Hm.
      rewrite order_by_activation_desc_In, List.filter_In in Hm. exact Hm.
Qed.

Lemma active_not_deprecated (m : memory) :
  is_active m = true -> is_deprecated m = false.
Proof.
  unfold is_active, is_deprecated. destruct (status m) as [s|]; [|reflexivity].
  intros Hs. apply String.eqb_eq in Hs. subst s. reflexivity.
Qed.

(** The shape of every result of [retrieve]: the selection from a list
    of scored candidates, followed by what the fill pass adds. *)
Lemma retrieve_shape (d : db) (now : float) (o : options) :
  exists scored,
    Forall (scored_ok o (selectCandidates (memories d) o)) scored
    /\ (retrieve d now o = Returned []
        \/ retrieve d now o
           = Returned (spread_fill d (tokenBudget o * 4)
                         (select_loop o (tokenBudget o * 4) scored
                            {| selected := []; charsUsed := 0;
                               seenDomains := ∅ |}))).
Proof.
  destruct (retrieve_returns d now o) as [Hnil|(scored & Hall & Hret)].
  - exists []. split; [constructor|left; exact Hnil].
  - exists scored. split; [exact Hall|right; exact Hret].
Qed.

Lemma spread_fill_Forall (P : retrieved -> Prop) (d : db) (B : nat)
    (st : selection) :
  (forall r, spreadingActivation r = true -> P r) ->
  Forall P (selected st) -> Forall P (spread_fill d B st).
Proof.
  intros Hspread Hsel. unfold spread_fill. destruct (_ && _); [|exact Hsel].
  apply fill_loop_Forall; assumption.
Qed.

Lemma scored_items_active (d : db) (now : float) (o : options) :
  exists sel,
    retrieve d now o = Returned sel
    /\ forall r, In r sel -> spreadingActivation r = false ->
         In (entry r) (memories d)
         /\ is_active (entry r) = true
         /\ is_deprecated (entry r) = false.
Proof.
  destruct (retrieve_shape d now o) as (scored & Hall & [Hnil|Hret]).
  - exists []. split; [exact Hnil|]. intros r [].
  - eexists. split; [exact Hret|].
    set (P := fun r : retrieved =>
                spreadingActivation r = false ->
                In (entry r) (memories d) /\ is_active (entry r) = true
                /\ is_deprecated (entry r) = false).
    assert (Hsel : Forall P (spread_fill d (tokenBudget o * 4)
                      (select_loop o (tokenBudget o * 4) scored
                         {| selected := []; charsUsed := 0; seenDomains := ∅ |}))).
    { apply spread_fill_Forall.
      - intros r Hr. unfold P. rewrite Hr. discriminate.
      - apply select_loop_Forall; [|constructor].
        eapply List.Forall_impl; [|exact Hall].
        intros r (Hin & _ & _) _. apply selectCandidates_active in Hin.
        destruct Hin as [Hin Hact]. split; [exact Hin|].
        split; [exact Hact|apply active_not_deprecated, Hact]. }
    rewrite List.Forall_forall in Hsel. exact Hsel.
Qed.

(** X1. Every item that [retrieve] returns from its ranked candidates
    (every item not marked as spread) is a row of the store whose status
    is active or null, in each of the three candidate modes. *)
Theorem retrieve_scored_items_are_active (d : db) (now : float) (o : options) :
  exists sel,
    retrieve d now o = Returned sel
    /\ forall r, In r sel -> spreadingActivation r = false ->
         In (entry r) (memories d)
         /\ is_active (entry r) = true
         /\ is_deprecated (entry r) = false.
Proof. apply scored_items_active. Qed.

(** ** The diversity cap and the entry cap *)

(** What the fill loop returns: the selection, then the items of a
    prefix of the neighbours. *)
Lemma fill_loop_prefix (B : nat) (related : list (memory * float)) :
  forall sel used,
    exists k, fill_loop B related sel used
              = sel ++ List.map as_fill_item (take k related).
Proof.
  induction related as [|[mem boost] rest IH]; intros sel used; cbn [fill_loop].
  - exists 0%nat. cbn. rewrite app_nil_r. reflexivity.
  - destruct (_ <? _)%nat.
    + exists 0%nat. cbn. rewrite app_nil_r. reflexivity.
    + destruct (IH (sel ++ [as_fill_item (mem, boost)])
                   (used + entryChars mem)%nat) as [k Hk].
      exists (S k). unfold as_fill_item at 1 in Hk. cbn [fst snd] in Hk.
      rewrite Hk, <- app_assoc. reflexivity.
Qed.

Lemma spread_fill_prefix (d : db) (B : nat) (st : selection) :
  exists k,
    spread_fill d B st
    = selected st
      ++ List.map as_fill_item
           (take k (getSpreadingActivation d
                      (List.map (fun s => id (entry s)) (selected st)) 8)).
Proof.
  unfold spread_fill. destruct (_ && _).
  - apply fill_loop_prefix.
  - exists 0%nat. cbn. rewrite app_nil_r. reflexivity.
Qed.

Lemma omap_length_le {A B} (f : A -> option B) (l : list A) :
  (length (omap f l) <= length l)%nat.
Proof.
  induction l as [|x l IH]; cbn; [lia|]. destruct (f x); cbn; lia.
Qed.

Lemma getSpreadingActivation_length (d : db) (activeIds : list string) (n : nat) :
  (length (getSpreadingActivation d activeIds n) <= n)%nat.
Proof.
  unfold getSpreadingActivation.
  etransitivity; [apply omap_length_le|]. rewrite length_take. lia.
Qed.

Lemma scored_items_app (l1 l2 : list retrieved) :
  scored_items (l1 ++ l2) = scored_items l1 ++ scored_items l2.
Proof. unfold scored_items. apply List.filter_app. Qed.

Lemma scored_items_fill (l : list (memory * float)) :
  scored_items (List.map as_fill_item l) = [].
Proof. induction l as [|x l IH]; [reflexivity|exact IH]. Qed.

Lemma fill_items_fill (l : list (memory * float)) :
  fill_items (List.map as_fill_item l) = List.map as_fill_item l.
Proof.
  induction l as [|x l IH]; [reflexivity|].
  cbn. fold (fill_items (List.map as_fill_item l)). rewrite IH. reflexivity.
Qed.

Lemma scored_items_all (l : list retrieved) :
  Forall (fun r => spreadingActivation r = false) l ->
  scored_items l = l /\ fill_items l = [].
Proof.
  induction 1 as [|r l Hr _ [IHs IHf]]; [split; reflexivity|].
  unfold scored_items, fill_items in *. cbn. rewrite Hr. cbn.
  rewrite IHs, IHf. split; reflexivity.
Qed.

(** The selection loop counts in [seenDomains] what it has selected, and
    never lets a count pass 3. *)
Lemma select_loop_domain_cap (o : options) (B : nat) (scored : list retrieved) :
  forall st,
    (forall dom, domain_count dom (selected st)
                 = default 0%nat (seenDomains st !! dom)
                 /\ (domain_count dom (selected st) <= 3)%nat) ->
    forall dom,
      domain_count dom (selected (select_loop o B scored st))
      = default 0%nat (seenDomains (select_loop o B scored st) !! dom)
      /\ (domain_count dom (selected (select_loop o B scored st)) <= 3)%nat.
Proof.
  induction scored as [|e rest IH]; intros st Hst; cbn [select_loop];
    [exact Hst|].
  destruct (_ && _); [exact Hst|].
  fold (dom_key e).
  destruct (Nat.leb_spec 3 (default 0%nat (seenDomains st !! dom_key e)))
    as [Hfull|Hroom]; [apply IH; exact Hst|].
  match goal with
  | |- context [if ?c then ?a else _] =>
      assert (Hst' : forall dom,
                 domain_count dom (selected a)
                 = default 0%nat (seenDomains a !! dom)
                 /\ (domain_count dom (selected a) <= 3)%nat);
      [|destruct c; [exact Hst'|apply IH; exact Hst']]
  end.
  intros dom. cbn [selected seenDomains]. unfold domain_count.
  rewrite List.filter_app, length_app. cbn [List.filter].
  destruct (Hst dom) as [Hcount Hle]. unfold domain_count in Hcount, Hle.
  destruct (String.eqb_spec (dom_key e) dom) as [<-|Hne].
  - rewrite lookup_insert_eq. cbn [length default]. rewrite Hcount.
    change (Datatypes.id (S ?n)) with (S n). lia.
  - rewrite lookup_insert_ne by exact Hne. cbn [length]. lia.
Qed.

Lemma domain_count_scored_le (dom : string) (l : list retrieved) :
  (domain_count dom (scored_items l) <= domain_count dom l)%nat.
Proof.
  unfold domain_count, scored_items.
  induction l as [|r l IH]; cbn; [lia|].
  destruct (spreadingActivation r); cbn; destruct (String.eqb _ _); cbn; lia.
Qed.

(** X2. In every list that [retrieve] returns, at most three of the
    items that come from the ranked candidates belong to any one domain
    (a null or empty domain counting as "general"). *)
Theorem retrieve_at_most_three_per_domain (d : db) (now : float)
    (o : options) (dom : string) :
  exists sel,
    retrieve d now o = Returned sel
    /\ (domain_count dom (scored_items sel) <= 3)%nat.
Proof.
  destruct (retrieve_shape d now o) as (scored & _ & [Hnil|Hret]).
  - exists []. split; [exact Hnil|]. cbn. lia.
  - eexists. split; [exact Hret|].
    destruct (spread_fill_prefix d (tokenBudget o * 4)
                (select_loop o (tokenBudget o * 4) scored
                   {| selected := []; charsUsed := 0; seenDomains := ∅ |}))
      as [k ->].
    rewrite scored_items_app, scored_items_fill, app_nil_r.
    etransitivity; [apply domain_count_scored_le|].
    apply select_loop_domain_cap. intros dom'. cbn [selected seenDomains].
    rewrite lookup_empty. cbn. split; [reflexivity|lia].
Qed.

Lemma select_loop_length (o : options) (B : nat) (scored : list retrieved) :
  forall st,
    (selected st = [] \/ (length (selected st) < limit o)%nat) ->
    (length (selected (select_loop o B scored st)) <= Nat.max (limit o) 1)%nat.
Proof.
  induction scored as [|e rest IH]; intros st Hst; cbn [select_loop].
  - destruct Hst as [->|Hlt]; cbn; lia.
  - destruct (_ && _); [destruct Hst as [->|Hlt]; cbn; lia|].
    destruct (3 <=? _)%nat; [apply IH; exact Hst|].
    cbn [selected]. rewrite length_app. cbn [length].
    destruct (Nat.leb_spec (limit o) (length (selected st) + 1)) as [Hstop|Hgo].
    + cbn [selected]. rewrite length_app. cbn [length].
      destruct Hst as [->|Hlt]; cbn; lia.
    + apply IH. right. cbn [selected]. rewrite length_app. cbn [length]. lia.
Qed.

(** X3. [retrieve] returns at most [max(limit, 1)] items from its ranked
    candidates (one item is selected before [limit] is looked at) and at
    most 8 items from the fill pass. *)
Theorem retrieve_length_bounds (d : db) (now : float) (o : options) :
  exists sel,
    retrieve d now o = Returned sel
    /\ (length (scored_items sel) <= Nat.max (limit o) 1)%nat
    /\ (length (fill_items sel) <= 8)%nat
    /\ (length sel <= Nat.max (limit o) 1 + 8)%nat.
Proof.
  destruct (retrieve_shape d now o) as (scored & Hall & [Hnil|Hret]).
  - exists []. split; [exact Hnil|]. cbn. lia.
  - eexists. split; [exact Hret|].
    set (st := select_loop o (tokenBudget o * 4) scored
                 {| selected := []; charsUsed := 0; seenDomains := ∅ |}).
    destruct (spread_fill_prefix d (tokenBudget o * 4) st) as [k ->].
    assert (Hflags : Forall (fun r => spreadingActivation r = false)
                       (selected st)).
    { apply select_loop_Forall; [|constructor].
      eapply List.Forall_impl; [|exact Hall]. intros r (_ & Hs & _). exact Hs. }
    destruct (scored_items_all _ Hflags) as [Hs Hf].
    assert (Hlen : (length (selected st) <= Nat.max (limit o) 1)%nat)
      by (apply select_loop_length; left; reflexivity).
    assert (Hfill : (length (List.map as_fill_item
                       (take k (getSpreadingActivation d
                          (List.map (fun s => id (entry s)) (selected st)) 8)))
                     <= 8)%nat).
    { rewrite length_map, length_take.
      pose proof (getSpreadingActivation_length d
                    (List.map (fun s => id (entry s)) (selected st)) 8). lia. }
    unfold scored_items, fill_items in *.
    rewrite !List.filter_app, !length_app.
    fold (scored_items (selected st)) (fill_items (selected st)).
    change (List.filter (fun r => negb (spreadingActivation r)) ?l)
      with (scored_items l).
    change (List.filter spreadingActivation ?l) with (fill_items l).
    unfold scored_items at 1, fill_items at 1. rewrite Hs, Hf.
    rewrite scored_items_fill, fill_items_fill. cbn [length]. lia.
Qed.

(** ** Spreading activation *)

Lemma sort_insert_Permutation {A} (cmp : A -> A -> float) (x : A) (l : list A) :
  Permutation (JS.sort_insert cmp x l) (x :: l).
Proof.
  induction l as [|y l IH]; cbn; [reflexivity|].
  destruct (0 <? cmp x y)%float; [|reflexivity].
  rewrite IH. apply perm_swap.
Qed.

Lemma Array_sort_Permutation {A} (cmp : A -> A -> float) (l : list A) :
  Permutation (JS.Array_sort cmp l) l.
Proof.
  unfold JS.Array_sort. induction l as [|x l IH]; cbn; [reflexivity|].
  rewrite sort_insert_Permutation, IH. reflexivity.
Qed.

Lemma boost_add_keys (boosts : list (string * float)) (k : string) (w : float) :
  List.map fst (boost_add boosts k w)
  = if existsb (String.eqb k) (List.map fst boosts)
    then List.map fst boosts else List.map fst boosts ++ [k].
Proof.
  induction boosts as [|[k' b] rest IH]; [reflexivity|].
  cbn [boost_add List.map fst existsb].
  rewrite (String.eqb_sym k k').
  destruct (String.eqb k' k); [reflexivity|].
  cbn [List.map fst orb]. rewrite IH.
  destruct (existsb _ _); reflexivity.
Qed.

Lemma existsb_eqb_In (k : string) (l : list string) :
  existsb (String.eqb k) l = true <-> In k l.
Proof.
  rewrite List.existsb_exists. split.
  - intros (x & Hin & Heq). apply String.eqb_eq in Heq. subst x. exact Hin.
  - intros Hin. exists k. split; [exact Hin|apply String.eqb_refl].
Qed.

Lemma boost_add_NoDup (boosts : list (string * float)) (k : string) (w : float) :
  NoDup (List.map fst boosts) -> NoDup (List.map fst (boost_add boosts k w)).
Proof.
  intros Hnd. rewrite boost_add_keys.
  destruct (existsb (String.eqb k) (List.map fst boosts)) eqn:Hk; [exact Hnd|].
  apply NoDup_app. split; [exact Hnd|]. split; [|apply NoDup_singleton].
  intros x Hx Hxk. apply list_elem_of_In in Hx.
  apply list_elem_of_In in Hxk. destruct Hxk as [<-|[]].
  apply existsb_eqb_In in Hx. congruence.
Qed.

Lemma boost_related_ok (activeIds : list string)
    (boosts : list (string * float)) (rel : string * float) :
  boosts_ok activeIds boosts ->
  boosts_ok activeIds (boost_related activeIds boosts rel).
Proof.
  intros [Hnd Hout]. unfold boost_related.
  destruct (existsb (String.eqb (fst rel)) activeIds) eqn:Hact; [split; assumption|].
  split; [apply boost_add_NoDup, Hnd|].
  intros k. rewrite boost_add_keys.
  destruct (existsb _ (List.map fst boosts)); [apply Hout|].
  rewrite List.in_app_iff. intros [Hk|[<-|[]]]; [apply Hout, Hk|].
  intros Hin. apply existsb_eqb_In in Hin. congruence.
Qed.

Lemma collect_boosts_ok (g : gmap (string * string) float)
    (activeIds : list string) :
  boosts_ok activeIds (collect_boosts g activeIds).
Proof.
  unfold collect_boosts.
  assert (Hinner : forall rels boosts,
             boosts_ok activeIds boosts ->
             boosts_ok activeIds
               (fold_left (boost_related activeIds) rels boosts)).
  { induction rels as [|rel rels IH]; intros boosts Hb; cbn [fold_left];
      [exact Hb|]. apply IH, boost_related_ok, Hb. }
  assert (Houter : forall ids boosts,
             boosts_ok activeIds boosts ->
             boosts_ok activeIds
               (fold_left (fun boosts i =>
                             fold_left (boost_related activeIds)
                                       (getCoOccurrences g i 20) boosts)
                          ids boosts)).
  { induction ids as [|i ids IH]; intros boosts Hb; cbn [fold_left];
      [exact Hb|]. apply IH, Hinner, Hb. }
  apply Houter. split; [constructor|intros k []].
Qed.

Lemma getMemory_Some (rows : list memory) (i : string) (m : memory) :
  getMemory rows i = Some m -> In m rows /\ id m = i.
Proof.
  unfold getMemory. intros Hfind. apply List.find_some in Hfind.
  destruct Hfind as [Hin Heq]. apply String.eqb_eq in Heq. split; assumption.
Qed.

Lemma sublist_map {A B} (f : A -> B) (l1 l2 : list A) :
  sublist l1 l2 -> sublist (List.map f l1) (List.map f l2).
Proof.
  induction 1; cbn; [constructor|apply sublist_skip|apply sublist_cons];
    assumption.
Qed.

Lemma sublist_In {A} (l1 l2 : list A) (x : A) :
  sublist l1 l2 -> In x l1 -> In x l2.
Proof.
  induction 1 as [|y l1 l2 _ IH|y l1 l2 _ IH]; cbn; [tauto| |]; tauto.
Qed.

Lemma spread_rows_sublist (rows : list memory) (keys : list (string * float)) :
  sublist
    (List.map (fun mb => id (fst mb))
       (omap (fun kb => (fun mem => (mem, snd kb))
                          <$> getMemory rows (fst kb)) keys))
    (List.map fst keys).
Proof.
  induction keys as [|[k b] keys IH]; cbn; [constructor|].
  destruct (getMemory rows k) as [mem|] eqn:Hget; cbn.
  - apply getMemory_Some in Hget. destruct Hget as [_ ->].
    apply sublist_skip, IH.
  - apply sublist_cons, IH.
Qed.

Lemma spread_neighbours (d : db) (activeIds : list string) (n : nat) :
  (length (getSpreadingActivation d activeIds n) <= n)%nat
  /\ (forall mb, In mb (getSpreadingActivation d activeIds n) ->
        In (fst mb) (memories d) /\ ~ In (id (fst mb)) activeIds)
  /\ NoDup (List.map (fun mb => id (fst mb))
              (getSpreadingActivation d activeIds n)).
Proof.
  split; [apply getSpreadingActivation_length|].
  destruct (collect_boosts_ok (co_occurrences d) activeIds) as [Hnd Hout].
  set (keys := take n (JS.Array_sort by_snd_desc
                         (collect_boosts (co_occurrences d) activeIds))).
  assert (Hkeys : sublist (List.map fst keys)
                    (List.map fst (JS.Array_sort by_snd_desc
                       (collect_boosts (co_occurrences d) activeIds)))).
  { subst keys. apply sublist_map, sublist_take. }
  assert (Hsorted : Permutation
            (List.map fst (JS.Array_sort by_snd_desc
                             (collect_boosts (co_occurrences d) activeIds)))
            (List.map fst (collect_boosts (co_occurrences d) activeIds))).
  { apply Permutation_map, Array_sort_Permutation. }
  assert (Hids : sublist
            (List.map (fun mb => id (fst mb))
                      (getSpreadingActivation d activeIds n))
            (List.map fst keys)).
  { apply spread_rows_sublist. }
  split.
  - intros [mem b] Hin. cbn [fst]. split.
    + unfold getSpreadingActivation in Hin.
      apply list_elem_of_In, list_elem_of_omap in Hin.
      destruct Hin as ([k b'] & _ & Hk). cbn [fst snd] in Hk.
      destruct (getMemory (memories d) k) as [mem'|] eqn:Hget; [|discriminate].
      cbn in Hk. injection Hk as <- _.
      apply getMemory_Some in Hget. apply Hget.
    + apply Hout. eapply Permutation_in; [exact Hsorted|].
      eapply sublist_In; [exact Hkeys|].
      eapply sublist_In; [exact Hids|].
      apply (List.in_map (fun mb => id (fst mb)) _ (mem, b)). exact Hin.
  - eapply sublist_NoDup; [|exact Hids].
    eapply sublist_NoDup; [|exact Hkeys].
    rewrite Hsorted. exact Hnd.
Qed.

(** X4. [getSpreadingActivation] returns at most [limit] rows; each is a
    row of the store, none has the id of an active id, and no id is
    returned twice. *)
Theorem getSpreadingActivation_neighbours (d : db) (activeIds : list string)
    (n : nat) :
  (length (getSpreadingActivation d activeIds n) <= n)%nat
  /\ (forall mb, In mb (getSpreadingActivation d activeIds n) ->
        In (fst mb) (memories d) /\ ~ In (id (fst mb)) activeIds)
  /\ NoDup (List.map (fun mb => id (fst mb))
              (getSpreadingActivation d activeIds n)).
Proof. apply spread_neighbours. Qed.

(** ** No id is returned twice *)

Lemma NoDup_map_inj_on {A B} (f : A -> B) (l : list A) :
  NoDup l ->
  (forall x y, In x l -> In y l -> f x = f y -> x = y) ->
  NoDup (List.map f l).
Proof.
  induction 1 as [|x l Hx _ IH]; intros Hinj; cbn; [constructor|].
  apply NoDup_cons. split.
  - rewrite list_elem_of_In, List.in_map_iff. intros (y & Hfy & Hy).
    apply Hx. rewrite list_elem_of_In.
    rewrite <- (Hinj y x); [exact Hy|right; exact Hy|left; reflexivity|exact Hfy].
  - apply IH. intros a b Ha Hb. apply Hinj; right; assumption.
Qed.

Lemma NoDup_map_inv {A B} (f : A -> B) (l : list A) :
  NoDup (List.map f l) ->
  NoDup l /\ forall x y, In x l -> In y l -> f x = f y -> x = y.
Proof.
  induction l as [|a l IH]; cbn; intros Hnd.
  - split; [constructor|intros x y []].
  - apply NoDup_cons in Hnd. destruct Hnd as [Ha Hnd].
    destruct (IH Hnd) as [IHnd IHinj].
    rewrite list_elem_of_In in Ha. split.
    + apply NoDup_cons. split; [|exact IHnd].
      rewrite list_elem_of_In. intros Hin. apply Ha, List.in_map, Hin.
    + intros x y [<-|Hx] [<-|Hy] Hf; try reflexivity.
      * exfalso. apply Ha. rewrite Hf. apply List.in_map, Hy.
      * exfalso. apply Ha. rewrite <- Hf. apply List.in_map, Hx.
      * apply IHinj; assumption.
Qed.

Lemma filter_sublist {A} (f : A -> bool) (l : list A) :
  sublist (List.filter f l) l.
Proof.
  induction l as [|x l IH]; cbn; [constructor|].
  destruct (f x); [apply sublist_skip|apply sublist_cons]; exact IH.
Qed.

Lemma insert_desc_Permutation (x : memory) (l : list memory) :
  Permutation (insert_desc x l) (x :: l).
Proof.
  induction l as [|y l IH]; cbn; [reflexivity|].
  destruct (sql_lt _ _); [|reflexivity]. rewrite IH. apply perm_swap.
Qed.

Lemma order_by_activation_desc_Permutation (l : list memory) :
  Permutation (order_by_activation_desc l) l.
Proof.
  unfold order_by_activation_desc. induction l as [|x l IH]; cbn; [reflexivity|].
  rewrite insert_desc_Permutation, IH. reflexivity.
Qed.

Lemma domainQuery_NoDup (rows : list memory) (dname : string) :
  NoDup rows -> NoDup (domainQuery rows dname).
Proof.
  intros Hnd. unfold domainQuery.
  rewrite order_by_activation_desc_Permutation.
  eapply sublist_NoDup; [exact Hnd|apply filter_sublist].
Qed.

Lemma flat_map_domainQuery_NoDup (rows : list memory) (ds : list string) :
  NoDup rows -> NoDup ds -> NoDup (flat_map (domainQuery rows) ds).
Proof.
  intros Hrows. induction 1 as [|dname ds Hd _ IH]; cbn; [constructor|].
  apply NoDup_app. split; [apply domainQuery_NoDup, Hrows|]. split; [|exact IH].
  intros m Hm Hm'. rewrite list_elem_of_In in Hm, Hm'.
  apply domainQuery_In in Hm. destruct Hm as (_ & _ & Hdom).
  apply List.in_flat_map in Hm'. destruct Hm' as (d' & Hd' & Hm').
  apply domainQuery_In in Hm'. destruct Hm' as (_ & _ & Hdom').
  apply Hd. rewrite list_elem_of_In. congruence.
Qed.

Lemma selectCandidates_NoDup (rows : list memory) (o : options) :
  NoDup rows ->
  (queryEmbedding o = None -> NoDup (domains o)) ->
  NoDup (selectCandidates rows o).
Proof.
  intros Hrows Hdom. unfold selectCandidates.
  destruct (queryEmbedding o) as [q|].
  - eapply sublist_NoDup; [exact Hrows|apply filter_sublist].
  - destruct (0 <? length (domains o))%nat.
    + apply flat_map_domainQuery_NoDup; [exact Hrows|apply Hdom; reflexivity].
    + eapply sublist_NoDup; [|apply sublist_take].
      rewrite order_by_activation_desc_Permutation.
      eapply sublist_NoDup; [exact Hrows|apply filter_sublist].
Qed.

Lemma scoreCandidates_sublist (o : options) (now maxAct : float)
    (candidates : list memory) :
  forall scored,
    scoreCandidates o now maxAct candidates = Returned scored ->
    sublist (List.map entry scored) candidates.
Proof.
  induction candidates as [|e rest IH]; intros scored; cbn [scoreCandidates].
  - intros [= <-]. constructor.
  - destruct (scoreEntry_returns o now maxAct e) as (r & Hr & Hok).
    rewrite Hr. cbn.
    destruct (scoreCandidates o now maxAct rest) as [scored'|ex]; cbn;
      [|discriminate].
    intros [= <-]. specialize (IH scored' eq_refl).
    destruct r as [x|]; [|apply sublist_cons, IH].
    destruct (Hok x eq_refl) as ([Hx|[]] & _). cbn [List.map].
    rewrite <- Hx. apply sublist_skip, IH.
Qed.

Lemma select_loop_sublist (o : options) (B : nat) (scored : list retrieved) :
  forall st,
    exists l, selected (select_loop o B scored st) = selected st ++ l
              /\ sublist l scored.
Proof.
  induction scored as [|e rest IH]; intros st; cbn [select_loop].
  - exists []. rewrite app_nil_r. split; [reflexivity|constructor].
  - destruct (_ && _).
    { exists []. rewrite app_nil_r. split; [reflexivity|apply sublist_nil_l]. }
    destruct (3 <=? _)%nat.
    { destruct (IH st) as (l & Hl & Hsub). exists l.
      split; [exact Hl|apply sublist_cons, Hsub]. }
    match goal with
    | |- context [if ?c then ?a else _] =>
        destruct c;
        [exists [e]; cbn [selected]; split;
           [reflexivity|apply sublist_skip, sublist_nil_l]
        |destruct (IH a) as (l & Hl & Hsub); exists (e :: l);
         cbn [selected] in *; rewrite Hl, <- app_assoc; split;
           [reflexivity|apply sublist_skip, Hsub]]
    end.
Qed.

Lemma retrieve_ids_NoDup (d : db) (now : float) (o : options) :
  NoDup (List.map id (memories d)) ->
  (queryEmbedding o = None -> NoDup (domains o)) ->
  exists sel,
    retrieve d now o = Returned sel
    /\ NoDup (List.map (fun r => id (entry r)) sel).
Proof.
  intros Hpk Hhints.
  destruct (NoDup_map_inv id (memories d) Hpk) as [Hrows Hinj].
  unfold retrieve.
  destruct (length (selectCandidates (memories d) o) =? 0)%nat;
    [exists []; split; [reflexivity|constructor]|].
  destruct (scoreCandidates_returns o now
              (maxActivation (selectCandidates (memories d) o))
              (selectCandidates (memories d) o)) as (scored & Hs & _).
  rewrite Hs. cbn. eexists. split; [reflexivity|].
  set (ranked := JS.Array_sort by_score_desc scored).
  set (st := select_loop o (tokenBudget o * 4) ranked
               {| selected := []; charsUsed := 0; seenDomains := ∅ |}).
  assert (Hranked : NoDup (List.map entry ranked)).
  { subst ranked.
    rewrite (Permutation_map entry (Array_sort_Permutation by_score_desc scored)).
    eapply sublist_NoDup; [|apply (scoreCandidates_sublist _ _ _ _ _ Hs)].
    apply selectCandidates_NoDup; assumption. }
  assert (Hin : forall m, In m (List.map entry ranked) -> In m (memories d)).
  { intros m Hm. subst ranked.
    apply (Permutation_in _ (Permutation_map entry
             (Array_sort_Permutation by_score_desc scored))) in Hm.
    apply (sublist_In _ _ _ (scoreCandidates_sublist _ _ _ _ _ Hs)) in Hm.
    apply selectCandidates_active in Hm. apply Hm. }
  destruct (select_loop_sublist o (tokenBudget o * 4) ranked
              {| selected := []; charsUsed := 0; seenDomains := ∅ |})
    as (l & Hl & Hsub).
  fold st in Hl. cbn [selected app] in Hl.
  assert (Hsel : NoDup (List.map (fun r => id (entry r)) (selected st))).
  { rewrite Hl, <- (List.map_map entry id).
    apply NoDup_map_inj_on.
    - eapply sublist_NoDup; [exact Hranked|apply sublist_map, Hsub].
    - intros x y Hx Hy. apply Hinj; apply Hin;
        eapply sublist_In; try apply sublist_map; eassumption. }
  destruct (spread_fill_prefix d (tokenBudget o * 4) st) as [k ->].
  rewrite List.map_app, List.map_map. cbn [as_fill_item entry].
  destruct (spread_neighbours d
              (List.map (fun s => id (entry s)) (selected st)) 8)
    as (_ & Hout & Hnd).
  apply NoDup_app. split; [exact Hsel|]. split.
  - intros i Hi Hi'. rewrite list_elem_of_In in Hi, Hi'.
    apply List.in_map_iff in Hi'. destruct Hi' as (mb & <- & Hmb).
    apply In_take_In in Hmb. apply (Hout mb Hmb). exact Hi.
  - eapply sublist_NoDup; [exact Hnd|]. apply sublist_map, sublist_take.
Qed.

(** X5. When no two rows of [memories] have the same id (it is the
    primary key) and, in domain-hint mode, no hint is given twice,
    [retrieve] returns no id twice: the ranked items are distinct rows,
    and the fill pass adds only ids that were not selected, each once. *)
Theorem retrieve_returns_no_id_twice (d : db) (now : float) (o : options) :
  NoDup (List.map id (memories d)) ->
  (queryEmbedding o = None -> NoDup (domains o)) ->
  exists sel,
    retrieve d now o = Returned sel
    /\ NoDup (List.map (fun r => id (entry r)) sel).
Proof. apply retrieve_ids_NoDup. Qed.

Lemma retrieve_returns_no_id_twice_witness :
  NoDup (List.map id
           (memories (Examples.store [Examples.current; Examples.unrelated])))
  /\ (queryEmbedding (Examples.query 20) = None ->
      NoDup (domains (Examples.query 20)))
  /\ exists sel,
       retrieve (Examples.store [Examples.current; Examples.unrelated]) 0
         (Examples.query 20) = Returned sel
       /\ NoDup (List.map (fun r => id (entry r)) sel).
Proof.
  assert (Hpk : NoDup (List.map id
                  (memories (Examples.store
                               [Examples.current; Examples.unrelated])))).
  { apply NoDup_cons_2; [|apply NoDup_singleton].
    rewrite list_elem_of_In. intros [Heq|[]]. discriminate Heq. }
  assert (Hhints : queryEmbedding (Examples.query 20) = None ->
                   NoDup (domains (Examples.query 20)))
    by (intros _; apply NoDup_singleton).
  split; [exact Hpk|]. split; [exact Hhints|].
  apply (retrieve_returns_no_id_twice
           (Examples.store [Examples.current; Examples.unrelated]) 0%float
           (Examples.query 20) Hpk Hhints).
Defined.

(** ** The host plugin *)

Lemma domain_keywords_NoDup : NoDup (List.map fst Plugin.DOMAIN_KEYWORDS).
Proof. apply (bool_decide_unpack _). vm_compute. exact I. Qed.

Lemma domain_score_Some (lower : string) (keywords : list string) :
  forall acc sc,
    fold_left (Plugin.keyword_step lower) keywords acc = Some sc ->
    acc <> None
    \/ exists kw, In kw keywords /\ JS.includes lower kw = true.
Proof.
  induction keywords as [|kw rest IH]; intros acc sc; cbn [fold_left].
  - intros ->. left. discriminate.
  - intros Hfold. destruct (IH _ _ Hfold) as [Hacc|(kw' & Hin & Hinc)].
    + unfold Plugin.keyword_step in Hacc.
      destruct (JS.includes lower kw) eqn:Hkw.
      * right. exists kw. split; [left; reflexivity|exact Hkw].
      * left. exact Hacc.
    + right. exists kw'. split; [right; exact Hin|exact Hinc].
Qed.

Lemma scored_domains_sublist (lower : string) (table : list (string * list string)) :
  sublist
    (List.map fst
       (omap (fun dk => (fun sc => (fst dk, sc))
                          <$> Plugin.domain_score lower (snd dk)) table))
    (List.map fst table).
Proof.
  induction table as [|[dname kws] table IH]; [constructor|].
  cbn [omap list_omap fst snd List.map].
  destruct (Plugin.domain_score lower kws);
    cbn [fmap option_fmap option_map List.map fst];
    [apply sublist_skip|apply sublist_cons]; exact IH.
Qed.

Lemma extract_hints (text : string) :
  (length (Plugin.extractDomainHints text) <= 3)%nat
  /\ NoDup (Plugin.extractDomainHints text)
  /\ forall h, In h (Plugin.extractDomainHints text) ->
       exists keywords kw,
         In (h, keywords) Plugin.DOMAIN_KEYWORDS
         /\ In kw keywords
         /\ JS.includes (JS.toLowerCase text) kw = true.
Proof.
  unfold Plugin.extractDomainHints.
  destruct text as [|c text]; [split; [cbn; lia|split; [constructor|intros h []]]|].
  set (lower := JS.toLowerCase (String c text)).
  assert (Hsub : sublist
            (List.map fst
               (take 3 (JS.Array_sort by_snd_desc (Plugin.scored_domains lower))))
            (List.map fst
               (JS.Array_sort by_snd_desc (Plugin.scored_domains lower))))
    by apply sublist_map, sublist_take.
  assert (Hperm : Permutation
            (List.map fst
               (JS.Array_sort by_snd_desc (Plugin.scored_domains lower)))
            (List.map fst (Plugin.scored_domains lower)))
    by apply Permutation_map, Array_sort_Permutation.
  split; [rewrite length_map, length_take; lia|]. split.
  - eapply sublist_NoDup; [|exact Hsub]. rewrite Hperm.
    eapply sublist_NoDup; [exact domain_keywords_NoDup|].
    apply scored_domains_sublist.
  - intros h Hh. apply (sublist_In _ _ _ Hsub) in Hh.
    apply (Permutation_in _ Hperm) in Hh.
    apply List.in_map_iff in Hh. destruct Hh as ([h' sc] & Hfst & Hin).
    cbn [fst] in Hfst. subst h'.
    unfold Plugin.scored_domains in Hin.
    apply list_elem_of_In, list_elem_of_omap in Hin.
    destruct Hin as ([dname kws] & Htable & Hscore). cbn [fst snd] in Hscore.
    destruct (Plugin.domain_score lower kws) as [sc'|] eqn:Hsc; [|discriminate].
    cbn in Hscore. injection Hscore as -> _.
    destruct (domain_score_Some lower kws None sc' Hsc)
      as [Hnone|(kw & Hkw & Hinc)]; [contradiction|].
    exists kws, kw. split; [apply list_elem_of_In, Htable|]. split; assumption.
Qed.

(** X6. [extractDomainHints] returns at most three domains, no domain
    twice, and each returned domain is a key of the keyword table one of
    whose keywords occurs in the lower-cased text. *)
Theorem extractDomainHints_hints (text : string) :
  (length (Plugin.extractDomainHints text) <= 3)%nat
  /\ NoDup (Plugin.extractDomainHints text)
  /\ forall h, In h (Plugin.extractDomainHints text) ->
       exists keywords kw,
         In (h, keywords) Plugin.DOMAIN_KEYWORDS
         /\ In kw keywords
         /\ JS.includes (JS.toLowerCase text) kw = true.
Proof. apply extract_hints. Qed.

Lemma map_filter_sublist {A B} (f : A -> B) (g : A -> bool) (l : list A) :
  sublist (List.map f (List.filter g l)) (List.map f l).
Proof. apply sublist_map, filter_sublist. Qed.

Lemma bump_ids_sublist (patterns : list retrieved) :
  sublist (Plugin.bump_ids patterns)
          (List.map (fun r => id (entry r)) patterns).
Proof.
  unfold Plugin.bump_ids.
  etransitivity; [apply sublist_take|apply map_filter_sublist].
Qed.

Lemma bump_NoDup (rows : list memory) (ids : list string) (amount now : float) :
  NoDup ids ->
  fst (bumpActivations rows ids amount now)
  = List.map (fun m => if existsb (String.eqb (id m)) ids
                       then bump_row amount now m else m) rows.
Proof.
  intros Hnd. unfold bumpActivations. rewrite bump_fold. cbn [fst].
  apply List.map_ext. intros m.
  rewrite (count_occ_NoDup_existsb ids (id m) Hnd).
  destruct (existsb _ ids); reflexivity.
Qed.

Lemma record_retrieval_rows (d : db) (now : float) (patterns : list retrieved) :
  NoDup (List.map (fun r => id (entry r)) patterns) ->
  memories (Plugin.record_retrieval d now patterns)
  = List.map (fun m => if existsb (String.eqb (id m)) (Plugin.bump_ids patterns)
                       then bump_row 0.5 now m else m) (memories d).
Proof.
  intros Hnd. unfold Plugin.record_retrieval.
  assert (Hids : NoDup (Plugin.bump_ids patterns))
    by (eapply sublist_NoDup; [exact Hnd|apply bump_ids_sublist]).
  destruct (Plugin.bump_ids patterns) as [|i ids] eqn:Hb.
  - cbn. rewrite List.map_id. reflexivity.
  - cbn [length Nat.ltb Nat.leb].
    rewrite <- (bump_NoDup (memories d) (i :: ids) 0.5 now Hids).
    destruct (wireCoOccurrences _ _); reflexivity.
Qed.

Lemma existsb_map_eqb {A} (g : A -> string) (i : string) (l : list A) :
  existsb (String.eqb i) (List.map g l)
  = existsb (fun r => String.eqb (g r) i) l.
Proof.
  induction l as [|x l IH]; [reflexivity|]. cbn [List.map existsb].
  rewrite IH, (String.eqb_sym i (g x)). reflexivity.
Qed.

Lemma retrieve_entries_rows (d : db) (now : float) (o : options) :
  exists sel,
    retrieve d now o = Returned sel
    /\ forall r, In r sel -> In (entry r) (memories d).
Proof.
  destruct (retrieve_shape d now o) as (scored & Hall & [Hnil|Hret]).
  - exists []. split; [exact Hnil|]. intros r [].
  - eexists. split; [exact Hret|].
    set (st := select_loop o (tokenBudget o * 4) scored
                 {| selected := []; charsUsed := 0; seenDomains := ∅ |}).
    destruct (spread_fill_prefix d (tokenBudget o * 4) st) as [k ->].
    assert (Hsel : Forall (fun r => In (entry r) (memories d)) (selected st)).
    { apply select_loop_Forall; [|constructor].
      eapply List.Forall_impl; [|exact Hall].
      intros r (Hin & _). apply selectCandidates_active in Hin. apply Hin. }
    rewrite List.Forall_forall in Hsel.
    intros r Hr. apply List.in_app_iff in Hr. destruct Hr as [Hr|Hr].
    + apply Hsel, Hr.
    + apply List.in_map_iff in Hr. destruct Hr as (mb & <- & Hmb).
      apply In_take_In in Hmb.
      destruct (spread_neighbours d
                  (List.map (fun s => id (entry s)) (selected st)) 8)
        as (_ & Hrows & _).
      apply (Hrows mb Hmb).
Qed.

(** X7. Whatever the prompt and whether or not it could be embedded,
    the handler of [before_agent_start] bumps at most 20 rows, and each
    of them exactly once, when ids are unique in [memories]: the rows
    whose id is that of one of the first 20 returned patterns that have
    a domain and a pattern type end with activation + 0.5,
    retrieval_count + 1 and last_retrieved = now, their other columns
    unchanged; every other row is unchanged. Every bumped row has a
    domain and a pattern type. *)
Theorem before_agent_start_bumps_once (cfg : Plugin.config) (d : db)
    (now later : float) (prompt : string)
    (embedded : option Vec.Float32Array) :
  NoDup (List.map id (memories d)) ->
  let patterns :=
    fst (Plugin.before_agent_start cfg d now later prompt embedded) in
  let after :=
    snd (Plugin.before_agent_start cfg d now later prompt embedded) in
  let chosen :=
    take 20 (List.filter
               (fun r => JS.truthy_str (domain (entry r))
                         && JS.truthy_str (pattern_type (entry r)))
               patterns) in
  Forall2 (fun m m' =>
             if existsb (fun r => String.eqb (id (entry r)) (id m)) chosen
             then bumped 0.5 later m m' else m' = m)
          (memories d) (memories after)
  /\ (length chosen <= 20)%nat
  /\ forall m, In m (memories d) ->
       existsb (fun r => String.eqb (id (entry r)) (id m)) chosen = true ->
       JS.truthy_str (domain m) = true
       /\ JS.truthy_str (pattern_type m) = true.
Proof.
  intros Hpk patterns after chosen.
  assert (Hlen : (length chosen <= 20)%nat)
    by (unfold chosen; rewrite length_take; lia).
  assert (Hnone : chosen = [] ->
            after = d ->
            Forall2 (fun m m' =>
                       if existsb (fun r => String.eqb (id (entry r)) (id m))
                                  chosen
                       then bumped 0.5 later m m' else m' = m)
                    (memories d) (memories after)
            /\ (length chosen <= 20)%nat
            /\ forall m, In m (memories d) ->
                 existsb (fun r => String.eqb (id (entry r)) (id m)) chosen
                 = true ->
                 JS.truthy_str (domain m) = true
                 /\ JS.truthy_str (pattern_type m) = true).
  { intros -> ->. split; [|split; [cbn; lia|]].
    - apply Forall2_same. intros m _. reflexivity.
    - intros m _ H. discriminate H. }
  subst patterns after chosen. unfold Plugin.before_agent_start in *.
  destruct (Plugin.blank prompt); [apply Hnone; reflexivity|].
  destruct (retrieve_ids_NoDup d now
              (Plugin.retrieve_options cfg prompt embedded) Hpk)
    as (sel & Hret & Hnd).
  { intros _. apply extract_hints. }
  destruct (retrieve_entries_rows d now
              (Plugin.retrieve_options cfg prompt embedded))
    as (sel' & Hret' & Hrows).
  rewrite Hret in Hret'. injection Hret' as <-.
  rewrite Hret in *.
  destruct (length sel =? 0)%nat eqn:Hempty.
  { apply Hnone; [|reflexivity]. cbn [fst].
    destruct sel; [reflexivity|discriminate Hempty]. }
  clear Hnone. cbn [fst snd] in *.
  set (chosen := take 20 (List.filter _ sel)) in *.
  assert (Hids : Plugin.bump_ids sel
                 = List.map (fun r => id (entry r)) chosen).
  { unfold Plugin.bump_ids, chosen. apply List.firstn_map. }
  split; [|split; [exact Hlen|]].
  - rewrite (record_retrieval_rows d later sel Hnd), Hids.
    apply Forall2_map_self. intros m _. rewrite existsb_map_eqb.
    destruct (existsb _ chosen); [apply bump_row_bumped|reflexivity].
  - intros m Hm Hex. apply List.existsb_exists in Hex.
    destruct Hex as (r & Hr & Hid). apply String.eqb_eq in Hid.
    apply In_take_In, List.filter_In in Hr. destruct Hr as [Hr Hboth].
    destruct (NoDup_map_inv id (memories d) Hpk) as [_ Hinj].
    assert (entry r = m) by (apply Hinj; [apply Hrows, Hr|exact Hm|exact Hid]).
    subst m. apply andb_true_iff in Hboth. exact Hboth.
Qed.

Lemma before_agent_start_bumps_once_witness :
  NoDup (List.map id
           (memories (Examples.store [Examples.current; Examples.close])))
  /\ (let patterns :=
        fst (Plugin.before_agent_start
               {| Plugin.maxContextTokens := 800;
                  Plugin.maxEntries := 30;
                  Plugin.semanticWeight := 0.6;
                  Plugin.activationWeight := 0.3;
                  Plugin.domainWeight := 0.1 |}
               (Examples.store [Examples.current; Examples.close])
               0 1000 "clone a voice" (Some [1; 0]%float)) in
      let after :=
        snd (Plugin.before_agent_start
               {| Plugin.maxContextTokens := 800;
                  Plugin.maxEntries := 30;
                  Plugin.semanticWeight := 0.6;
                  Plugin.activationWeight := 0.3;
                  Plugin.domainWeight := 0.1 |}
               (Examples.store [Examples.current; Examples.close])
               0 1000 "clone a voice" (Some [1; 0]%float)) in
      let chosen :=
        take 20 (List.filter
                   (fun r => JS.truthy_str (domain (entry r))
                             && JS.truthy_str (pattern_type (entry r)))
                   patterns) in
      Forall2 (fun m m' =>
                 if existsb (fun r => String.eqb (id (entry r)) (id m)) chosen
                 then bumped 0.5 1000 m m' else m' = m)
              (memories (Examples.store [Examples.current; Examples.close]))
              (memories after)
      /\ (length chosen <= 20)%nat
      /\ forall m,
           In m (memories (Examples.store [Examples.current; Examples.close])) ->
           existsb (fun r => String.eqb (id (entry r)) (id m)) chosen = true ->
           JS.truthy_str (domain m) = true
           /\ JS.truthy_str (pattern_type m) = true)
  /\ List.map (fun r => id (entry r))
       (fst (Plugin.before_agent_start
               {| Plugin.maxContextTokens := 800;
                  Plugin.maxEntries := 30;
                  Plugin.semanticWeight := 0.6;
                  Plugin.activationWeight := 0.3;
                  Plugin.domainWeight := 0.1 |}
               (Examples.store [Examples.current; Examples.close])
               0 1000 "clone a voice" (Some [1; 0]%float)))
     = ["tts:atomic:a"; "tts:atomic:b"]%string
  /\ List.map (fun m => (activation m, retrieval_count m, last_retrieved m))
       (memories
          (snd (Plugin.before_agent_start
                  {| Plugin.maxContextTokens := 800;
                     Plugin.maxEntries := 30;
                     Plugin.semanticWeight := 0.6;
                     Plugin.activationWeight := 0.3;
                     Plugin.domainWeight := 0.1 |}
                  (Examples.store [Examples.current; Examples.close])
                  0 1000 "clone a voice" (Some [1; 0]%float))))
     = [(Some 1.5%float, 2%Z, Some 1000%float);
        (Some 1.5%float, 2%Z, Some 1000%float)].
Proof.
  assert (Hpk : NoDup (List.map id
                  (memories (Examples.store
                               [Examples.current; Examples.close])))).
  { apply NoDup_cons_2; [|apply NoDup_singleton].
    rewrite list_elem_of_In. intros [Heq|[]]. discriminate Heq. }
  split; [exact Hpk|]. split.
  - apply (before_agent_start_bumps_once
             {| Plugin.maxContextTokens := 800;
                Plugin.maxEntries := 30;
                Plugin.semanticWeight := 0.6;
                Plugin.activationWeight := 0.3;
                Plugin.domainWeight := 0.1 |}
             (Examples.store [Examples.current; Examples.close])
             0%float 1000%float "clone a voice"%string (Some [1; 0]%float) Hpk).
  - split; vm_compute; reflexivity.
Defined.

Lemma tool_domains_small :
  Forall (fun td => NoDup (snd td) /\ (length (snd td) <= 2)%nat)
         Plugin.TOOL_DOMAIN_MAP.
Proof.
  repeat (apply List.Forall_cons;
          [split; [apply (bool_decide_unpack _); vm_compute; exact I
                  |cbn; lia]|]).
  apply List.Forall_nil.
Qed.

Lemma top_of_domain_In (rows : list memory) (dname i : string) :
  In i (Plugin.top_of_domain rows dname) ->
  exists m, In m rows /\ id m = i /\ domain m = Some dname.
Proof.
  unfold Plugin.top_of_domain. rewrite List.in_map_iff.
  intros (m & Hid & Hin). apply In_take_In in Hin.
  rewrite order_by_activation_desc_In, List.filter_In in Hin.
  destruct Hin as [Hin Hdom]. exists m. split; [exact Hin|]. split; [exact Hid|].
  unfold domain_is in Hdom. destruct (domain m) as [s|]; [|discriminate].
  apply String.eqb_eq in Hdom. congruence.
Qed.

Lemma top_of_domain_NoDup (rows : list memory) (dname : string) :
  NoDup (List.map id rows) -> NoDup (Plugin.top_of_domain rows dname).
Proof.
  intros Hpk. destruct (NoDup_map_inv id rows Hpk) as [Hrows Hinj].
  unfold Plugin.top_of_domain.
  assert (Hsub : forall m,
             In m (take 5 (order_by_activation_desc
                             (List.filter (domain_is dname) rows))) ->
             In m rows).
  { intros m Hm. apply In_take_In in Hm.
    rewrite order_by_activation_desc_In, List.filter_In in Hm. apply Hm. }
  apply NoDup_map_inj_on.
  - eapply sublist_NoDup; [|apply sublist_take].
    rewrite order_by_activation_desc_Permutation.
    eapply sublist_NoDup; [exact Hrows|apply filter_sublist].
  - intros x y Hx Hy. apply Hinj; apply Hsub; assumption.
Qed.

Lemma flat_map_top_NoDup (rows : list memory) (ds : list string) :
  NoDup (List.map id rows) -> NoDup ds ->
  NoDup (flat_map (Plugin.top_of_domain rows) ds).
Proof.
  intros Hpk. destruct (NoDup_map_inv id rows Hpk) as [_ Hinj].
  induction 1 as [|dname ds Hd _ IH]; cbn; [constructor|].
  apply NoDup_app. split; [apply top_of_domain_NoDup, Hpk|]. split; [|exact IH].
  intros i Hi Hi'. rewrite list_elem_of_In in Hi, Hi'.
  apply top_of_domain_In in Hi. destruct Hi as (m & Hm & Hid & Hdom).
  apply List.in_flat_map in Hi'. destruct Hi' as (d' & Hd' & Hi').
  apply top_of_domain_In in Hi'. destruct Hi' as (m' & Hm' & Hid' & Hdom').
  assert (m = m') by (apply Hinj; congruence). subst m'.
  apply Hd. rewrite list_elem_of_In. congruence.
Qed.

Lemma flat_map_top_length (rows : list memory) (ds : list string) :
  (length (flat_map (Plugin.top_of_domain rows) ds) <= 5 * length ds)%nat.
Proof.
  induction ds as [|dname ds IH]; cbn [flat_map length]; [lia|].
  rewrite length_app. unfold Plugin.top_of_domain at 1.
  rewrite length_map, length_take. lia.
Qed.

(** The order of activations without NaN is transitive. *)
Lemma SFcompare_key (x y : spec_float) :
  x <> S754_nan -> y <> S754_nan ->
  SFcompare x y = Some Lt <-> key_lt (sf_key x) (sf_key y).
Proof.
  intros Hx Hy.
  destruct x as [sx|sx| |sx mx ex]; [| |contradiction|];
    (destruct y as [sy|sy| |sy my ey]; [| |contradiction|]);
    clear Hx Hy; cbn [SFcompare sf_key key_lt];
    try destruct sx; try destruct sy; cbn [key_lt];
    try (destruct (Z.compare_spec ex ey) as [Hz|Hz|Hz]);
    try (change (PosDef.Pos.compare_cont Eq mx my) with (Pos.compare mx my);
         destruct (Pos.compare_spec mx my) as [Hp|Hp|Hp]);
    cbn [CompOpp]; split; intros H; try discriminate H; try reflexivity; lia.
Qed.

Lemma is_nan_Prim2SF (a : float) :
  PrimFloat.is_nan a = false -> Prim2SF a <> S754_nan.
Proof.
  unfold PrimFloat.is_nan. rewrite FloatAxioms.eqb_spec. unfold SFeqb.
  intros H E. rewrite E in H. discriminate H.
Qed.

Lemma float_ltb_false_trans (a b c : float) :
  PrimFloat.is_nan a = false -> PrimFloat.is_nan b = false ->
  PrimFloat.is_nan c = false ->
  (a <? b)%float = false -> (b <? c)%float = false -> (a <? c)%float = false.
Proof.
  intros Ha Hb Hc. apply is_nan_Prim2SF in Ha, Hb, Hc.
  rewrite !FloatAxioms.ltb_spec. unfold SFltb.
  pose proof (SFcompare_key _ _ Ha Hb) as Hab.
  pose proof (SFcompare_key _ _ Hb Hc) as Hbc.
  pose proof (SFcompare_key _ _ Ha Hc) as Hac.
  intros H1 H2.
  assert (N1 : ~ key_lt (sf_key (Prim2SF a)) (sf_key (Prim2SF b))).
  { intros K. apply Hab in K. rewrite K in H1. discriminate. }
  assert (N2 : ~ key_lt (sf_key (Prim2SF b)) (sf_key (Prim2SF c))).
  { intros K. apply Hbc in K. rewrite K in H2. discriminate. }
  destruct (SFcompare (Prim2SF a) (Prim2SF c)) as [[]|] eqn:E; try reflexivity.
  exfalso. pose proof (proj1 Hac eq_refl) as K. clear Hab Hbc Hac E H1 H2.
  destruct (sf_key (Prim2SF a)) as [[a1 a2] a3],
           (sf_key (Prim2SF b)) as [[b1 b2] b3],
           (sf_key (Prim2SF c)) as [[c1 c2] c3].
  unfold key_lt in *. lia.
Qed.

Lemma sql_lt_false_trans (x y z : option float) :
  (forall a, x = Some a -> PrimFloat.is_nan a = false) ->
  (forall a, y = Some a -> PrimFloat.is_nan a = false) ->
  (forall a, z = Some a -> PrimFloat.is_nan a = false) ->
  sql_lt x y = false -> sql_lt y z = false -> sql_lt x z = false.
Proof.
  intros Hx Hy Hz. destruct x as [a|], y as [b|], z as [c|]; cbn;
    try discriminate; try reflexivity.
  apply float_ltb_false_trans; eauto.
Qed.

Lemma descending_tail (x : memory) (l : list memory) :
  descending (x :: l) -> descending l.
Proof. destruct l as [|y l]; [intros _; exact I|intros [_ H]; exact H]. Qed.

Lemma descending_head (x : memory) (l : list memory) :
  no_nan_activation (x :: l) -> descending (x :: l) ->
  forall y, In y l -> sql_lt (activation x) (activation y) = false.
Proof.
  revert x. induction l as [|y l IH]; intros x Hnan Hd z Hz; [destruct Hz|].
  destruct Hd as [Hxy Hd]. destruct Hz as [<-|Hz]; [exact Hxy|].
  apply (sql_lt_false_trans _ (activation y)).
  - intros a Ha. apply (Hnan x a); [left; reflexivity|exact Ha].
  - intros a Ha. apply (Hnan y a); [right; left; reflexivity|exact Ha].
  - intros a Ha. apply (Hnan z a); [right; right; exact Hz|exact Ha].
  - exact Hxy.
  - apply IH; [|exact Hd|exact Hz].
    intros m a Hm. apply Hnan. right. exact Hm.
Qed.

Lemma descending_split (l1 l2 : list memory) :
  no_nan_activation (l1 ++ l2) -> descending (l1 ++ l2) ->
  forall m m', In m l1 -> In m' l2 ->
               sql_lt (activation m) (activation m') = false.
Proof.
  induction l1 as [|x l1 IH]; intros Hnan Hd m m' Hm Hm'; [destruct Hm|].
  destruct Hm as [<-|Hm].
  - apply (descending_head x (l1 ++ l2) Hnan Hd).
    apply List.in_app_iff. right. exact Hm'.
  - apply IH; try assumption.
    + intros r a Hr. apply Hnan. right. exact Hr.
    + exact (descending_tail x (l1 ++ l2) Hd).
Qed.

Lemma highest_take (n : nat) (pool : list memory) :
  no_nan_activation pool ->
  highest n pool (take n (order_by_activation_desc pool)).
Proof.
  intros Hnan. exists (drop n (order_by_activation_desc pool)).
  split; [|split].
  - rewrite take_drop. apply order_by_activation_desc_Permutation.
  - rewrite length_take.
    rewrite (Permutation_length (order_by_activation_desc_Permutation pool)).
    reflexivity.
  - apply descending_split.
    + rewrite take_drop. intros m a Hm.
      apply Hnan, order_by_activation_desc_In, Hm.
    + rewrite take_drop. apply order_by_activation_desc_descending.
Qed.

(** X8. The handler of [after_tool_call] leaves the table unchanged for
    a tool that the tool map does not name. For a mapped tool, when ids
    are unique and no activation is NaN, it bumps each of at most ten
    rows exactly once by 0.3 (activation + 0.3, retrieval_count + 1,
    last_retrieved = now, the other columns unchanged) and leaves every
    other row unchanged: the bumped rows are, for each domain of the
    tool, five rows of that domain of highest activation (all its rows
    when it has fewer), whatever their status. *)
Theorem after_tool_call_bumps_top_rows (rows : list memory) (now : float)
    (toolName : string) :
  NoDup (List.map id rows) ->
  no_nan_activation rows ->
  match List.find (fun td => String.eqb (fst td) toolName)
                  Plugin.TOOL_DOMAIN_MAP with
  | None => Plugin.after_tool_call rows now toolName = rows
  | Some td =>
      exists tops : list (list memory),
        Forall2 (fun dname top =>
                   highest 5
                     (List.filter
                        (fun m => bool_decide (domain m = Some dname)) rows)
                     top)
                (snd td) tops
        /\ (length (concat tops) <= 10)%nat
        /\ Forall2 (fun m m' =>
                      if existsb (fun t => String.eqb (id t) (id m))
                                 (concat tops)
                      then bumped 0.3 now m m' else m' = m)
                   rows (Plugin.after_tool_call rows now toolName)
  end.
Proof.
  intros Hpk Hnan. unfold Plugin.after_tool_call.
  destruct (List.find _ Plugin.TOOL_DOMAIN_MAP) as [td|] eqn:Hfind;
    [|reflexivity].
  apply List.find_some in Hfind. destruct Hfind as [Htd _].
  pose proof tool_domains_small as Hsmall.
  rewrite List.Forall_forall in Hsmall.
  destruct (Hsmall td Htd) as [Hnd Hlen].
  set (top_rows := fun dname =>
         take 5 (order_by_activation_desc
                   (List.filter (domain_is dname) rows))).
  assert (Hids : flat_map (Plugin.top_of_domain rows) (snd td)
                 = List.map id (concat (List.map top_rows (snd td)))).
  { clear. induction (snd td) as [|dname ds IH]; [reflexivity|].
    cbn [flat_map List.map concat]. rewrite List.map_app, IH. reflexivity. }
  exists (List.map top_rows (snd td)). split; [|split].
  - apply Forall2_map_self. intros dname _.
    assert (Hpool : List.filter
                      (fun m => bool_decide (domain m = Some dname)) rows
                    = List.filter (domain_is dname) rows).
    { apply List.filter_ext. intros m. unfold domain_is.
      destruct (domain m) as [s|].
      - destruct (String.eqb_spec s dname) as [->|Hne].
        + apply bool_decide_eq_true_2. reflexivity.
        + apply bool_decide_eq_false_2. congruence.
      - apply bool_decide_eq_false_2. discriminate. }
    rewrite Hpool. apply highest_take.
    intros m a Hm. apply Hnan. apply List.filter_In in Hm. apply Hm.
  - rewrite <- (List.length_map id), <- Hids.
    pose proof (flat_map_top_length rows (snd td)). lia.
  - assert (Hndids : NoDup (List.map id (concat (List.map top_rows (snd td)))))
      by (rewrite <- Hids; apply flat_map_top_NoDup; assumption).
    rewrite Hids.
    destruct (0 <? length (List.map id (concat (List.map top_rows (snd td)))))%nat
      eqn:Hpos.
    + rewrite (bump_NoDup _ _ _ _ Hndids).
      apply Forall2_map_self. intros m _. rewrite existsb_map_eqb.
      destruct (existsb _ _); [apply bump_row_bumped|reflexivity].
    + apply Forall2_same. intros m _.
      destruct (concat (List.map top_rows (snd td))); [reflexivity|].
      discriminate Hpos.
Qed.

Lemma after_tool_call_bumps_top_rows_witness :
  NoDup (List.map id [Examples.current; Examples.negative; Examples.plain])
  /\ no_nan_activation [Examples.current; Examples.negative; Examples.plain]
  /\ (exists tops : list (list memory),
        Forall2 (fun dname top =>
                   highest 5
                     (List.filter
                        (fun m => bool_decide (domain m = Some dname))
                        [Examples.current; Examples.negative; Examples.plain])
                     top)
                ["tts"%string] tops
        /\ (length (concat tops) <= 10)%nat
        /\ Forall2 (fun m m' =>
                      if existsb (fun t => String.eqb (id t) (id m))
                                 (concat tops)
                      then bumped 0.3 5 m m' else m' = m)
                   [Examples.current; Examples.negative; Examples.plain]
                   (Plugin.after_tool_call
                      [Examples.current; Examples.negative; Examples.plain]
                      5 "tts"))
  /\ List.map (fun m => (activation m, retrieval_count m, last_retrieved m))
       (Plugin.after_tool_call
          [Examples.current; Examples.negative; Examples.plain] 5 "tts")
     = [(Some (1 + 0.3)%float, 2%Z, Some 5%float);
        (Some (-1 + 0.3)%float, 2%Z, Some 5%float);
        (Some (1 + 0.3)%float, 2%Z, Some 5%float)].
Proof.
  assert (Hpk : NoDup (List.map id
                  [Examples.current; Examples.negative; Examples.plain])).
  { cbn [List.map]. apply (bool_decide_unpack _). vm_compute. exact I. }
  assert (Hnan : no_nan_activation
                   [Examples.current; Examples.negative; Examples.plain]).
  { intros m a [<-|[<-|[<-|[]]]] [= <-]; reflexivity. }
  split; [exact Hpk|]. split; [exact Hnan|]. split.
  - apply (after_tool_call_bumps_top_rows
             [Examples.current; Examples.negative; Examples.plain]
             5%float "tts"%string Hpk Hnan).
  - vm_compute. reflexivity.
Defined.

(** ** What wiring adds *)

Lemma insert_both_lookup (g : gmap (string * string) float) (a b x y : string) :
  a <> b ->
  insertCoOcc b a 1 (insertCoOcc a b 1 g) !! (x, y)
  = if (String.eqb x a && String.eqb y b) || (String.eqb x b && String.eqb y a)
    then incr (g !! (x, y)) else g !! (x, y).
Proof.
  intros Hab. unfold insertCoOcc, incr. rewrite !lookup_insert.
  destruct (String.eqb_spec x a), (String.eqb_spec y b),
           (String.eqb_spec x b), (String.eqb_spec y a);
    cbn [andb orb]; repeat case_decide; simplify_eq;
    try reflexivity; congruence.
Qed.

Lemma listed_In (i : string) (ids : list string) :
  listed i ids = true <-> In i ids.
Proof. apply existsb_eqb_In. Qed.

Lemma listed_false (i : string) (ids : list string) :
  ~ In i ids -> listed i ids = false.
Proof.
  intros Hout. destruct (listed i ids) eqn:Hl; [|reflexivity].
  apply listed_In in Hl. contradiction.
Qed.

Lemma wire_from_lookup (a : string) (rest : list string) :
  forall g, ~ In a rest -> NoDup rest ->
  forall x y,
    wire_from a rest g !! (x, y)
    = if (String.eqb x a && listed y rest) || (String.eqb y a && listed x rest)
      then incr (g !! (x, y)) else g !! (x, y).
Proof.
  induction rest as [|b rest IH]; intros g Ha Hnd x y.
  - cbn. rewrite !andb_false_r. reflexivity.
  - apply NoDup_cons in Hnd. destruct Hnd as [Hb Hnd].
    rewrite list_elem_of_In in Hb.
    assert (Hab : a <> b) by (intros ->; apply Ha; left; reflexivity).
    assert (Ha' : ~ In a rest) by (intros H; apply Ha; right; exact H).
    unfold wire_from. cbn [fold_left].
    change (fold_left _ rest ?g0) with (wire_from a rest g0).
    rewrite (IH _ Ha' Hnd), insert_both_lookup by exact Hab.
    change (listed y (b :: rest)) with (String.eqb y b || listed y rest).
    change (listed x (b :: rest)) with (String.eqb x b || listed x rest).
    pose proof (listed_false b rest Hb) as Hlb.
    pose proof (listed_false a rest Ha') as Hla.
    destruct (String.eqb_spec x a), (String.eqb_spec y b),
             (String.eqb_spec x b), (String.eqb_spec y a);
      subst; rewrite ?Hlb, ?Hla; cbn [andb orb];
      try congruence; try reflexivity;
      repeat match goal with
             | |- context [listed ?i rest] => destruct (listed i rest)
             end; reflexivity.
Qed.

Lemma wire_pairs_lookup (l : list string) :
  forall g, NoDup l ->
  forall x y,
    wire_pairs l g !! (x, y)
    = if negb (String.eqb x y) && listed x l && listed y l
      then incr (g !! (x, y)) else g !! (x, y).
Proof.
  induction l as [|a rest IH]; intros g Hnd x y; cbn [wire_pairs].
  - cbn. rewrite andb_false_r. reflexivity.
  - apply NoDup_cons in Hnd. destruct Hnd as [Ha Hnd].
    rewrite list_elem_of_In in Ha.
    rewrite (IH _ Hnd), (wire_from_lookup a rest g Ha Hnd).
    change (listed x (a :: rest)) with (String.eqb x a || listed x rest).
    change (listed y (a :: rest)) with (String.eqb y a || listed y rest).
    pose proof (listed_false a rest Ha) as Hla.
    destruct (String.eqb_spec x a), (String.eqb_spec y a),
             (String.eqb_spec x y);
      subst; rewrite ?Hla; cbn [andb orb negb];
      try congruence; try reflexivity;
      repeat match goal with
             | |- context [listed ?i rest] => destruct (listed i rest)
             end; reflexivity.
Qed.

Lemma wire_pairs_short (l : list string) (g : gmap (string * string) float) :
  (length l < 2)%nat -> wire_pairs l g = g.
Proof.
  destruct l as [|a [|b l]]; cbn [length]; intros H; try reflexivity; lia.
Qed.

Lemma same_group_false (groups : list (string * list string)) (a b : string) :
  (forall grp, In grp groups -> ~ In a (snd grp)) ->
  same_group groups a b = false.
Proof.
  intros Hout. unfold same_group.
  destruct (existsb _ groups) eqn:He; [|reflexivity].
  apply List.existsb_exists in He. destruct He as (grp & Hin & Hboth).
  apply andb_true_iff in Hboth. destruct Hboth as [Ha _].
  apply listed_In in Ha. exfalso. exact (Hout grp Hin Ha).
Qed.

Lemma wire_groups_lookup (groups : list (string * list string)) :
  forall g, NoDup (concat (List.map snd groups)) ->
  forall x y,
    wire_groups groups g !! (x, y)
    = if negb (String.eqb x y) && same_group groups x y
      then incr (g !! (x, y)) else g !! (x, y).
Proof.
  induction groups as [|[dom l] groups IH]; intros g Hnd x y.
  - cbn. rewrite andb_false_r. reflexivity.
  - cbn [List.map snd concat] in Hnd. apply NoDup_app in Hnd.
    destruct Hnd as (Hl & Hdisj & Hrest).
    unfold wire_groups. cbn [fold_left snd].
    change (fold_left _ groups ?g0) with (wire_groups groups g0).
    rewrite (IH _ Hrest).
    assert (Hstep : (if (length l <? 2)%nat then g else wire_pairs l g)
                    = wire_pairs l g).
    { destruct (Nat.ltb_spec (length l) 2) as [Hshort|_]; [|reflexivity].
      symmetry. apply wire_pairs_short, Hshort. }
    rewrite Hstep, (wire_pairs_lookup l g Hl).
    unfold same_group. cbn [existsb snd].
    fold (same_group groups x y).
    destruct (listed x l) eqn:Hx.
    + assert (Hout : same_group groups x y = false).
      { apply same_group_false. intros grp Hgrp Hin.
        apply listed_In in Hx.
        apply (Hdisj x); rewrite list_elem_of_In; [exact Hx|].
        apply List.in_concat. exists (snd grp).
        split; [apply List.in_map, Hgrp|exact Hin]. }
      rewrite Hout. rewrite !andb_false_r, orb_false_r. cbn [andb].
      rewrite andb_true_r. reflexivity.
    + cbn [andb orb]. rewrite andb_false_r. cbn [andb].
      destruct (negb (String.eqb x y) && same_group groups x y); reflexivity.
Qed.

Lemma group_push_keys (d i : string) (groups : list (string * list string)) :
  List.map fst (group_push d i groups)
  = if listed d (List.map fst groups)
    then List.map fst groups else List.map fst groups ++ [d].
Proof.
  induction groups as [|[d' l] groups IH]; [reflexivity|].
  cbn [group_push List.map fst].
  change (listed d (d' :: List.map fst groups))
    with (String.eqb d d' || listed d (List.map fst groups)).
  rewrite (String.eqb_sym d d').
  destruct (String.eqb d' d); [reflexivity|].
  cbn [List.map fst orb]. rewrite IH.
  destruct (listed d (List.map fst groups)); reflexivity.
Qed.

Lemma group_push_concat (d i : string) (groups : list (string * list string)) :
  Permutation (concat (List.map snd (group_push d i groups)))
              (i :: concat (List.map snd groups)).
Proof.
  induction groups as [|[d' l] groups IH]; [reflexivity|].
  cbn [group_push]. destruct (String.eqb d' d); cbn [List.map snd concat].
  - rewrite <- app_assoc. cbn [app].
    rewrite <- Permutation_middle. reflexivity.
  - rewrite IH. rewrite <- Permutation_middle. reflexivity.
Qed.

Lemma group_push_members (d i : string) (groups : list (string * list string))
    (grp : string * list string) (x : string) :
  In grp (group_push d i groups) -> In x (snd grp) ->
  (x = i /\ fst grp = d)
  \/ exists grp0, In grp0 groups /\ fst grp0 = fst grp /\ In x (snd grp0).
Proof.
  induction groups as [|[d' l] groups IH]; cbn [group_push].
  - intros [<-|[]] [<-|[]]. left. split; reflexivity.
  - destruct (String.eqb_spec d' d) as [->|Hne].
    + intros [<-|Hin] Hx; cbn [snd fst] in *.
      * apply List.in_app_iff in Hx. destruct Hx as [Hx|[<-|[]]].
        -- right. exists (d, l). split; [left; reflexivity|]. split; [reflexivity|exact Hx].
        -- left. split; reflexivity.
      * right. exists grp. split; [right; exact Hin|]. split; [reflexivity|exact Hx].
    + intros [<-|Hin] Hx.
      * right. exists (d', l). split; [left; reflexivity|]. split; [reflexivity|exact Hx].
      * destruct (IH Hin Hx) as [Hnew|(grp0 & Hg0 & Hfst & Hx0)]; [left; exact Hnew|].
        right. exists grp0. split; [right; exact Hg0|]. split; assumption.
Qed.

Lemma group_key_exists (rows : list memory) (i : string) :
  id_exists rows i = true <-> exists k, group_key rows i = Some k.
Proof.
  unfold id_exists, group_key. destruct (getMemory rows i); cbn.
  - split; [eauto|reflexivity].
  - split; [discriminate|intros [k Hk]; discriminate].
Qed.

Lemma groupByDomain_groups (rows : list memory) (ids : list string) :
  forall groups seen groups',
    groups_of rows seen groups ->
    groupByDomain rows ids groups = Returned groups' ->
    groups_of rows (seen ++ ids) groups'.
Proof.
  induction ids as [|i ids IH]; intros groups seen groups' Hinv;
    cbn [groupByDomain].
  - intros [= <-]. rewrite app_nil_r. exact Hinv.
  - replace (seen ++ i :: ids) with ((seen ++ [i]) ++ ids)
      by (rewrite <- app_assoc; reflexivity).
    destruct Hinv as (Hkeys & Hmem & Hperm).
    destruct (getMemory rows i) as [mem|] eqn:Hget.
    + destruct (is_inherited _); [discriminate|].
      apply IH. split; [|split].
      * rewrite group_push_keys.
        destruct (listed _ (List.map fst groups)) eqn:Hl; [exact Hkeys|].
        apply NoDup_app. split; [exact Hkeys|]. split; [|apply NoDup_singleton].
        intros k Hk Hk'. rewrite list_elem_of_In in Hk, Hk'.
        destruct Hk' as [<-|[]]. apply listed_In in Hk. congruence.
      * intros grp x Hgrp Hx.
        destruct (group_push_members _ _ _ _ _ Hgrp Hx)
          as [[-> ->]|(grp0 & Hg0 & <- & Hx0)].
        -- unfold group_key. rewrite Hget. reflexivity.
        -- apply (Hmem grp0 x Hg0 Hx0).
      * rewrite group_push_concat, List.filter_app. cbn [List.filter].
        unfold id_exists at 2. rewrite Hget.
        rewrite <- Permutation_cons_append. apply perm_skip, Hperm.
    + apply IH. split; [exact Hkeys|]. split; [exact Hmem|].
      rewrite List.filter_app. cbn [List.filter].
      unfold id_exists at 2. rewrite Hget, app_nil_r. exact Hperm.
Qed.

Lemma keys_unique_group (groups : list (string * list string))
    (g1 g2 : string * list string) :
  NoDup (List.map fst groups) -> In g1 groups -> In g2 groups ->
  fst g1 = fst g2 -> g1 = g2.
Proof.
  intros Hnd. destruct (NoDup_map_inv fst groups Hnd) as [_ Hinj]. apply Hinj.
Qed.

Lemma same_group_wired (rows : list memory) (ids : list string)
    (groups : list (string * list string)) (a b : string) :
  groups_of rows ids groups ->
  same_group groups a b
  = listed a ids && listed b ids
    && match group_key rows a, group_key rows b with
       | Some ka, Some kb => String.eqb ka kb
       | _, _ => false
       end.
Proof.
  intros (Hkeys & Hmem & Hperm).
  assert (Hin : forall x, (exists grp, In grp groups /\ In x (snd grp))
                          <-> In x ids /\ id_exists rows x = true).
  { intros x. rewrite <- List.filter_In. split.
    - intros (grp & Hgrp & Hx). apply (Permutation_in _ Hperm).
      apply List.in_concat. exists (snd grp).
      split; [apply List.in_map, Hgrp|exact Hx].
    - intros Hx. apply (Permutation_in _ (Permutation_sym Hperm)) in Hx.
      apply List.in_concat in Hx. destruct Hx as (l & Hl & Hx).
      apply List.in_map_iff in Hl. destruct Hl as (grp & <- & Hgrp). eauto. }
  apply Bool.eq_iff_eq_true. unfold same_group.
  rewrite List.existsb_exists, !andb_true_iff, !listed_In. split.
  - intros (grp & Hgrp & Hboth). apply andb_true_iff in Hboth.
    destruct Hboth as [Ha Hb]. apply listed_In in Ha, Hb.
    rewrite (Hmem grp a Hgrp Ha), (Hmem grp b Hgrp Hb), String.eqb_refl.
    split; [|reflexivity].
    split; [apply (Hin a)|apply (Hin b)]; eauto.
  - intros [[Ha Hb] Hkey].
    destruct (group_key rows a) as [ka|] eqn:Hka; [|discriminate].
    destruct (group_key rows b) as [kb|] eqn:Hkb; [|discriminate].
    apply String.eqb_eq in Hkey. subst kb.
    destruct (proj2 (Hin a)) as (ga & Hga & Hxa).
    { split; [exact Ha|]. apply group_key_exists. eauto. }
    destruct (proj2 (Hin b)) as (gb & Hgb & Hxb).
    { split; [exact Hb|]. apply group_key_exists. eauto. }
    assert (ga = gb).
    { apply (keys_unique_group groups); try assumption.
      pose proof (Hmem ga a Hga Hxa). pose proof (Hmem gb b Hgb Hxb). congruence. }
    subst gb. exists ga. split; [exact Hga|].
    apply andb_true_iff. split; apply listed_In; assumption.
Qed.

Lemma wire_adds_one (d : db) (ids : list string)
    (g' : gmap (string * string) float) :
  NoDup ids ->
  wireCoOccurrences d ids = Returned g' ->
  forall a b,
    g' !! (a, b)
    = if wired_pair (memories d) ids a b
      then incr (co_occurrences d !! (a, b)) else co_occurrences d !! (a, b).
Proof.
  intros Hnd. unfold wireCoOccurrences.
  destruct (groupByDomain (memories d) ids []) as [groups|e] eqn:Hgroups;
    cbn; [|discriminate].
  intros [= <-] a b.
  assert (Hinv : groups_of (memories d) ids groups).
  { apply (groupByDomain_groups (memories d) ids [] [] groups); [|exact Hgroups].
    split; [constructor|]. split; [intros grp i []|reflexivity]. }
  rewrite wire_groups_lookup.
  - rewrite (same_group_wired _ _ _ a b Hinv). unfold wired_pair.
    rewrite !andb_assoc. reflexivity.
  - destruct Hinv as (_ & _ & Hperm). rewrite Hperm.
    eapply sublist_NoDup; [exact Hnd|apply filter_sublist].
Qed.

(** X9. A call of [wireCoOccurrences] on ids none of which is listed
    twice, when it returns, adds 1 to the weight of the edge [(a, b)]
    (an edge that is absent gets the weight 1) for every two different
    listed ids [a] and [b] that have a row and whose rows have the same
    domain (null or empty counting as "general"), in both directions,
    and changes no other edge: pairs of different domains, ids without
    a row and ids not listed are not wired, and no edge from an id to
    itself is made. *)
Theorem wireCoOccurrences_adds_one (d : db) (ids : list string)
    (g' : gmap (string * string) float) :
  NoDup ids ->
  wireCoOccurrences d ids = Returned g' ->
  forall a b,
    g' !! (a, b)
    = if wired_pair (memories d) ids a b
      then incr (co_occurrences d !! (a, b)) else co_occurrences d !! (a, b).
Proof. apply wire_adds_one. Qed.

Lemma wireCoOccurrences_adds_one_witness :
  NoDup ["tts:atomic:a"; "tts:atomic:b"]%string
  /\ wireCoOccurrences (Examples.store [Examples.current; Examples.close])
       ["tts:atomic:a"; "tts:atomic:b"]%string
     = Returned (<[("tts:atomic:a", "tts:atomic:b")%string := 2%float]>
                   (<[("tts:atomic:b", "tts:atomic:a")%string := 2%float]> ∅))
  /\ (<[("tts:atomic:a", "tts:atomic:b")%string := 2%float]>
        (<[("tts:atomic:b", "tts:atomic:a")%string := 2%float]> ∅
         : gmap (string * string) float))
     !! ("tts:atomic:a", "tts:atomic:b")%string
     = Some 2%float.
Proof.
  assert (Hnd : NoDup ["tts:atomic:a"; "tts:atomic:b"]%string).
  { apply NoDup_cons_2; [|apply NoDup_singleton].
    rewrite list_elem_of_In. intros [Heq|[]]. discriminate Heq. }
  assert (Hwire : wireCoOccurrences
                    (Examples.store [Examples.current; Examples.close])
                    ["tts:atomic:a"; "tts:atomic:b"]%string
                  = Returned
                      (<[("tts:atomic:a", "tts:atomic:b")%string := 2%float]>
                         (<[("tts:atomic:b", "tts:atomic:a")%string := 2%float]>
                            ∅)))
    by (vm_compute; reflexivity).
  split; [exact Hnd|]. split; [exact Hwire|].
  rewrite (wireCoOccurrences_adds_one _ _ _ Hnd Hwire
             "tts:atomic:a" "tts:atomic:b").
  vm_compute. reflexivity.
Defined.

Lemma groupByDomain_throws (rows : list memory) (ids : list string) :
  forall groups,
    (exists e, groupByDomain rows ids groups = Threw e)
    <-> exists i mem,
          In i ids /\ getMemory rows i = Some mem
          /\ is_inherited (JS.str_or (domain mem) "general") = true.
Proof.
  induction ids as [|i ids IH]; intros groups; cbn [groupByDomain].
  - split; [intros [e He]; discriminate|intros (i & mem & [] & _)].
  - destruct (getMemory rows i) as [mem|] eqn:Hget.
    + destruct (is_inherited _) eqn:Hinh.
      * split; [intros _; exists i, mem; auto using in_eq|eauto].
      * rewrite IH. split.
        -- intros (j & m & Hj & Hm & Hi). exists j, m. auto using in_cons.
        -- intros (j & m & [<-|Hj] & Hm & Hi); [congruence|eauto].
    + rewrite IH. split.
      * intros (j & m & Hj & Hm & Hi). exists j, m. auto using in_cons.
      * intros (j & m & [<-|Hj] & Hm & Hi); [congruence|eauto].
Qed.

(** X10. [wireCoOccurrences] throws, a TypeError and before any write,
    exactly when a listed id has a row whose domain is the name of a
    property that every object inherits ("constructor", "toString",
    "__proto__", ...): [byDomain[d]] is then the inherited value, which
    has no [push]. In every other case it returns. *)
Theorem wireCoOccurrences_throws_on_inherited_domain (d : db)
    (ids : list string) :
  ((exists e, wireCoOccurrences d ids = Threw e)
   <-> exists i mem,
         In i ids /\ getMemory (memories d) i = Some mem
         /\ is_inherited (JS.str_or (domain mem) "general") = true)
  /\ (forall e, wireCoOccurrences d ids = Threw e -> e = TypeError).
Proof.
  unfold wireCoOccurrences. split.
  - rewrite <- (groupByDomain_throws (memories d) ids []).
    destruct (groupByDomain (memories d) ids []) as [groups|e]; cbn.
    + split; intros [e He]; discriminate.
    + split; intros _; eauto.
  - assert (Hty : forall ids groups e,
               groupByDomain (memories d) ids groups = Threw e -> e = TypeError).
    { clear ids. induction ids as [|i ids IH]; intros groups e;
        cbn [groupByDomain]; [discriminate|].
      destruct (getMemory (memories d) i); [|apply IH].
      destruct (is_inherited _); [intros [= <-]; reflexivity|apply IH]. }
    intros e. destruct (groupByDomain (memories d) ids []) as [groups|e'] eqn:Hg;
      cbn; [discriminate|].
    intros [= <-]. apply (Hty ids [] e' Hg).
Qed.

(** ** More on bumping *)

Lemma iter_bump_row_columns (amount now : float) (k : nat) (m : memory) :
  retrieval_count (Nat.iter k (bump_row amount now) m)
  = (retrieval_count m + Z.of_nat k)%Z
  /\ id (Nat.iter k (bump_row amount now) m) = id m
  /\ title (Nat.iter k (bump_row amount now) m) = title m
  /\ detail (Nat.iter k (bump_row amount now) m) = detail m
  /\ domain (Nat.iter k (bump_row amount now) m) = domain m
  /\ pattern_type (Nat.iter k (bump_row amount now) m) = pattern_type m
  /\ embedding (Nat.iter k (bump_row amount now) m) = embedding m
  /\ status (Nat.iter k (bump_row amount now) m) = status m
  /\ superseded_by (Nat.iter k (bump_row amount now) m) = superseded_by m.
Proof.
  induction k as [|k (Hc & Hrest)].
  - cbn. repeat split. lia.
  - rewrite !Nat.iter_succ.
    cbn [bump_row retrieval_count id title detail domain pattern_type
         embedding status superseded_by].
    split; [rewrite Hc; lia|exact Hrest].
Qed.

Lemma map_iter_column {A} (f : memory -> A) (amount now : float)
    (cnt : memory -> nat) (rows : list memory) :
  (forall k m, f (Nat.iter k (bump_row amount now) m) = f m) ->
  List.map f (List.map (fun m => Nat.iter (cnt m) (bump_row amount now) m) rows)
  = List.map f rows.
Proof.
  intros Hf. rewrite List.map_map. apply List.map_ext. intros m. apply Hf.
Qed.

(** X11. [bumpActivations] adds to the retrieval_count of each row the
    number of times its id is listed, so that no count ever decreases;
    it keeps the rows in place and never changes an id, a title, a
    detail, a domain, a pattern type, an embedding, a status or a
    superseded_by; and it returns at most the number of listed ids. *)
Theorem bumpActivations_counts_and_keeps (rows : list memory)
    (ids : list string) (amount now : float) :
  let after := fst (bumpActivations rows ids amount now) in
  List.map retrieval_count after
  = List.map (fun m => (retrieval_count m
                        + Z.of_nat (count_occ String.string_dec ids (id m)))%Z)
             rows
  /\ List.map id after = List.map id rows
  /\ List.map title after = List.map title rows
  /\ List.map detail after = List.map detail rows
  /\ List.map domain after = List.map domain rows
  /\ List.map pattern_type after = List.map pattern_type rows
  /\ List.map embedding after = List.map embedding rows
  /\ List.map status after = List.map status rows
  /\ List.map superseded_by after = List.map superseded_by rows
  /\ (snd (bumpActivations rows ids amount now) <= length ids)%nat.
Proof.
  cbn zeta. unfold bumpActivations. rewrite bump_fold. cbn [fst snd].
  split.
  { rewrite List.map_map. apply List.map_ext. intros m.
    apply iter_bump_row_columns. }
  repeat (split; [apply map_iter_column; intros k m;
                  apply (iter_bump_row_columns amount now k m)|]).
  cbn [Nat.add].
  induction ids as [|i ids IH]; cbn [List.filter length]; [lia|].
  destruct (id_exists rows i); cbn [length]; lia.
Qed.

(** X12. Bumping a list of ids in one call is bumping its first part
    and then its second part: the tables agree and the counts add up. *)
Theorem bumpActivations_app (rows : list memory) (ids1 ids2 : list string)
    (amount now : float) :
  bumpActivations rows (ids1 ++ ids2) amount now
  = (fst (bumpActivations (fst (bumpActivations rows ids1 amount now))
                          ids2 amount now),
     (snd (bumpActivations rows ids1 amount now)
      + snd (bumpActivations (fst (bumpActivations rows ids1 amount now))
                             ids2 amount now))%nat).
Proof.
  unfold bumpActivations. rewrite fold_left_app.
  destruct (fold_left (bump_step amount now) ids1 (rows, 0%nat))
    as [rows1 n1] eqn:H1.
  cbn [fst snd]. rewrite !bump_fold. cbn [fst snd]. f_equal.
Qed.

(** ** Deprecation is permanent *)

Lemma hidden_map (f : memory -> memory) (rows : list memory) (i : string) :
  (forall m, id (f m) = id m) ->
  (forall m, is_deprecated m = true -> is_deprecated (f m) = true) ->
  hidden rows i -> hidden (List.map f rows) i.
Proof.
  intros Hid Hdep [Hex Hall]. split.
  - rewrite id_exists_map by exact Hid. exact Hex.
  - intros m Hm Hi. apply List.in_map_iff in Hm. destruct Hm as (m0 & <- & Hm0).
    apply Hdep, (Hall m0 Hm0). rewrite <- Hid. exact Hi.
Qed.

Lemma extract_loop_hidden (now : float)
    (atomics : list Ingest.Atomize.atomic) (i : string) :
  forall rows added skipped,
    hidden rows i ->
    hidden (fst (fst (Ingest.Atomize.extract_loop now atomics
                        (rows, added, skipped)))) i.
Proof.
  induction atomics as [|a rest IH]; intros rows added skipped Hh;
    cbn [Ingest.Atomize.extract_loop]; [exact Hh|].
  destruct (id_exists rows _) eqn:Hex; [apply IH, Hh|].
  apply IH. destruct Hh as [Hi Hall].
  set (j := Ingest.Atomize.atomicId _ _) in *.
  assert (Hji : j <> i) by congruence.
  unfold Ingest.upsertMemory. cbn [id Ingest.new_entry]. split.
  - apply id_exists_In. apply id_exists_In in Hi.
    destruct Hi as (m & Hm & Hid). exists m. split; [|exact Hid].
    apply List.in_app_iff. left. apply List.filter_In. split; [exact Hm|].
    rewrite Hid. apply negb_true_iff, String.eqb_neq. congruence.
  - intros m Hm Hid. apply List.in_app_iff in Hm. destruct Hm as [Hm|[<-|[]]].
    + apply List.filter_In in Hm. apply (Hall m); [apply Hm|exact Hid].
    + cbn in Hid. congruence.
Qed.

Lemma upsert_hidden (rows : list memory) (e : memory) (i : string) :
  id e <> i -> hidden rows i -> hidden (Ingest.upsertMemory rows e) i.
Proof.
  intros Hne [Hi Hall]. unfold Ingest.upsertMemory. split.
  - apply id_exists_In. apply id_exists_In in Hi.
    destruct Hi as (m & Hm & Hid). exists m. split; [|exact Hid].
    apply List.in_app_iff. left. apply List.filter_In. split; [exact Hm|].
    rewrite Hid. apply negb_true_iff, String.eqb_neq. congruence.
  - intros m Hm Hid. apply List.in_app_iff in Hm. destruct Hm as [Hm|[<-|[]]].
    + apply List.filter_In in Hm. apply (Hall m); [apply Hm|exact Hid].
    + cbn in Hid. congruence.
Qed.

Lemma engine_write_hidden (rows rows' : list memory) (i : string) :
  Supervision.engine_write rows rows' -> hidden rows i -> hidden rows' i.
Proof.
  intros Hstep Hh. destruct Hstep as [rows ids amount now|rows factor
                                     |rows rows' oldId newId n Hdep
                                     |rows now atomics
                                     |rows j blob
                                     |rows e Hlive].
  - unfold bumpActivations. rewrite bump_fold. cbn [fst].
    apply hidden_map; [| |exact Hh]; intros m;
      pose proof (iter_bump_row_columns amount now
                    (count_occ String.string_dec ids (id m)) m)
        as (_ & Hid & _ & _ & _ & _ & _ & Hst & _); [exact Hid|].
    unfold is_deprecated. rewrite Hst. tauto.
  - cbn [Supervision.decayAll fst].
    apply hidden_map; [reflexivity|intros m H; exact H|exact Hh].
  - unfold Supervision.deprecateMemory in Hdep.
    destruct (_ && _); [discriminate|]. injection Hdep as <- _.
    apply hidden_map; [| |exact Hh]; intros m;
      destruct (String.eqb (id m) oldId); reflexivity || tauto.
  - apply extract_loop_hidden, Hh.
  - unfold Supervision.setEmbedding.
    apply hidden_map; [| |exact Hh]; intros m;
      destruct (String.eqb (id m) j); reflexivity || tauto.
  - apply upsert_hidden; [|exact Hh]. intros Heq.
    destruct Hh as [Hex Hall]. apply id_exists_In in Hex.
    destruct Hex as (m & Hm & Hid).
    specialize (Hall m Hm Hid). rewrite (Hlive m Hm) in Hall by congruence.
    discriminate Hall.
Qed.

Lemma deprecateMemory_hides (rows rows' : list memory) (oldId newId : string)
    (changes : nat) :
  Supervision.deprecateMemory rows oldId newId
  = Supervision.Done (rows', changes) ->
  (0 < changes)%nat ->
  hidden rows' oldId.
Proof.
  unfold Supervision.deprecateMemory. destruct (_ && _); [discriminate|].
  intros [= <- <-] Hfound. split.
  - rewrite id_exists_map
      by (intros m; destruct (String.eqb (id m) oldId); reflexivity).
    rewrite <- changes_positive. apply Nat.ltb_lt, Hfound.
  - intros m Hm Hid. apply List.in_map_iff in Hm.
    destruct Hm as (m0 & <- & _).
    destruct (String.eqb_spec (id m0) oldId) as [_|Hne]; [reflexivity|].
    contradiction.
Qed.

(** X13. Deprecation is permanent and hides the row from ranking. Once
    [deprecateMemory] has changed a row with id [oldId] (it returned and
    [changes > 0]), then after any further bumps, decays, deprecations,
    embedding updates, extract loops of the atomizer and upserts under
    ids whose rows are not deprecated, in any order, no call of
    [retrieve] returns a ranked item with that id: none of these writes
    makes the row active again, the atomizer skipping an id that has a
    row. *)
Theorem deprecated_row_is_never_ranked_again (rows rows1 rows2 : list memory)
    (oldId newId : string) (changes : nat)
    (g : gmap (string * string) float) (now : float) (o : options) :
  Supervision.deprecateMemory rows oldId newId
  = Supervision.Done (rows1, changes) ->
  (0 < changes)%nat ->
  rtc Supervision.engine_write rows1 rows2 ->
  exists sel,
    retrieve {| memories := rows2; co_occurrences := g |} now o = Returned sel
    /\ forall r, In r sel -> spreadingActivation r = false ->
         id (entry r) <> oldId.
Proof.
  intros Hdep Hfound Hsteps.
  assert (Hh : hidden rows2 oldId).
  { pose proof (deprecateMemory_hides _ _ _ _ _ Hdep Hfound) as H1.
    clear Hdep. induction Hsteps as [rows1|rows1 rowsm rows2 Hstep _ IH].
    - exact H1.
    - apply IH. eapply engine_write_hidden; [exact Hstep|exact H1]. }
  destruct (scored_items_active {| memories := rows2; co_occurrences := g |}
              now o) as (sel & Hret & Hact).
  exists sel. split; [exact Hret|].
  intros r Hr Hns Hid. destruct (Hact r Hr Hns) as (Hin & _ & Hnd).
  destruct Hh as [_ Hall]. cbn [memories] in Hin.
  rewrite (Hall (entry r) Hin Hid) in Hnd. discriminate.
Qed.

Lemma deprecated_row_is_never_ranked_again_witness :
  Supervision.deprecateMemory [Examples.current; Examples.close]
    "tts:atomic:b" "tts:atomic:a"
  = Supervision.Done
      ([Examples.current;
        Supervision.deprecate_row "tts:atomic:a" Examples.close], 1%nat)
  /\ (0 < 1)%nat
  /\ rtc Supervision.engine_write
       [Examples.current;
        Supervision.deprecate_row "tts:atomic:a" Examples.close]
       (fst (bumpActivations
               [Examples.current;
                Supervision.deprecate_row "tts:atomic:a" Examples.close]
               ["tts:atomic:b"]%string 0.5 1000))
  /\ exists sel,
       retrieve
         {| memories :=
              fst (bumpActivations
                     [Examples.current;
                      Supervision.deprecate_row "tts:atomic:a" Examples.close]
                     ["tts:atomic:b"]%string 0.5 1000);
            co_occurrences := Examples.wired |}
         0 (Examples.query 20) = Returned sel
       /\ forall r, In r sel -> spreadingActivation r = false ->
            id (entry r) <> "tts:atomic:b"%string.
Proof.
  assert (Hdep : Supervision.deprecateMemory
                   [Examples.current; Examples.close]
                   "tts:atomic:b" "tts:atomic:a"
                 = Supervision.Done
                     ([Examples.current;
                       Supervision.deprecate_row "tts:atomic:a" Examples.close],
                      1%nat))
    by reflexivity.
  assert (Hpos : (0 < 1)%nat) by lia.
  assert (Hsteps : rtc Supervision.engine_write
                     [Examples.current;
                      Supervision.deprecate_row "tts:atomic:a" Examples.close]
                     (fst (bumpActivations
                             [Examples.current;
                              Supervision.deprecate_row "tts:atomic:a"
                                Examples.close]
                             ["tts:atomic:b"]%string 0.5 1000)))
    by (apply rtc_once, Supervision.write_bump).
  split; [exact Hdep|]. split; [exact Hpos|]. split; [exact Hsteps|].
  apply (deprecated_row_is_never_ranked_again _ _ _ _ _ _ Examples.wired
           0%float (Examples.query 20) Hdep Hpos Hsteps).
Defined.

(** ** Ingestion *)

Lemma upsert_absent (rows : list memory) (e : memory) :
  id_exists rows (id e) = false ->
  Ingest.upsertMemory rows e = rows ++ [Ingest.upsert_row e].
Proof.
  intros Habs. unfold Ingest.upsertMemory. f_equal.
  induction rows as [|m rows IH]; [reflexivity|].
  unfold id_exists, getMemory in Habs. cbn [List.find] in Habs.
  cbn [List.filter].
  destruct (String.eqb (id m) (id e)); [discriminate|].
  cbn [negb]. f_equal. apply IH. exact Habs.
Qed.

Lemma id_exists_app (rows new : list memory) (i : string) :
  id_exists (rows ++ new) i = id_exists rows i || id_exists new i.
Proof.
  unfold id_exists, getMemory. induction rows as [|m rows IH]; cbn.
  - reflexivity.
  - destruct (String.eqb (id m) i); [reflexivity|exact IH].
Qed.

(** The atomizer loop appends: the table it leaves is the table it found,
    followed by one new row for each candidate it added. *)
Lemma extract_loop_appends (now : float)
    (atomics : list Ingest.Atomize.atomic) :
  forall rows added skipped,
    exists new,
      Ingest.Atomize.extract_loop now atomics (rows, added, skipped)
      = (rows ++ new, (added + length new)%nat,
         (skipped + (length atomics - length new))%nat)
      /\ (length new <= length atomics)%nat
      /\ (forall m, In m new -> id_exists rows (id m) = false)
      /\ NoDup (List.map id new)
      /\ (forall a, In a atomics ->
            id_exists (rows ++ new)
              (Ingest.Atomize.atomicId (Ingest.Atomize.domain a)
                                       (Ingest.Atomize.summary a)) = true).
Proof.
  induction atomics as [|a rest IH]; intros rows added skipped;
    cbn [Ingest.Atomize.extract_loop].
  - exists []. rewrite app_nil_r. cbn [length List.map].
    split; [apply pair_equal_spec; split; [apply pair_equal_spec; split; [reflexivity|lia]|lia]|]. split; [lia|].
    split; [intros m []|]. split; [constructor|intros a []].
  - set (i := Ingest.Atomize.atomicId _ _).
    destruct (id_exists rows i) eqn:Hex.
    + destruct (IH rows added (S skipped)) as (new & Heq & Hlen & Hfresh & Hnd & Hall).
      exists new. rewrite Heq. cbn [length].
      split; [apply pair_equal_spec; split; [apply pair_equal_spec; split; [reflexivity|lia]|lia]|]. split; [lia|].
      split; [exact Hfresh|]. split; [exact Hnd|].
      intros a' [<-|Ha']; [|apply Hall, Ha'].
      fold i. rewrite id_exists_app, Hex. reflexivity.
    + set (e := Ingest.new_entry now i _ _ _ _).
      assert (Hup : Ingest.upsertMemory rows e = rows ++ [Ingest.upsert_row e])
        by (apply upsert_absent; exact Hex).
      rewrite Hup.
      destruct (IH (rows ++ [Ingest.upsert_row e]) (S added) skipped)
        as (new & Heq & Hlen & Hfresh & Hnd & Hall).
      exists (Ingest.upsert_row e :: new). rewrite Heq. cbn [length].
      rewrite <- app_assoc. cbn [app].
      split; [apply pair_equal_spec; split; [apply pair_equal_spec; split; [reflexivity|lia]|lia]|]. split; [lia|].
      assert (Hnew : forall m, In m new ->
                       id_exists rows (id m) = false /\ id m <> i).
      { intros m Hm. specialize (Hfresh m Hm).
        rewrite id_exists_app in Hfresh. apply orb_false_iff in Hfresh.
        destruct Hfresh as [Hrows Hone]. split; [exact Hrows|].
        intros Heqi. unfold id_exists, getMemory in Hone. cbn in Hone.
        rewrite Heqi, String.eqb_refl in Hone. discriminate. }
      split; [|split].
      * intros m [<-|Hm]; [exact Hex|apply Hnew, Hm].
      * cbn [List.map]. apply NoDup_cons. split; [|exact Hnd].
        rewrite list_elem_of_In, List.in_map_iff.
        intros (m & Hid & Hm). apply (Hnew m Hm). exact Hid.
      * intros a' [<-|Ha'].
        -- fold i. rewrite id_exists_app. apply orb_true_iff. right.
           unfold id_exists, getMemory. cbn. rewrite String.eqb_refl. reflexivity.
        -- specialize (Hall a' Ha'). rewrite <- app_assoc in Hall. exact Hall.
Qed.

(** X14. The atomizer never overwrites or removes a row: a run leaves
    the table it found, in order, followed by one new row per candidate
    it added; every candidate is either added or skipped; a new row
    never takes an id that the table already had, so that ids stay
    unique when they were. *)
Theorem atomizer_only_appends (now : float)
    (atomics : list Ingest.Atomize.atomic) (rows : list memory) :
  exists new,
    Ingest.Atomize.extract_loop now atomics (rows, 0%nat, 0%nat)
    = (rows ++ new, length new, (length atomics - length new)%nat)
    /\ (length new <= length atomics)%nat
    /\ (forall m, In m new -> id_exists rows (id m) = false)
    /\ (NoDup (List.map id rows) -> NoDup (List.map id (rows ++ new))).
Proof.
  destruct (extract_loop_appends now atomics rows 0%nat 0%nat)
    as (new & Heq & Hlen & Hfresh & Hnd & _).
  exists new. split; [exact Heq|]. split; [exact Hlen|]. split; [exact Hfresh|].
  intros Hpk. rewrite List.map_app. apply NoDup_app.
  split; [exact Hpk|]. split; [|exact Hnd].
  intros i Hi Hi'. rewrite list_elem_of_In in Hi, Hi'.
  apply List.in_map_iff in Hi, Hi'.
  destruct Hi as (m & <- & Hm). destruct Hi' as (m' & Hid & Hm').
  specialize (Hfresh m' Hm'). rewrite Hid in Hfresh.
  assert (id_exists rows (id m) = true) by (apply id_exists_In; eauto).
  congruence.
Qed.

Lemma atomizer_only_appends_witness :
  NoDup (List.map id [Examples.current])
  /\ exists new,
       Ingest.Atomize.extract_loop 0
         [{| Ingest.Atomize.domain := "tts";
             Ingest.Atomize.summary := "Use Qwen3 for voice cloning";
             Ingest.Atomize.detail := "Use Qwen3 for voice cloning.";
             Ingest.Atomize.type := "directive" |}]
         ([Examples.current], 0%nat, 0%nat)
       = ([Examples.current] ++ new, length new, (1 - length new)%nat)
       /\ NoDup (List.map id ([Examples.current] ++ new)).
Proof.
  assert (Hpk : NoDup (List.map id [Examples.current]))
    by apply NoDup_singleton.
  split; [exact Hpk|].
  destruct (atomizer_only_appends 0%float
              [{| Ingest.Atomize.domain := "tts";
                  Ingest.Atomize.summary := "Use Qwen3 for voice cloning";
                  Ingest.Atomize.detail := "Use Qwen3 for voice cloning.";
                  Ingest.Atomize.type := "directive" |}]
              [Examples.current]) as (new & Heq & _ & _ & Hnd).
  exists new. split; [exact Heq|exact (Hnd Hpk)].
Defined.

Lemma extract_loop_all_skipped (now : float)
    (atomics : list Ingest.Atomize.atomic) (rows : list memory) :
  forall added skipped,
    (forall a, In a atomics ->
       id_exists rows (Ingest.Atomize.atomicId (Ingest.Atomize.domain a)
                                               (Ingest.Atomize.summary a))
       = true) ->
    Ingest.Atomize.extract_loop now atomics (rows, added, skipped)
    = (rows, added, (skipped + length atomics)%nat).
Proof.
  induction atomics as [|a rest IH]; intros added skipped Hall;
    cbn [Ingest.Atomize.extract_loop length].
  - f_equal. lia.
  - rewrite (Hall a) by (left; reflexivity).
    rewrite IH by (intros a' Ha'; apply Hall; right; exact Ha').
    f_equal. lia.
Qed.

Lemma upsert_id_exists (rows : list memory) (e : memory) (i : string) :
  id_exists rows i = true -> id_exists (Ingest.upsertMemory rows e) i = true.
Proof.
  intros Hi. apply id_exists_In. apply id_exists_In in Hi.
  destruct Hi as (m & Hm & Hid). unfold Ingest.upsertMemory.
  destruct (String.eqb_spec (id m) (id e)) as [Heq|Hne].
  - exists (Ingest.upsert_row e). split; [|cbn; congruence].
    apply List.in_app_iff. right. left. reflexivity.
  - exists m. split; [|exact Hid]. apply List.in_app_iff. left.
    apply List.filter_In. split; [exact Hm|].
    apply negb_true_iff, String.eqb_neq, Hne.
Qed.

(** No write of the engine removes an id. *)
Lemma engine_write_id_exists (rows rows' : list memory) (i : string) :
  Supervision.engine_write rows rows' ->
  id_exists rows i = true -> id_exists rows' i = true.
Proof.
  intros Hstep Hi. destruct Hstep as [rows ids amount now|rows factor
                                     |rows rows' oldId newId n Hdep
                                     |rows now atomics
                                     |rows j blob
                                     |rows e Hlive].
  - unfold bumpActivations. rewrite bump_fold. cbn [fst].
    rewrite id_exists_map; [exact Hi|]. intros m.
    pose proof (iter_bump_row_columns amount now
                  (count_occ String.string_dec ids (id m)) m)
      as (_ & Hid & _). exact Hid.
  - cbn [Supervision.decayAll fst]. rewrite id_exists_map; [exact Hi|].
    reflexivity.
  - unfold Supervision.deprecateMemory in Hdep.
    destruct (_ && _); [discriminate|]. injection Hdep as <- _.
    rewrite id_exists_map; [exact Hi|]. intros m.
    destruct (String.eqb (id m) oldId); reflexivity.
  - destruct (extract_loop_appends now atomics rows 0%nat 0%nat)
      as (new & Heq & _). rewrite Heq. cbn [fst].
    rewrite id_exists_app, Hi. reflexivity.
  - unfold Supervision.setEmbedding. rewrite id_exists_map; [exact Hi|].
    intros m. destruct (String.eqb (id m) j); reflexivity.
  - apply upsert_id_exists, Hi.
Qed.

(** No statement that writes [memories] removes an id. *)
Lemma table_write_id_exists (rows rows' : list memory) (i : string) :
  Supervision.table_write rows rows' ->
  id_exists rows i = true -> id_exists rows' i = true.
Proof.
  intros Hstep Hi. destruct Hstep as [rows rows' Hengine|rows e
                                     |rows oldId newId|rows m].
  - exact (engine_write_id_exists _ _ i Hengine Hi).
  - apply upsert_id_exists, Hi.
  - unfold Supervision.deprecate_unchecked.
    rewrite id_exists_map; [exact Hi|]. intros m.
    destruct (String.eqb (id m) oldId); reflexivity.
  - unfold Supervision.insertIgnore.
    destruct (id_exists rows (id m)); [exact Hi|].
    rewrite id_exists_app, Hi. reflexivity.
Qed.

(** X15. Once the atomizer has run on some candidates, a later run on
    the same candidates adds nothing, whatever statements wrote
    [memories] in between (bumps, decays, deprecations with or without
    the foreign-key check, embedding updates, other atomizer runs,
    [upsertMemory] of any entry, INSERT OR IGNORE): every candidate is
    skipped and the table is left as it is, also when the row of a
    candidate was deprecated or replaced meanwhile. *)
Theorem atomizer_second_run_adds_nothing (now later : float)
    (atomics : list Ingest.Atomize.atomic) (rows rows2 : list memory) :
  rtc Supervision.table_write
      (fst (fst (Ingest.Atomize.extract_loop now atomics
                   (rows, 0%nat, 0%nat)))) rows2 ->
  Ingest.Atomize.extract_loop later atomics (rows2, 0%nat, 0%nat)
  = (rows2, 0%nat, length atomics).
Proof.
  intros Hsteps. apply extract_loop_all_skipped.
  destruct (extract_loop_appends now atomics rows 0%nat 0%nat)
    as (new & Heq & _ & _ & _ & Hall).
  rewrite Heq in Hsteps. cbn [fst] in Hsteps.
  intros a Ha. specialize (Hall a Ha). revert Hall.
  generalize (Ingest.Atomize.atomicId (Ingest.Atomize.domain a)
                                      (Ingest.Atomize.summary a)).
  clear -Hsteps. intros i.
  induction Hsteps as [rows1|rows1 rowsm rows2 Hstep _ IH]; [tauto|].
  intros Hi. apply IH. exact (table_write_id_exists _ _ i Hstep Hi).
Qed.

Lemma atomizer_second_run_adds_nothing_witness :
  rtc Supervision.table_write
      (fst (fst (Ingest.Atomize.extract_loop 0
                   [{| Ingest.Atomize.domain := "tts";
                       Ingest.Atomize.summary := "Use Qwen3 for voice cloning";
                       Ingest.Atomize.detail := "Use Qwen3 for voice cloning.";
                       Ingest.Atomize.type := "directive" |}]
                   ([Examples.current], 0%nat, 0%nat))))
      (Ingest.upsertMemory
         (fst (fst (Ingest.Atomize.extract_loop 0
                      [{| Ingest.Atomize.domain := "tts";
                          Ingest.Atomize.summary :=
                            "Use Qwen3 for voice cloning";
                          Ingest.Atomize.detail :=
                            "Use Qwen3 for voice cloning.";
                          Ingest.Atomize.type := "directive" |}]
                      ([Examples.current], 0%nat, 0%nat))))
         Examples.outdated)
  /\ Ingest.Atomize.extract_loop 1
       [{| Ingest.Atomize.domain := "tts";
           Ingest.Atomize.summary := "Use Qwen3 for voice cloning";
           Ingest.Atomize.detail := "Use Qwen3 for voice cloning.";
           Ingest.Atomize.type := "directive" |}]
       (Ingest.upsertMemory
          (fst (fst (Ingest.Atomize.extract_loop 0
                       [{| Ingest.Atomize.domain := "tts";
                           Ingest.Atomize.summary :=
                             "Use Qwen3 for voice cloning";
                           Ingest.Atomize.detail :=
                             "Use Qwen3 for voice cloning.";
                           Ingest.Atomize.type := "directive" |}]
                       ([Examples.current], 0%nat, 0%nat))))
          Examples.outdated, 0%nat, 0%nat)
     = (Ingest.upsertMemory
          (fst (fst (Ingest.Atomize.extract_loop 0
                       [{| Ingest.Atomize.domain := "tts";
                           Ingest.Atomize.summary :=
                             "Use Qwen3 for voice cloning";
                           Ingest.Atomize.detail :=
                             "Use Qwen3 for voice cloning.";
                           Ingest.Atomize.type := "directive" |}]
                       ([Examples.current], 0%nat, 0%nat))))
          Examples.outdated, 0%nat, 1%nat).
Proof.
  assert (Hsteps :
    rtc Supervision.table_write
      (fst (fst (Ingest.Atomize.extract_loop 0
                   [{| Ingest.Atomize.domain := "tts";
                       Ingest.Atomize.summary := "Use Qwen3 for voice cloning";
                       Ingest.Atomize.detail := "Use Qwen3 for voice cloning.";
                       Ingest.Atomize.type := "directive" |}]
                   ([Examples.current], 0%nat, 0%nat))))
      (Ingest.upsertMemory
         (fst (fst (Ingest.Atomize.extract_loop 0
                      [{| Ingest.Atomize.domain := "tts";
                          Ingest.Atomize.summary :=
                            "Use Qwen3 for voice cloning";
                          Ingest.Atomize.detail :=
                            "Use Qwen3 for voice cloning.";
                          Ingest.Atomize.type := "directive" |}]
                      ([Examples.current], 0%nat, 0%nat))))
         Examples.outdated))
    by (apply rtc_once, Supervision.by_upsert).
  split; [exact Hsteps|].
  apply (atomizer_second_run_adds_nothing 0%float 1%float _ _ _ Hsteps).
Defined.

(** X16. After [upsertMemory] of an entry that names no superseding
    row, the id of the entry reads back the row just written, once,
    with the defaults of the function: a status that the entry leaves
    out becomes ['active'], also when the row replaced was deprecated.
    Every other id reads what it read before, and ids stay unique when
    they were. *)
Theorem upsertMemory_read_back (rows : list memory) (e : memory) :
  JS.truthy_str (superseded_by e) = false ->
  getMemory (Ingest.upsertMemory rows e) (id e) = Some (Ingest.upsert_row e)
  /\ count_occ string_dec (List.map id (Ingest.upsertMemory rows e)) (id e)
     = 1%nat
  /\ (JS.truthy_str (status e) = false ->
      is_active (Ingest.upsert_row e) = true)
  /\ (forall j, j <> id e ->
        getMemory (Ingest.upsertMemory rows e) j = getMemory rows j)
  /\ (NoDup (List.map id rows) ->
      NoDup (List.map id (Ingest.upsertMemory rows e))).
Proof.
  intros _. unfold Ingest.upsertMemory, getMemory.
  set (others := List.filter _ rows).
  assert (Hothers : forall m, In m others -> id m <> id e).
  { intros m Hm. apply List.filter_In in Hm. destruct Hm as [_ Hne].
    destruct (String.eqb_spec (id m) (id e)); [discriminate|assumption]. }
  split; [|split; [|split; [|split]]].
  - induction others as [|m others IH]; cbn.
    + rewrite String.eqb_refl. reflexivity.
    + destruct (String.eqb_spec (id m) (id e)) as [Heq|_].
      * exfalso. apply (Hothers m); [left; reflexivity|exact Heq].
      * apply IH. intros m' Hm'. apply Hothers. right. exact Hm'.
  - rewrite List.map_app, count_occ_app.
    change (List.map id [Ingest.upsert_row e]) with [id e].
    rewrite (count_occ_cons_eq string_dec [] (eq_refl (id e))).
    rewrite (proj1 (count_occ_not_In string_dec _ _)); [reflexivity|].
    intros Hin. apply List.in_map_iff in Hin. destruct Hin as (m & Hid & Hm).
    apply (Hothers m Hm). exact Hid.
  - intros Hst. unfold is_active, Ingest.upsert_row. cbn.
    destruct (status e) as [[|c s]|]; try discriminate; reflexivity.
  - intros j Hj. subst others. clear Hothers.
    induction rows as [|m rows IH]; cbn.
    + destruct (String.eqb_spec (id e) j); [congruence|reflexivity].
    + destruct (String.eqb_spec (id m) (id e)) as [Heq|Hne]; cbn.
      * destruct (String.eqb_spec (id m) j); [congruence|exact IH].
      * destruct (String.eqb_spec (id m) j); [reflexivity|exact IH].
  - intros Hpk. rewrite List.map_app. apply NoDup_app. split; [|split].
    + apply (sublist_NoDup _ _ Hpk), sublist_map. subst others.
      apply filter_sublist.
    + intros i Hi Hi'. rewrite list_elem_of_In in Hi, Hi'.
      apply List.in_map_iff in Hi. destruct Hi as (m & <- & Hm).
      cbn in Hi'. destruct Hi' as [Heq|[]].
      apply (Hothers m Hm). symmetry. exact Heq.
    + cbn. apply NoDup_singleton.
Qed.

Lemma upsertMemory_read_back_witness :
  JS.truthy_str
    (superseded_by
       (Ingest.new_entry 0 "tts:atomic:b" "Use the base model"
          "Use the base model for cloning." "tts" "directive")) = false
  /\ getMemory
       (Ingest.upsertMemory
          [Examples.current;
           Supervision.deprecate_row "tts:atomic:a" Examples.close]
          (Ingest.new_entry 0 "tts:atomic:b" "Use the base model"
             "Use the base model for cloning." "tts" "directive"))
       "tts:atomic:b"
     = Some (Ingest.upsert_row
               (Ingest.new_entry 0 "tts:atomic:b" "Use the base model"
                  "Use the base model for cloning." "tts" "directive"))
  /\ is_deprecated (Supervision.deprecate_row "tts:atomic:a" Examples.close)
     = true
  /\ is_active
       (Ingest.upsert_row
          (Ingest.new_entry 0 "tts:atomic:b" "Use the base model"
             "Use the base model for cloning." "tts" "directive")) = true.
Proof.
  assert (Hsup : JS.truthy_str
                   (superseded_by
                      (Ingest.new_entry 0 "tts:atomic:b" "Use the base model"
                         "Use the base model for cloning." "tts" "directive"))
                 = false) by reflexivity.
  destruct (upsertMemory_read_back
              [Examples.current;
               Supervision.deprecate_row "tts:atomic:a" Examples.close]
              (Ingest.new_entry 0 "tts:atomic:b" "Use the base model"
                 "Use the base model for cloning." "tts" "directive") Hsup)
    as (Hget & _ & Hact & _).
  split; [exact Hsup|]. split; [exact Hget|]. split; [reflexivity|].
  apply Hact. reflexivity.
Defined.

(** ** Deduplication of candidates *)

Lemma dedup_filter_spec (atomics : list Ingest.Session.atomic) :
  forall seen : gset string,
    sublist (Extractor.dedup_filter seen atomics) atomics
    /\ NoDup (List.map Extractor.dedup_key (Extractor.dedup_filter seen atomics))
    /\ (forall a, In a (Extractor.dedup_filter seen atomics) ->
          Extractor.dedup_key a ∉ seen)
    /\ (forall a, In a atomics ->
          Extractor.dedup_key a ∈ seen
          \/ In (Extractor.dedup_key a)
                (List.map Extractor.dedup_key
                   (Extractor.dedup_filter seen atomics))).
Proof.
  induction atomics as [|a rest IH]; intros seen; cbn [Extractor.dedup_filter].
  - split; [constructor|]. split; [constructor|]. split; intros a [].
  - case_bool_decide as Hseen.
    + destruct (IH seen) as (Hsub & Hnd & Hfresh & Hcov).
      split; [apply sublist_cons, Hsub|]. split; [exact Hnd|].
      split; [exact Hfresh|].
      intros a' [<-|Ha']; [left; exact Hseen|apply Hcov, Ha'].
    + destruct (IH ({[Extractor.dedup_key a]} ∪ seen))
        as (Hsub & Hnd & Hfresh & Hcov).
      split; [apply sublist_skip, Hsub|]. split; [|split].
      * cbn [List.map]. apply NoDup_cons. split; [|exact Hnd].
        rewrite list_elem_of_In, List.in_map_iff. intros (a' & Hk & Ha').
        apply (Hfresh a' Ha'). rewrite Hk.
        apply elem_of_union_l, elem_of_singleton. reflexivity.
      * intros a' [<-|Ha']; [exact Hseen|].
        intros Hin. apply (Hfresh a' Ha'), elem_of_union_r, Hin.
      * intros a' [<-|Ha']; [right; left; reflexivity|].
        destruct (Hcov a' Ha') as [Hin|Hin].
        -- apply elem_of_union in Hin. destruct Hin as [Hin|Hin].
           ++ apply elem_of_singleton in Hin. right. left. symmetry. exact Hin.
           ++ left. exact Hin.
        -- right. right. exact Hin.
Qed.

Lemma dedup_filter_fixed (atomics : list Ingest.Session.atomic) :
  forall seen : gset string,
    NoDup (List.map Extractor.dedup_key atomics) ->
    (forall a, In a atomics -> Extractor.dedup_key a ∉ seen) ->
    Extractor.dedup_filter seen atomics = atomics.
Proof.
  induction atomics as [|a rest IH]; intros seen Hnd Hfresh;
    cbn [Extractor.dedup_filter]; [reflexivity|].
  cbn [List.map] in Hnd. apply NoDup_cons in Hnd. destruct Hnd as [Ha Hnd].
  case_bool_decide as Hseen.
  - exfalso. apply (Hfresh a); [left; reflexivity|exact Hseen].
  - f_equal. apply IH; [exact Hnd|].
    intros a' Ha' Hin. apply elem_of_union in Hin. destruct Hin as [Hin|Hin].
    + apply elem_of_singleton in Hin. apply Ha.
      rewrite list_elem_of_In, List.in_map_iff. exists a'. split; [exact Hin|exact Ha'].
    + apply (Hfresh a'); [right; exact Ha'|exact Hin].
Qed.

Lemma dedup_filter_first (atomics : list Ingest.Session.atomic) :
  forall (seen : gset string) a,
    In a (Extractor.dedup_filter seen atomics) ->
    (Extractor.dedup_key a ∉ seen)
    /\ exists before after,
         atomics = before ++ a :: after
         /\ ~ In (Extractor.dedup_key a)
                 (List.map Extractor.dedup_key before).
Proof.
  induction atomics as [|a0 rest IH]; intros seen a;
    cbn [Extractor.dedup_filter]; [intros []|].
  case_bool_decide as Hseen.
  - intros Ha. destruct (IH seen a Ha) as (Hfresh & before & after & -> & Hb).
    split; [exact Hfresh|]. exists (a0 :: before), after.
    split; [reflexivity|]. cbn [List.map]. intros [Heq|Hin]; [|exact (Hb Hin)].
    apply Hfresh. rewrite <- Heq. exact Hseen.
  - intros [<-|Ha].
    + split; [exact Hseen|]. exists [], rest. split; [reflexivity|intros []].
    + destruct (IH _ a Ha) as (Hfresh & before & after & -> & Hb).
      split; [intros Hin; apply Hfresh, elem_of_union_r, Hin|].
      exists (a0 :: before), after. split; [reflexivity|].
      cbn [List.map]. intros [Heq|Hin]; [|exact (Hb Hin)].
      apply Hfresh, elem_of_union_l, elem_of_singleton. symmetry. exact Heq.
Qed.

(** X17. [dedup] of the session extractor keeps the first candidate of
    each key (the first 50 characters of the lower-cased summary) and
    nothing else: the result is a sub-list of the candidates, in order,
    no key occurs twice in it, the key of every candidate occurs in it,
    every candidate it keeps stands in the list at a place before which
    no candidate has its key, and deduplicating a second time changes
    nothing. *)
Theorem dedup_keeps_one_per_key (atomics : list Ingest.Session.atomic) :
  sublist (Extractor.dedup atomics) atomics
  /\ NoDup (List.map Extractor.dedup_key (Extractor.dedup atomics))
  /\ (forall a, In a atomics ->
        In (Extractor.dedup_key a)
           (List.map Extractor.dedup_key (Extractor.dedup atomics)))
  /\ (forall a, In a (Extractor.dedup atomics) ->
        exists before after,
          atomics = before ++ a :: after
          /\ ~ In (Extractor.dedup_key a)
                  (List.map Extractor.dedup_key before))
  /\ Extractor.dedup (Extractor.dedup atomics) = Extractor.dedup atomics.
Proof.
  unfold Extractor.dedup.
  destruct (dedup_filter_spec atomics ∅) as (Hsub & Hnd & Hfresh & Hcov).
  split; [exact Hsub|]. split; [exact Hnd|]. split; [|split].
  - intros a Ha. destruct (Hcov a Ha) as [Hin|Hin]; [|exact Hin].
    exfalso. exact (not_elem_of_empty _ Hin).
  - intros a Ha. apply (dedup_filter_first atomics ∅ a Ha).
  - apply dedup_filter_fixed; [exact Hnd|]. intros a _.
    apply not_elem_of_empty.
Qed.

(** ** Embedding requests *)

Lemma batches_unfold (k : nat) (texts : list string) :
  List.map (fun i => take Embedding.batchSize (drop i texts))
           (List.map (fun j => (j * Embedding.batchSize)%nat) (seq 0 (S k)))
  = take Embedding.batchSize texts
    :: List.map (fun i => take Embedding.batchSize
                            (drop i (drop Embedding.batchSize texts)))
         (List.map (fun j => (j * Embedding.batchSize)%nat) (seq 0 k)).
Proof.
  cbn [seq List.map]. f_equal.
  rewrite <- seq_shift, !List.map_map. apply List.map_ext.
  intros j. rewrite drop_drop. reflexivity.
Qed.

Lemma batches_cover (k : nat) :
  forall texts : list string,
    (length texts <= k * Embedding.batchSize)%nat ->
    (k * Embedding.batchSize < length texts + Embedding.batchSize)%nat ->
    let bs :=
      List.map (fun i => take Embedding.batchSize (drop i texts))
        (List.map (fun j => (j * Embedding.batchSize)%nat) (seq 0 k)) in
    concat bs = texts
    /\ Forall (fun b => b <> []
                        /\ (length b <= Embedding.batchSize)%nat) bs.
Proof.
  induction k as [|k IH]; intros texts Hle Hlt; cbv zeta.
  - destruct texts; [|cbn in Hle; lia]. split; [reflexivity|constructor].
  - rewrite batches_unfold. cbn [concat].
    assert (Hlen : length (drop Embedding.batchSize texts)
                   = (length texts - Embedding.batchSize)%nat)
      by apply length_drop.
    destruct (IH (drop Embedding.batchSize texts)) as [Hcat Hall].
    + rewrite Hlen. unfold Embedding.batchSize in *. lia.
    + rewrite Hlen. unfold Embedding.batchSize in *. lia.
    + split.
      * rewrite Hcat. apply take_drop.
      * constructor; [|exact Hall]. split.
        -- destruct texts; [|discriminate].
           unfold Embedding.batchSize in Hlt. cbn [length] in Hlt. lia.
        -- rewrite length_take. unfold Embedding.batchSize. lia.
Qed.

Lemma batches_partition (texts : list string) :
  concat (Embedding.batches texts) = texts
  /\ Forall (fun b => b <> [] /\ (length b <= Embedding.batchSize)%nat)
            (Embedding.batches texts).
Proof.
  unfold Embedding.batches, Embedding.batch_starts.
  apply batches_cover.
  - pose proof (Nat.div_mod_eq (length texts + (Embedding.batchSize - 1))
                               Embedding.batchSize) as Hdiv.
    pose proof (Nat.mod_upper_bound
                  (length texts + (Embedding.batchSize - 1))
                  Embedding.batchSize) as Hmod.
    unfold Embedding.batchSize in *. lia.
  - pose proof (Nat.div_mod_eq (length texts + (Embedding.batchSize - 1))
                               Embedding.batchSize) as Hdiv.
    unfold Embedding.batchSize in *. lia.
Qed.

Lemma embed_fold (httpPost : list string -> option (list Vec.Float32Array))
    (f : string -> Vec.Float32Array) (bs : list (list string)) :
  forall acc,
    Forall (fun b => httpPost b = Some (List.map f b)) bs ->
    fold_left (fun acc batch =>
                 results ← acc; data ← httpPost batch; Some (results ++ data))
              bs (Some acc)
    = Some (acc ++ List.map f (concat bs)).
Proof.
  induction bs as [|b bs IH]; intros acc Hall; cbn [fold_left concat].
  - rewrite app_nil_r. reflexivity.
  - inversion Hall as [|? ? Hb Hbs]; subst. cbn [mbind option_bind].
    rewrite Hb. cbn [mbind option_bind]. rewrite IH by exact Hbs.
    rewrite List.map_app, app_assoc. reflexivity.
Qed.

(** X18. [generateEmbeddings] asks the embedding service only about
    non-empty batches of at most 25 texts, and batching is invisible:
    when the service answers every such batch with one embedding per
    text, in order, the call returns one embedding per text, in the
    order of the texts, whatever their number. *)
Theorem generateEmbeddings_in_order
    (httpPost : list string -> option (list Vec.Float32Array))
    (f : string -> Vec.Float32Array) (texts : list string) :
  (forall batch, batch <> [] -> (length batch <= 25)%nat ->
     httpPost batch = Some (List.map f batch)) ->
  Embedding.generateEmbeddings httpPost texts = Some (List.map f texts).
Proof.
  intros Hpost. unfold Embedding.generateEmbeddings.
  destruct (batches_partition texts) as [Hcat Hall].
  rewrite (embed_fold httpPost f).
  - rewrite Hcat. reflexivity.
  - revert Hall. apply List.Forall_impl. intros b [Hne Hlen].
    apply Hpost; assumption.
Qed.

(** ** Ids of the ingesters *)

Lemma lower_unit_idem (c : ascii) :
  JS.lower_unit (JS.lower_unit c) = JS.lower_unit c.
Proof. destruct c as [[] [] [] [] [] [] [] []]; vm_compute; reflexivity. Qed.

Lemma toLowerCase_idem (s : string) :
  JS.toLowerCase (JS.toLowerCase s) = JS.toLowerCase s.
Proof.
  induction s as [|c s IH]; cbn [JS.toLowerCase]; [reflexivity|].
  rewrite lower_unit_idem, IH. reflexivity.
Qed.

Lemma strip_kept (s : string) :
  all_chars Ingest.Atomize.kept (Ingest.Atomize.strip s) = true.
Proof.
  induction s as [|c s IH]; cbn [Ingest.Atomize.strip]; [reflexivity|].
  destruct (Ingest.Atomize.kept c) eqn:Hc; [|exact IH].
  cbn [all_chars]. rewrite Hc, IH. reflexivity.
Qed.

Lemma dash_spaces_slug (s : string) :
  forall in_run,
    all_chars Ingest.Atomize.kept s = true ->
    all_chars slug_char (Ingest.Atomize.dash_spaces in_run s) = true.
Proof.
  induction s as [|c s IH]; intros in_run Hs;
    cbn [Ingest.Atomize.dash_spaces]; [reflexivity|].
  cbn [all_chars] in Hs. apply andb_true_iff in Hs. destruct Hs as [Hc Hs].
  destruct (Ingest.Atomize.is_space c) eqn:Hsp.
  - destruct in_run; [apply IH, Hs|].
    cbn [all_chars]. rewrite IH by exact Hs. reflexivity.
  - cbn [all_chars]. rewrite IH by exact Hs.
    unfold Ingest.Atomize.kept in Hc. rewrite Hsp, orb_false_r in Hc.
    unfold slug_char. rewrite Hc. reflexivity.
Qed.

Lemma slice0_all_chars (p : ascii -> bool) (n : nat) :
  forall s, all_chars p s = true -> all_chars p (JS.slice0 n s) = true.
Proof.
  induction n as [|n IH]; intros [|c s] Hs; cbn [JS.slice0 all_chars];
    try reflexivity.
  cbn [all_chars] in Hs. apply andb_true_iff in Hs. destruct Hs as [Hc Hs].
  rewrite Hc, IH by exact Hs. reflexivity.
Qed.

Lemma slice0_length (n : nat) :
  forall s, (String.length (JS.slice0 n s) <= n)%nat.
Proof.
  induction n as [|n IH]; intros [|c s]; cbn [JS.slice0 String.length]; try lia.
  specialize (IH s). lia.
Qed.

(** X19. An id of the atomizer is the domain, a colon and a slug of
    at most 50 characters, each of which is a lower-case letter, a
    digit or a hyphen; the id does not depend on the letter case of the
    summary. *)
Theorem atomicId_is_a_slug (domain summary : string) :
  exists clean,
    Ingest.Atomize.atomicId domain summary = (domain ++ ":" ++ clean)%string
    /\ (String.length clean <= 50)%nat
    /\ all_chars slug_char clean = true
    /\ Ingest.Atomize.atomicId domain (JS.toLowerCase summary)
       = Ingest.Atomize.atomicId domain summary.
Proof.
  unfold Ingest.Atomize.atomicId. eexists. split; [reflexivity|].
  split; [apply slice0_length|]. split.
  - apply slice0_all_chars, dash_spaces_slug, strip_kept.
  - rewrite toLowerCase_idem. reflexivity.
Qed.

(** X20. [inferDomain] does not depend on the letter case of the text,
    and it answers with ["general"] or with one of the domains of its
    keyword map. *)
Theorem inferDomain_ignores_case (text : string) :
  Ingest.Session.inferDomain (JS.toLowerCase text)
  = Ingest.Session.inferDomain text
  /\ In (Ingest.Session.inferDomain text)
        ("general"%string :: List.map snd Ingest.Session.domain_map).
Proof.
  unfold Ingest.Session.inferDomain. rewrite toLowerCase_idem.
  split; [reflexivity|].
  destruct (List.find _ Ingest.Session.domain_map) as [kd|] eqn:Hfind.
  - right. apply List.find_some in Hfind. apply List.in_map, Hfind.
  - left. reflexivity.
Qed.

(** ** The content hash *)

Lemma toInt32_range (z : Z) :
  (-2147483648 <= Ingest.toInt32 z < 2147483648)%Z.
Proof.
  unfold Ingest.toInt32.
  pose proof (Z.mod_pos_bound (z + 2147483648) 4294967296 eq_refl). lia.
Qed.

Lemma toInt32_small (z : Z) :
  (-2147483648 <= z < 2147483648)%Z -> Ingest.toInt32 z = z.
Proof.
  intros Hz. unfold Ingest.toInt32. rewrite Z.mod_small by lia. lia.
Qed.

Lemma toInt32_shift (z k : Z) :
  Ingest.toInt32 (z + k * 4294967296) = Ingest.toInt32 z.
Proof.
  unfold Ingest.toInt32.
  replace (z + k * 4294967296 + 2147483648)%Z
    with (z + 2147483648 + k * 4294967296)%Z by lia.
  rewrite Z_mod_plus_full. reflexivity.
Qed.

Lemma toInt32_congr (z : Z) :
  exists k, Ingest.toInt32 z = (z + k * 4294967296)%Z.
Proof.
  exists (- ((z + 2147483648) / 4294967296))%Z. unfold Ingest.toInt32.
  pose proof (Z.div_mod (z + 2147483648) 4294967296 ltac:(lia)). lia.
Qed.

Lemma hash_step_31 (h : Z) (c : ascii) :
  Ingest.hash_step h c
  = Ingest.toInt32 (31 * h + Z.of_nat (nat_of_ascii c)).
Proof.
  unfold Ingest.hash_step.
  destruct (toInt32_congr (h * 32)) as [k ->].
  replace (h * 32 + k * 4294967296 - h + Z.of_nat (nat_of_ascii c))%Z
    with (31 * h + Z.of_nat (nat_of_ascii c) + k * 4294967296)%Z by lia.
  apply toInt32_shift.
Qed.

Lemma hash_loop_poly31 (content : string) :
  forall h h' k,
    h = (h' + k * 4294967296)%Z ->
    exists k', Ingest.hash_loop content h
               = (poly31 content h' + k' * 4294967296)%Z.
Proof.
  induction content as [|c rest IH]; intros h h' k Hh;
    cbn [Ingest.hash_loop poly31].
  - exists k. exact Hh.
  - rewrite hash_step_31.
    destruct (toInt32_congr (31 * h + Z.of_nat (nat_of_ascii c))) as [k1 Hk1].
    apply (IH _ _ (31 * k + k1)%Z). rewrite Hk1, Hh. lia.
Qed.

Lemma hash_loop_range (content : string) :
  forall h,
    (-2147483648 <= h < 2147483648)%Z ->
    (-2147483648 <= Ingest.hash_loop content h < 2147483648)%Z.
Proof.
  induction content as [|c rest IH]; intros h Hh; cbn [Ingest.hash_loop];
    [exact Hh|].
  apply IH. unfold Ingest.hash_step. apply toInt32_range.
Qed.

(** X21. The number that [hashContent] renders in base 16 is the
    polynomial of base 31 over the code units of the text, taken to a
    signed 32-bit integer once at the end: the wrap-around of the
    intermediate steps of the loop does not change it. The number lies
    in the signed 32-bit range. *)
Theorem hashContent_is_poly31 (content : string) :
  Ingest.hash_loop content 0 = Ingest.toInt32 (poly31 content 0)
  /\ Ingest.hashContent content
     = Ingest.toString16 (Ingest.toInt32 (poly31 content 0))
  /\ (-2147483648 <= Ingest.hash_loop content 0 < 2147483648)%Z.
Proof.
  assert (Hrange : (-2147483648 <= Ingest.hash_loop content 0 < 2147483648)%Z)
    by (apply hash_loop_range; lia).
  assert (Heq : Ingest.hash_loop content 0 = Ingest.toInt32 (poly31 content 0)).
  { destruct (hash_loop_poly31 content 0 0 0 eq_refl) as [k Hk].
    rewrite <- (toInt32_small _ Hrange), Hk. apply toInt32_shift. }
  split; [exact Heq|]. split; [|exact Hrange].
  unfold Ingest.hashContent. rewrite Heq. reflexivity.
Qed.

(** ** Vectors of another dimension *)

Lemma similarity_other_dimension (q : Vec.Float32Array) (m : memory) :
  stored_dimension m <> Some (length q) ->
  similarity_to q m = 0%float.
Proof.
  unfold stored_dimension, similarity_to. intros Hdim.
  destruct (embedding m) as [bytes|]; cbn [fmap option_fmap option_map] in *.
  - rewrite blobToEmbedding_column. unfold Vec.cosineSimilarity.
    rewrite decode_f32_length, length_take.
    replace (Nat.min (4 * (length bytes / 4)) (length bytes))
      with (4 * (length bytes / 4))%nat
      by (pose proof (Nat.Div0.mul_div_le (length bytes) 4); lia).
    replace (4 * (length bytes / 4) / 4)%nat with (length bytes / 4)%nat
      by (rewrite Nat.mul_comm, Nat.div_mul; [reflexivity|lia]).
    destruct (Nat.eqb_spec (length q) (length bytes / 4)) as [Heq|_];
      [|reflexivity].
    exfalso. apply Hdim. rewrite Heq. reflexivity.
  - reflexivity.
Qed.

Lemma scored_ok_dimension (o : options) (cands : list memory)
    (q : Vec.Float32Array) (r : retrieved) :
  queryEmbedding o = Some q ->
  scored_ok o cands r ->
  stored_dimension (entry r) = Some (length q).
Proof.
  intros Hq (_ & _ & Hfloor). destruct (Hfloor q Hq) as [_ Hsim].
  destruct (decide (stored_dimension (entry r) = Some (length q)))
    as [Heq|Hne]; [exact Heq|].
  rewrite (similarity_other_dimension q (entry r) Hne) in Hsim.
  vm_compute in Hsim. discriminate Hsim.
Qed.

(** X22. With a query embedding, every ranked item that [retrieve]
    returns has a stored vector of the dimension of the query: a row
    whose blob holds another number of floats (a truncated blob
    included) has similarity 0 and never passes the floor. When no row
    of the store has the dimension of the query, [retrieve] returns
    the empty list and raises nothing. *)
Theorem retrieve_skips_other_dimensions (d : db) (now : float) (o : options)
    (q : Vec.Float32Array) :
  queryEmbedding o = Some q ->
  exists sel,
    retrieve d now o = Returned sel
    /\ (forall r, In r sel -> spreadingActivation r = false ->
          stored_dimension (entry r) = Some (length q))
    /\ ((forall m, In m (memories d) ->
           stored_dimension m <> Some (length q)) ->
        sel = []).
Proof.
  intros Hq.
  destruct (retrieve_shape d now o) as (scored & Hall & [Hnil|Hret]).
  - exists []. split; [exact Hnil|]. split; [intros r []|reflexivity].
  - eexists. split; [exact Hret|]. split.
    + set (P := fun r : retrieved =>
                  spreadingActivation r = false ->
                  stored_dimension (entry r) = Some (length q)).
      assert (Hsel : Forall P (spread_fill d (tokenBudget o * 4)
                        (select_loop o (tokenBudget o * 4) scored
                           {| selected := []; charsUsed := 0;
                              seenDomains := ∅ |}))).
      { apply spread_fill_Forall.
        - intros r Hr. unfold P. rewrite Hr. discriminate.
        - apply select_loop_Forall; [|constructor].
          eapply List.Forall_impl; [|exact Hall].
          intros r Hok _. exact (scored_ok_dimension o _ q r Hq Hok). }
      rewrite List.Forall_forall in Hsel. exact Hsel.
    + intros Hother. destruct scored as [|r scored].
      * cbn [select_loop]. unfold spread_fill. cbn [selected length].
        rewrite andb_false_r. reflexivity.
      * exfalso. apply List.Forall_inv in Hall.
        pose proof (scored_ok_dimension o _ q r Hq Hall) as Hdim.
        destruct Hall as (Hin & _). apply selectCandidates_active in Hin.
        exact (Hother _ (proj1 Hin) Hdim).
Qed.

(** ** Semantic search *)

Lemma similarities_eq (q : Vec.Float32Array) (rows : list memory) :
  similarities (Some q) rows
  = Returned (List.map (fun m => (id m, similarity_to q m)) rows).
Proof.
  induction rows as [|row rows IH]; [reflexivity|].
  cbn [similarities List.map]. rewrite IH. unfold similarity_to.
  destruct (embedding row) as [bytes|]; cbn [fmap option_fmap option_map].
  - rewrite blobToEmbedding_column. reflexivity.
  - reflexivity.
Qed.

(** X23. [semanticSearch] never throws on blobs read from the store. It
    returns [min(limit, number of rows with an embedding)] pairs, each
    of them the id and the cosine similarity of a row that has an
    embedding, whatever the status of the row; when the limit is not
    below the number of such rows, each of them is in the result. *)
Theorem semanticSearch_ranks_every_status (d : db) (q : Vec.Float32Array)
    (n : nat) :
  exists l,
    semanticSearch d (Some q) n = Returned l
    /\ length l = Nat.min n (length (List.filter has_embedding (memories d)))
    /\ (forall p, In p l ->
          exists m, In m (memories d) /\ has_embedding m = true
                    /\ p = (id m, similarity_to q m))
    /\ ((length (List.filter has_embedding (memories d)) <= n)%nat ->
        forall m, In m (memories d) -> has_embedding m = true ->
                  In (id m, similarity_to q m) l).
Proof.
  unfold semanticSearch. rewrite similarities_eq. eexists.
  split; [reflexivity|].
  set (pairs := List.map _ (List.filter has_embedding (memories d))).
  assert (Hlen : length (JS.Array_sort by_snd_desc pairs)
                 = length (List.filter has_embedding (memories d))).
  { rewrite (Permutation_length (Array_sort_Permutation by_snd_desc pairs)).
    subst pairs. apply List.length_map. }
  split; [|split].
  - rewrite length_take, Hlen. reflexivity.
  - intros p Hp. apply In_take_In, Array_sort_In in Hp. subst pairs.
    apply List.in_map_iff in Hp. destruct Hp as (m & <- & Hm).
    apply List.filter_In in Hm. destruct Hm as [Hm Hemb]. eauto.
  - intros Hall m Hm Hemb. rewrite take_ge by lia.
    apply Array_sort_In. subst pairs. apply List.in_map_iff.
    exists m. split; [reflexivity|]. apply List.filter_In. tauto.
Qed.

(** ** The activation normaliser *)

Lemma Math_max_one (a : float) :
  PrimFloat.is_nan a = false ->
  PrimFloat.is_nan (JS.Math_max a 1) = false
  /\ (JS.Math_max a 1 <? 1)%float = false.
Proof.
  intros Ha. unfold JS.Math_max. rewrite Ha.
  change (PrimFloat.is_nan 1) with false. cbn [orb].
  destruct (a <? 1)%float eqn:Hlt; [split; reflexivity|].
  destruct (1 <? a)%float; [split; assumption|].
  destruct (PrimFloat.get_sign a); [split; reflexivity|split; assumption].
Qed.

Lemma Math_min_one (x : float) : (1 <? JS.Math_min x 1)%float = false.
Proof.
  unfold JS.Math_min.
  destruct (PrimFloat.is_nan x || PrimFloat.is_nan 1)%bool; [reflexivity|].
  destruct (x <? 1)%float eqn:Hlt; [apply float_ltb_asym, Hlt|].
  destruct (1 <? x)%float eqn:Hgt; [reflexivity|].
  destruct (PrimFloat.get_sign x); [exact Hgt|reflexivity].
Qed.

Lemma p95_not_nan (candidates : list memory) :
  PrimFloat.is_nan (p95 candidates) = false.
Proof.
  unfold p95. cbv zeta.
  match goal with |- context [JS.opt_num_or ?x 1] => destruct x as [v|] end;
    cbn [JS.opt_num_or]; [|reflexivity].
  unfold JS.num_or. destruct (PrimFloat.is_zero v); [reflexivity|].
  cbn [orb]. destruct (PrimFloat.is_nan v) eqn:Hv; [reflexivity|exact Hv].
Qed.

(** X24. The divisor [maxActivation] of the scoring loop is never NaN
    and never below 1, whatever the activations of the candidates
    (null, zero, negative or NaN), and [normAct] is never above 1. *)
Theorem maxActivation_at_least_one (candidates : list memory) (e : memory) :
  PrimFloat.is_nan (maxActivation candidates) = false
  /\ (maxActivation candidates <? 1)%float = false
  /\ (1 <? normAct (maxActivation candidates) e)%float = false.
Proof.
  unfold maxActivation, normAct.
  destruct (Math_max_one (p95 candidates) (p95_not_nan candidates))
    as [Hnan Hlow].
  split; [exact Hnan|]. split; [exact Hlow|apply Math_min_one].
Qed.

(** ** Retrieval without a query embedding *)

Lemma scoreCandidates_no_query (o : options) (now maxAct : float)
    (candidates : list memory) :
  queryEmbedding o = None ->
  exists scored,
    scoreCandidates o now maxAct candidates = Returned scored
    /\ List.map entry scored = candidates.
Proof.
  intros Hq. induction candidates as [|e rest (scored & Hs & Hmap)].
  - exists []. split; reflexivity.
  - cbn [scoreCandidates]. unfold scoreEntry, has_query. rewrite Hq.
    cbn. rewrite Hs. cbn. eexists. split; [reflexivity|].
    cbn [List.map entry]. rewrite Hmap. reflexivity.
Qed.

(** X25. Without a query embedding, [retrieve] returns the empty list
    only when there is no candidate: otherwise its first item is a
    ranked candidate, which is selected before the character budget
    and [limit] are looked at, so also when they are 0. *)
Theorem retrieve_without_query_returns_top (d : db) (now : float)
    (o : options) :
  queryEmbedding o = None ->
  exists sel,
    retrieve d now o = Returned sel
    /\ (sel = [] <-> selectCandidates (memories d) o = [])
    /\ (forall r rest, sel = r :: rest ->
          spreadingActivation r = false
          /\ In (entry r) (selectCandidates (memories d) o)).
Proof.
  intros Hq. unfold retrieve. cbv zeta.
  set (candidates := selectCandidates (memories d) o).
  destruct candidates as [|c cands] eqn:Hc.
  - exists []. split; [reflexivity|]. split; [tauto|discriminate].
  - cbn [length Nat.eqb].
    destruct (scoreCandidates_no_query o now
                (maxActivation (c :: cands)) (c :: cands) Hq)
      as (scored & Hs & Hmap).
    rewrite Hs. cbn [mbind outcome_bind mret outcome_ret].
    set (ranked := JS.Array_sort by_score_desc scored).
    assert (Hranked : forall r, In r ranked ->
                        spreadingActivation r = false
                        /\ In (entry r) (c :: cands)).
    { intros r Hr. apply Array_sort_In in Hr. split.
      - destruct (scoreCandidates_returns o now
                    (maxActivation (c :: cands)) (c :: cands))
          as (scored' & Hs' & Hall).
        rewrite Hs in Hs'. injection Hs' as <-.
        rewrite List.Forall_forall in Hall.
        destruct (Hall r Hr) as (_ & Hflag & _). exact Hflag.
      - rewrite <- Hmap. apply List.in_map, Hr. }
    destruct ranked as [|r ranked'] eqn:Hr.
    { exfalso.
      assert (Hlen : length ranked = length (c :: cands)).
      { subst ranked.
        rewrite (Permutation_length (Array_sort_Permutation _ scored)).
        rewrite <- Hmap. symmetry. apply List.length_map. }
      rewrite Hr in Hlen. discriminate Hlen. }
    cbn [select_loop selected charsUsed seenDomains length Nat.ltb Nat.leb
         andb].
    rewrite andb_false_r, lookup_empty. cbn [default Nat.leb app].
    match goal with
    | |- context [spread_fill d ?B (if ?t then ?st else select_loop o ?B' ?l ?st)] =>
        assert (Hsel : exists l',
                  selected (if t then st else select_loop o B' l st)
                  = r :: l')
    end.
    { destruct (_ <=? _)%nat; [exists []; reflexivity|].
      match goal with
      | |- context [select_loop o ?B ?l ?st] =>
          destruct (select_loop_sublist o B l st) as (l' & Hl' & _)
      end.
      exists l'. rewrite Hl'. reflexivity. }
    destruct Hsel as [l' Hl'].
    match goal with
    | |- context [spread_fill d ?B ?st] =>
        destruct (spread_fill_prefix d B st) as [k Hk]
    end.
    eexists. split; [reflexivity|]. rewrite Hk, Hl'. cbn [app].
    split; [split; discriminate|].
    intros r0 rest Heq. injection Heq as <- _.
    apply Hranked. left. reflexivity.
Qed.

(** ** Deprecation *)

Lemma filter_id_length (rows : list memory) (i : string) :
  NoDup (List.map id rows) ->
  length (List.filter (fun m => String.eqb (id m) i) rows)
  = if id_exists rows i then 1%nat else 0%nat.
Proof.
  induction rows as [|m rows IH]; cbn [List.map]; intros Hnd; [reflexivity|].
  apply NoDup_cons in Hnd. destruct Hnd as [Hm Hnd].
  unfold id_exists, getMemory in *. cbn [List.filter List.find].
  destruct (String.eqb_spec (id m) i) as [Heq|Hne]; [|apply IH, Hnd].
  cbn [length]. rewrite (IH Hnd).
  destruct (List.find _ rows) as [m'|] eqn:Hfind; [|reflexivity].
  exfalso. apply List.find_some in Hfind. destruct Hfind as [Hin Hid].
  apply String.eqb_eq in Hid. apply Hm. rewrite list_elem_of_In, Heq, <- Hid.
  apply List.in_map, Hin.
Qed.

Lemma getMemory_map_other (f : memory -> memory) (rows : list memory)
    (j : string) :
  (forall m, id (f m) = id m) ->
  (forall m, id m = j -> f m = m) ->
  getMemory (List.map f rows) j = getMemory rows j.
Proof.
  intros Hid Hsame. unfold getMemory.
  induction rows as [|m rows IH]; [reflexivity|].
  cbn [List.map List.find]. rewrite Hid.
  destruct (String.eqb_spec (id m) j) as [Heq|_]; [|exact IH].
  rewrite (Hsame m Heq). reflexivity.
Qed.

Lemma deprecate_map_id (rows : list memory) (oldId newId : string) :
  List.map id
    (List.map (fun m => if String.eqb (id m) oldId
                        then Supervision.deprecate_row newId m else m) rows)
  = List.map id rows.
Proof.
  rewrite List.map_map. apply List.map_ext. intros m.
  destruct (String.eqb (id m) oldId); reflexivity.
Qed.

Lemma deprecateMemory_cases (rows : list memory) (oldId newId : string) :
  NoDup (List.map id rows) ->
  match Supervision.deprecateMemory rows oldId newId with
  | Supervision.ForeignKeyFailed =>
      id_exists rows oldId = true /\ id_exists rows newId = false
  | Supervision.Done (rows', changes) =>
      List.map id rows' = List.map id rows
      /\ changes = (if id_exists rows oldId then 1%nat else 0%nat)
      /\ (id_exists rows oldId = false -> rows' = rows)
      /\ (forall m', In m' rows' -> id m' = oldId ->
            is_deprecated m' = true /\ superseded_by m' = Some newId)
      /\ (forall j, j <> oldId -> getMemory rows' j = getMemory rows j)
      /\ Supervision.deprecateMemory rows' oldId newId
         = Supervision.Done (rows', changes)
  end.
Proof.
  intros Hpk. unfold Supervision.deprecateMemory.
  destruct (id_exists rows oldId && negb (id_exists rows newId)) eqn:Hfk.
  - apply andb_true_iff in Hfk. destruct Hfk as [Hold Hnew].
    apply negb_true_iff in Hnew. split; assumption.
  - set (f := fun m => if String.eqb (id m) oldId
                       then Supervision.deprecate_row newId m else m).
    assert (Hid : forall m, id (f m) = id m)
      by (intros m; unfold f; destruct (String.eqb (id m) oldId); reflexivity).
    split; [apply deprecate_map_id|]. split; [apply filter_id_length, Hpk|].
    split; [|split; [|split]].
    + intros Habs. rewrite <- (List.map_id rows) at 2.
      apply List.map_ext_in. intros m Hm. unfold f.
      destruct (String.eqb_spec (id m) oldId) as [Heq|_]; [|reflexivity].
      assert (id_exists rows oldId = true) by (apply id_exists_In; eauto).
      congruence.
    + intros m' Hm' Hid'. apply List.in_map_iff in Hm'.
      destruct Hm' as (m & <- & _). rewrite Hid in Hid'. unfold f.
      rewrite (proj2 (String.eqb_eq _ _) Hid'). split; reflexivity.
    + intros j Hj. apply getMemory_map_other; [exact Hid|].
      intros m Hm. unfold f.
      destruct (String.eqb_spec (id m) oldId); [congruence|reflexivity].
    + rewrite !(id_exists_map f) by exact Hid. rewrite Hfk. f_equal. f_equal.
      * rewrite List.map_map. apply List.map_ext. intros m. unfold f.
        destruct (String.eqb (id m) oldId) eqn:Heq; [|rewrite Heq; reflexivity].
        cbn [Supervision.deprecate_row id]. rewrite Heq. reflexivity.
      * assert (Hpk' : NoDup (List.map id (List.map f rows)))
          by (unfold f; rewrite deprecate_map_id; exact Hpk).
        rewrite (filter_id_length _ _ Hpk), (filter_id_length _ _ Hpk').
        rewrite (id_exists_map f) by exact Hid. reflexivity.
Qed.

(** X26. When ids are unique, [deprecateMemory] has three outcomes. It
    is refused by the foreign key, with nothing written, exactly when
    [oldId] has a row and [newId] has none. For an [oldId] without a
    row it changes nothing and reports 0 changes. Otherwise it reports
    1 change: the row of [oldId] gets the status ['deprecated'] and
    points to [newId] (which may be [oldId] itself), its other columns
    unchanged; every other row is unchanged; and the same call made
    again leaves the table as it is. *)
Theorem deprecateMemory_outcomes (rows : list memory) (oldId newId : string) :
  NoDup (List.map id rows) ->
  (Supervision.deprecateMemory rows oldId newId = Supervision.ForeignKeyFailed
   <-> id_exists rows oldId = true /\ id_exists rows newId = false)
  /\ forall rows' changes,
       Supervision.deprecateMemory rows oldId newId
       = Supervision.Done (rows', changes) ->
       changes = (if id_exists rows oldId then 1%nat else 0%nat)
       /\ (id_exists rows oldId = false -> rows' = rows)
       /\ Forall2 (fun m m' =>
                     if String.eqb (id m) oldId
                     then status m' = Some "deprecated"%string
                          /\ superseded_by m' = Some newId
                          /\ id m' = id m
                          /\ title m' = title m
                          /\ detail m' = detail m
                          /\ domain m' = domain m
                          /\ pattern_type m' = pattern_type m
                          /\ activation m' = activation m
                          /\ retrieval_count m' = retrieval_count m
                          /\ last_retrieved m' = last_retrieved m
                          /\ embedding m' = embedding m
                     else m' = m)
                  rows rows'
       /\ Supervision.deprecateMemory rows' oldId newId
          = Supervision.Done (rows', changes).
Proof.
  intros Hpk. pose proof (deprecateMemory_cases rows oldId newId Hpk) as Hcases.
  unfold Supervision.deprecateMemory in *.
  destruct (id_exists rows oldId && negb (id_exists rows newId)) eqn:Hfk.
  - split; [split; [intros _; exact Hcases|reflexivity]|].
    intros rows' changes Hdone. discriminate Hdone.
  - split.
    + split; [discriminate|]. intros [Hold Hnew].
      rewrite Hold, Hnew in Hfk. discriminate Hfk.
    + intros rows' changes [= <- <-].
      destruct Hcases as (_ & Hch & Hsame & _ & _ & Hagain).
      split; [exact Hch|]. split; [exact Hsame|]. split; [|exact Hagain].
      apply Forall2_map_self. intros m _.
      destruct (String.eqb (id m) oldId); [|reflexivity].
      cbn. repeat split.
Qed.

Lemma deprecateMemory_outcomes_witness :
  NoDup (List.map id [Examples.current; Examples.close])
  /\ (Supervision.deprecateMemory [Examples.current; Examples.close]
        "tts:atomic:b" "tts:atomic:zz" = Supervision.ForeignKeyFailed
      <-> id_exists [Examples.current; Examples.close] "tts:atomic:b" = true
          /\ id_exists [Examples.current; Examples.close] "tts:atomic:zz"
             = false)
  /\ Supervision.deprecateMemory [Examples.current; Examples.close]
       "tts:atomic:b" "tts:atomic:zz" = Supervision.ForeignKeyFailed
  /\ forall rows' changes,
       Supervision.deprecateMemory [Examples.current; Examples.close]
         "tts:atomic:b" "tts:atomic:a"
       = Supervision.Done (rows', changes) ->
       changes = (if id_exists [Examples.current; Examples.close]
                       "tts:atomic:b" then 1%nat else 0%nat)
       /\ (id_exists [Examples.current; Examples.close] "tts:atomic:b" = false ->
           rows' = [Examples.current; Examples.close])
       /\ Forall2 (fun m m' =>
                     if String.eqb (id m) "tts:atomic:b"
                     then status m' = Some "deprecated"%string
                          /\ superseded_by m' = Some "tts:atomic:a"%string
                          /\ id m' = id m
                          /\ title m' = title m
                          /\ detail m' = detail m
                          /\ domain m' = domain m
                          /\ pattern_type m' = pattern_type m
                          /\ activation m' = activation m
                          /\ retrieval_count m' = retrieval_count m
                          /\ last_retrieved m' = last_retrieved m
                          /\ embedding m' = embedding m
                     else m' = m)
                  [Examples.current; Examples.close] rows'
       /\ Supervision.deprecateMemory rows' "tts:atomic:b" "tts:atomic:a"
          = Supervision.Done (rows', changes).
Proof.
  assert (Hpk : NoDup (List.map id [Examples.current; Examples.close])).
  { cbn [List.map]. apply NoDup_cons_2; [|apply NoDup_singleton].
    rewrite list_elem_of_In. intros [Heq|[]]. discriminate Heq. }
  split; [exact Hpk|].
  destruct (deprecateMemory_outcomes [Examples.current; Examples.close]
              "tts:atomic:b" "tts:atomic:zz" Hpk) as [Hrefused _].
  destruct (deprecateMemory_outcomes [Examples.current; Examples.close]
              "tts:atomic:b" "tts:atomic:a" Hpk) as [_ Hdone].
  split; [exact Hrefused|].
  split; [apply Hrefused; split; reflexivity|exact Hdone].
Defined.

Lemma generateEmbeddings_in_order_witness :
  (forall batch : list string, batch <> [] -> (length batch <= 25)%nat ->
     Some (List.map (fun _ : string => [1; 0]%float) batch)
     = Some (List.map (fun _ : string => [1; 0]%float) batch))
  /\ Embedding.generateEmbeddings
       (fun batch => Some (List.map (fun _ : string => [1; 0]%float) batch))
       (List.repeat "text"%string 26)
     = Some (List.map (fun _ : string => [1; 0]%float)
               (List.repeat "text"%string 26)).
Proof.
  assert (Hpost : forall batch : list string,
            batch <> [] -> (length batch <= 25)%nat ->
            Some (List.map (fun _ : string => [1; 0]%float) batch)
            = Some (List.map (fun _ : string => [1; 0]%float) batch))
    by reflexivity.
  split; [exact Hpost|].
  apply (generateEmbeddings_in_order
           (fun batch => Some (List.map (fun _ : string => [1; 0]%float) batch))
           (fun _ => [1; 0]%float) (List.repeat "text"%string 26) Hpost).
Defined.

Lemma retrieve_skips_other_dimensions_witness :
  queryEmbedding (Examples.query 20) = Some [1; 0]%float
  /\ stored_dimension Examples.malformed = Some 1%nat
  /\ exists sel,
       retrieve (Examples.store [Examples.current; Examples.malformed]) 0
         (Examples.query 20) = Returned sel
       /\ (forall r, In r sel -> spreadingActivation r = false ->
             stored_dimension (entry r) = Some (length [1; 0]%float))
       /\ ((forall m,
              In m (memories
                      (Examples.store [Examples.current; Examples.malformed])) ->
              stored_dimension m <> Some (length [1; 0]%float)) ->
           sel = []).
Proof.
  assert (Hq : queryEmbedding (Examples.query 20) = Some [1; 0]%float)
    by reflexivity.
  split; [exact Hq|]. split; [reflexivity|].
  apply (retrieve_skips_other_dimensions
           (Examples.store [Examples.current; Examples.malformed]) 0%float
           (Examples.query 20) [1; 0]%float Hq).
Defined.

Lemma retrieve_without_query_returns_top_witness :
  queryEmbedding Examples.hints_only = None
  /\ exists sel,
       retrieve (Examples.store [Examples.current; Examples.close]) 0
         Examples.hints_only = Returned sel
       /\ (sel = []
           <-> selectCandidates
                 (memories (Examples.store [Examples.current; Examples.close]))
                 Examples.hints_only = [])
       /\ (forall r rest, sel = r :: rest ->
             spreadingActivation r = false
             /\ In (entry r)
                   (selectCandidates
                      (memories
                         (Examples.store [Examples.current; Examples.close]))
                      Examples.hints_only)).
Proof.
  assert (Hq : queryEmbedding Examples.hints_only = None) by reflexivity.
  split; [exact Hq|].
  apply (retrieve_without_query_returns_top
           (Examples.store [Examples.current; Examples.close]) 0%float
           Examples.hints_only Hq).
Defined.

(** ** The insert transaction of the session extractor *)

Lemma filter_absent (rows : list memory) (i : string) :
  id_exists rows i = false ->
  List.filter (fun m => negb (String.eqb (id m) i)) rows = rows.
Proof.
  intros Habs. induction rows as [|m rows IH]; [reflexivity|].
  unfold id_exists, getMemory in Habs. cbn [List.find] in Habs.
  cbn [List.filter].
  destruct (String.eqb (id m) i); [discriminate|].
  cbn [negb]. f_equal. apply IH. exact Habs.
Qed.

Lemma setEmbedding_absent (rows : list memory) (i : string)
    (blob : list byte) :
  id_exists rows i = false -> Supervision.setEmbedding rows i blob = rows.
Proof.
  intros Habs. unfold Supervision.setEmbedding.
  rewrite <- (List.map_id rows) at 2. apply List.map_ext_in.
  intros m Hm. destruct (String.eqb_spec (id m) i) as [Heq|_]; [|reflexivity].
  assert (id_exists rows i = true) by (apply id_exists_In; eauto).
  congruence.
Qed.

Lemma id_dedup_entries (rows : list memory) (now : float)
    (atomics : list Ingest.Session.atomic) :
  Forall (fun e => id_exists rows (id e) = false /\ status e = None)
         (fst (Ingest.Session.id_dedup rows now atomics)).
Proof.
  induction atomics as [|a rest IH]; cbn [Ingest.Session.id_dedup];
    [constructor|].
  destruct (Ingest.Session.id_dedup rows now rest) as [newEntries skipped].
  cbn [fst] in IH.
  destruct (id_exists rows (Ingest.Session.entry_id a)) eqn:Hex;
    cbn [fst]; [exact IH|].
  constructor; [|exact IH]. split; [exact Hex|reflexivity].
Qed.

Lemma insertTx_appends (rows : list memory)
    (kept : list (memory * option (list byte))) :
  Forall (fun e => id_exists rows (id (fst e)) = false
                   /\ status (fst e) = None) kept ->
  forall new,
    Forall (fun m => is_active m = true /\ id_exists rows (id m) = false) new ->
    exists new',
      fold_left Extractor.insert_entry kept (rows ++ new) = rows ++ new'
      /\ (length new' <= length new + length kept)%nat
      /\ Forall (fun m => is_active m = true
                          /\ id_exists rows (id m) = false) new'
      /\ rtc Supervision.engine_write (rows ++ new) (rows ++ new').
Proof.
  induction 1 as [|[e blob] kept [Habs Hst] _ IH]; intros new Hnew;
    cbn [fold_left].
  - exists new. split; [reflexivity|]. split; [cbn; lia|].
    split; [exact Hnew|reflexivity].
  - cbn [fst] in Habs, Hst.
    set (new1 := List.filter (fun m => negb (String.eqb (id m) (id e))) new
                 ++ [Ingest.upsert_row e]).
    assert (Hup : Ingest.upsertMemory (rows ++ new) e = rows ++ new1).
    { unfold Ingest.upsertMemory, new1.
      rewrite List.filter_app, (filter_absent rows (id e) Habs), <- app_assoc.
      reflexivity. }
    assert (Hnew1 : Forall (fun m => is_active m = true
                                     /\ id_exists rows (id m) = false) new1).
    { unfold new1. apply Forall_app. split.
      - rewrite List.Forall_forall in Hnew |- *. intros m Hm.
        apply List.filter_In in Hm. apply Hnew, Hm.
      - constructor; [|constructor]. split; [|exact Habs].
        unfold is_active, Ingest.upsert_row. cbn. rewrite Hst. reflexivity. }
    assert (Hlen1 : (length new1 <= length new + 1)%nat).
    { unfold new1. rewrite length_app. cbn [length].
      pose proof (List.filter_length_le
                    (fun m => negb (String.eqb (id m) (id e))) new). lia. }
    assert (Hstep1 : Supervision.engine_write (rows ++ new) (rows ++ new1)).
    { rewrite <- Hup. apply Supervision.write_upsert. intros m Hm Hid.
      apply List.in_app_iff in Hm. destruct Hm as [Hm|Hm].
      - assert (id_exists rows (id e) = true)
          by (apply id_exists_In; eauto). congruence.
      - rewrite List.Forall_forall in Hnew.
        apply active_not_deprecated, (Hnew m Hm). }
    unfold Extractor.insert_entry at 2. cbn [fst snd]. rewrite Hup.
    destruct blob as [blob|].
    + set (new2 := Supervision.setEmbedding new1 (id e) blob).
      assert (Hset : Supervision.setEmbedding (rows ++ new1) (id e) blob
                     = rows ++ new2).
      { unfold new2. rewrite <- (setEmbedding_absent rows (id e) blob Habs) at 2.
        unfold Supervision.setEmbedding. apply List.map_app. }
      assert (Hnew2 : Forall (fun m => is_active m = true
                                       /\ id_exists rows (id m) = false) new2).
      { unfold new2, Supervision.setEmbedding. rewrite List.Forall_forall in *.
        intros m Hm. apply List.in_map_iff in Hm.
        destruct Hm as (m0 & <- & Hm0). specialize (Hnew1 m0 Hm0).
        destruct (String.eqb (id m0) (id e)); exact Hnew1. }
      rewrite Hset. destruct (IH new2 Hnew2) as (new' & Heq & Hlen & Hq & Hrtc).
      exists new'. split; [exact Heq|]. split.
      { unfold new2, Supervision.setEmbedding in Hlen.
        rewrite List.length_map in Hlen. cbn [length]. lia. }
      split; [exact Hq|].
      eapply rtc_l; [exact Hstep1|]. eapply rtc_l; [|exact Hrtc].
      rewrite <- Hset. apply Supervision.write_embedding.
    + destruct (IH new1 Hnew1) as (new' & Heq & Hlen & Hq & Hrtc).
      exists new'. split; [exact Heq|]. split; [cbn [length]; lia|].
      split; [exact Hq|]. eapply rtc_l; [exact Hstep1|exact Hrtc].
Qed.

Lemma sublist_Forall {A} (P : A -> Prop) (l1 l2 : list A) :
  sublist l1 l2 -> Forall P l2 -> Forall P l1.
Proof.
  intros Hsub Hall. rewrite List.Forall_forall in *.
  intros x Hx. apply Hall, (sublist_In _ _ _ Hsub Hx).
Qed.

(** X27. The insert transaction of the session extractor, run on any
    selection of the entries that passed the id check, never changes,
    moves or removes a row that was in the table: the table afterwards
    is the table before, followed by at most one new row per kept
    entry, each of them active and under an id that the table did not
    have. The transaction is a sequence of engine writes of the kind
    that keeps a deprecated row deprecated. *)
Theorem session_insert_keeps_existing_rows (rows : list memory) (now : float)
    (atomics : list Ingest.Session.atomic)
    (kept : list (memory * option (list byte))) :
  sublist (List.map fst kept)
          (fst (Ingest.Session.id_dedup rows now atomics)) ->
  exists new,
    Extractor.insertTx rows kept = rows ++ new
    /\ (length new <= length kept)%nat
    /\ Forall (fun m => is_active m = true
                        /\ id_exists rows (id m) = false) new
    /\ rtc Supervision.engine_write rows (Extractor.insertTx rows kept).
Proof.
  intros Hsub.
  assert (Hkept : Forall (fun e => id_exists rows (id (fst e)) = false
                                   /\ status (fst e) = None) kept).
  { pose proof (sublist_Forall _ _ _ Hsub (id_dedup_entries rows now atomics))
      as Hall.
    rewrite List.Forall_forall in *. intros e He.
    apply Hall, List.in_map, He. }
  destruct (insertTx_appends rows kept Hkept [] (List.Forall_nil _))
    as (new & Heq & Hlen & Hq & Hrtc).
  rewrite app_nil_r in Heq, Hrtc. unfold Extractor.insertTx.
  exists new. split; [exact Heq|]. split; [cbn in Hlen; lia|].
  split; [exact Hq|]. rewrite Heq. exact Hrtc.
Qed.

Lemma session_insert_keeps_existing_rows_witness :
  sublist
    (List.map fst
       [(Ingest.new_entry 0 "infrastructure:session:78" "x"
           "I found that the SQLite journal was locked by another writer."
           "infrastructure" "discovery", Some Examples.blob_10)])
    (fst (Ingest.Session.id_dedup [Examples.current] 0 [Examples.candidate]))
  /\ exists new,
       Extractor.insertTx [Examples.current]
         [(Ingest.new_entry 0 "infrastructure:session:78" "x"
             "I found that the SQLite journal was locked by another writer."
             "infrastructure" "discovery", Some Examples.blob_10)]
       = [Examples.current] ++ new
       /\ (length new <= 1)%nat
       /\ Forall (fun m => is_active m = true
                           /\ id_exists [Examples.current] (id m) = false) new
       /\ rtc Supervision.engine_write [Examples.current]
            (Extractor.insertTx [Examples.current]
               [(Ingest.new_entry 0 "infrastructure:session:78" "x"
                   "I found that the SQLite journal was locked by another writer."
                   "infrastructure" "discovery", Some Examples.blob_10)]).
Proof.
  assert (Hsub :
    sublist
      (List.map fst
         [(Ingest.new_entry 0 "infrastructure:session:78" "x"
             "I found that the SQLite journal was locked by another writer."
             "infrastructure" "discovery", Some Examples.blob_10)])
      (fst (Ingest.Session.id_dedup [Examples.current] 0
              [Examples.candidate])))
    by (vm_compute; apply sublist_skip, sublist_nil).
  split; [exact Hsub|].
  apply (session_insert_keeps_existing_rows [Examples.current] 0%float
           [Examples.candidate] _ Hsub).
Defined.
